(** * apollo-form: the state manipulation and validation engine

    A shallow embedding of [FormManipulator] and [FormManager] and of the
    lodash operations ([_.get], [_.set], [_.merge], [_.isEqual]) they are
    written with, followed by the properties of the specification that the
    code settles. *)

From Stdlib Require Import List String Ascii Bool Arith ZArith NArith Lia.
Import ListNotations.
Local Open Scope string_scope.
Local Open Scope nat_scope.

(** ** JavaScript values

    Form values, error trees and touched trees are plain JavaScript data.
    A container keeps its own properties in insertion order; an array is a
    container tagged [Arr] whose keys are index strings.  Only own data
    properties are modelled: reading a property of a primitive, or one that
    lives on a prototype, yields [undefined]. *)

Inductive kind : Type := Plain | Arr.

#[warnings="-register-all"]
Inductive value : Type :=
| VUndefined
| VNull
| VBool (b : bool)
| VNum (n : Z)
| VStr (s : string)
| VObj (k : kind) (fields : list (string * value)).

Definition fields_t : Type := list (string * value).

Definition kind_eqb (a b : kind) : bool :=
  match a, b with
  | Plain, Plain | Arr, Arr => true
  | _, _ => false
  end.

(** [o[k]] on the own properties. *)
Fixpoint lookup (k : string) (l : fields_t) : option value :=
  match l with
  | [] => None
  | (k', x) :: l' => if String.eqb k k' then Some x else lookup k l'
  end.

(** [o[k] = x]: an existing property keeps its place, a new one is added
    last. *)
Fixpoint assign (k : string) (x : value) (l : fields_t) : fields_t :=
  match l with
  | [] => [(k, x)]
  | (k', y) :: l' =>
      if String.eqb k k' then (k, x) :: l' else (k', y) :: assign k x l'
  end.

Definition has_key (o : value) (k : string) : bool :=
  match o with
  | VObj _ f => match lookup k f with Some _ => true | None => false end
  | _ => false
  end.

(** [o[k]] on the own data properties: the [length] of an array or of a
    string, the characters of a string and the members a value inherits
    are none, and read [undefined] here. *)
Definition prop (o : value) (k : string) : value :=
  match o with
  | VObj _ f => match lookup k f with Some x => x | None => VUndefined end
  | _ => VUndefined
  end.

Definition isObject (v : value) : bool :=
  match v with VObj _ _ => true | _ => false end.

(** [Boolean(v)]. *)
Definition truthy (v : value) : bool :=
  match v with
  | VUndefined | VNull => false
  | VBool b => b
  | VNum n => negb (Z.eqb n 0)
  | VStr s => negb (String.eqb s "")
  | VObj _ _ => true
  end.

(** [a === b] where at most one side can be a container: two containers
    met here are never the same reference. *)
Definition strict_eq (a b : value) : bool :=
  match a, b with
  | VUndefined, VUndefined => true
  | VNull, VNull => true
  | VBool x, VBool y => Bool.eqb x y
  | VNum x, VNum y => Z.eqb x y
  | VStr x, VStr y => String.eqb x y
  | _, _ => false
  end.

(** Own keys are pairwise distinct at every level: what every JavaScript
    object satisfies. *)
Fixpoint keys_distinct (l : list string) : bool :=
  match l with
  | [] => true
  | k :: l' => negb (existsb (String.eqb k) l') && keys_distinct l'
  end.

Fixpoint well_formed (v : value) : bool :=
  match v with
  | VObj _ f =>
      keys_distinct (map fst f) &&
      (fix each (l : fields_t) : bool :=
         match l with
         | [] => true
         | (_, x) :: l' => well_formed x && each l'
         end) f
  | _ => true
  end.

(** ** lodash

    The functions of lodash 4.17 that the manipulator calls, on the values
    above: the path of [_.get] and [_.set] is cast as [castPath] does,
    with the three regular expressions of [stringToPath] and [isKey]
    written out as scanners. *)

Module Lodash.

Definition dot : ascii := "."%char.
Definition lbr : ascii := "["%char.
Definition rbr : ascii := "]"%char.
Definition bslash : ascii := "\"%char.
Definition squote : ascii := "'"%char.
Definition dquote : ascii := ascii_of_nat 34.
Definition minus : ascii := "-"%char.

Definition is_digit (c : ascii) : bool :=
  let n := nat_of_ascii c in (48 <=? n) && (n <=? 57).

(** [\w] *)
Definition is_word (c : ascii) : bool :=
  let n := nat_of_ascii c in
  is_digit c || ((65 <=? n) && (n <=? 90)) || ((97 <=? n) && (n <=? 122))
  || (n =? 95).

Definition is_bracket (c : ascii) : bool :=
  Ascii.eqb c lbr || Ascii.eqb c rbr.

(** [[.[\]]] *)
Definition is_special (c : ascii) : bool :=
  Ascii.eqb c dot || is_bracket c.

(** [.] of a regular expression does not match a line terminator. *)
Definition is_line_end (c : ascii) : bool :=
  let n := nat_of_ascii c in (n =? 10) || (n =? 13).

Fixpoint all_chars (f : ascii -> bool) (s : string) : bool :=
  match s with
  | EmptyString => true
  | String c r => f c && all_chars f r
  end.

(** The longest prefix whose characters satisfy [f], and what follows. *)
Fixpoint span (f : ascii -> bool) (s : string) : string * string :=
  match s with
  | EmptyString => (EmptyString, EmptyString)
  | String c r =>
      if f c then let (a, b) := span f r in (String c a, b)
      else (EmptyString, s)
  end.

Definition starts_with (c : ascii) (s : string) : bool :=
  match s with
  | String d _ => Ascii.eqb c d
  | EmptyString => false
  end.

(** The body of a quoted key, [(?:(?!q)[^\\]|\\.)*?] up to the closing
    quote [q]: the raw body and what follows the quote. *)
Fixpoint scan_quoted (q : ascii) (s : string) : option (string * string) :=
  match s with
  | EmptyString => None
  | String c r =>
      if Ascii.eqb c q then Some (EmptyString, r)
      else if Ascii.eqb c bslash then
        match r with
        | String d r' =>
            if is_line_end d then None
            else match scan_quoted q r' with
                 | Some (b, t) => Some (String c (String d b), t)
                 | None => None
                 end
        | EmptyString => None
        end
      else match scan_quoted q r with
           | Some (b, t) => Some (String c b, t)
           | None => None
           end
  end.

(** [reEscapeChar = /\\(\\)?/g] replaced by ['$1']. *)
Fixpoint unescape (s : string) : string :=
  match s with
  | EmptyString => EmptyString
  | String c r =>
      if Ascii.eqb c bslash then
        match r with
        | String d r' =>
            if Ascii.eqb d bslash then String d (unescape r') else unescape r
        | EmptyString => EmptyString
        end
      else String c (unescape r)
  end.

(** [reIsPlainProp = /^\w*$/] *)
Definition reIsPlainProp (s : string) : bool := all_chars is_word s.

(** After a ['[']: [[^[\]]*\]]. *)
Definition simple_group (s : string) : bool :=
  starts_with rbr (snd (span (fun c => negb (is_bracket c)) s)).

(** After a ['[']: a quote [q], single or double, the body up to the
    closing [q], and [']']: the raw body and what follows. *)
Definition quoted_group (s : string) : option (string * string) :=
  match s with
  | String q r =>
      if Ascii.eqb q dquote || Ascii.eqb q squote then
        match scan_quoted q r with
        | Some (b, String c t) => if Ascii.eqb c rbr then Some (b, t) else None
        | _ => None
        end
      else None
  | EmptyString => None
  end.

(** [reIsDeepProp]: a dot, or a bracket group (simple or quoted),
    somewhere in the string. *)
Fixpoint reIsDeepProp (s : string) : bool :=
  match s with
  | EmptyString => false
  | String c r =>
      Ascii.eqb c dot
      || (Ascii.eqb c lbr
          && (simple_group r
              || match quoted_group r with Some _ => true | None => false end))
      || reIsDeepProp r
  end.

(** After a ['[']: [(-?\d+(?:\.\d+)?)\]], the number and what follows. *)
Definition number_group (s : string) : option (string * string) :=
  let (sign, s1) :=
    match s with
    | String c r => if Ascii.eqb c minus then ("-", r) else ("", s)
    | EmptyString => ("", s)
    end in
  let (ds, s2) := span is_digit s1 in
  match ds, s2 with
  | EmptyString, _ => None
  | _, String c r =>
      if Ascii.eqb c rbr then Some (sign ++ ds, r)
      else if Ascii.eqb c dot then
        let (fs, s3) := span is_digit r in
        match fs, s3 with
        | EmptyString, _ => None
        | _, String c' r' =>
            if Ascii.eqb c' rbr then Some (sign ++ ds ++ "." ++ fs, r')
            else None
        | _, EmptyString => None
        end
      else None
  | _, EmptyString => None
  end.

(** ['.'] or ['[]'] at the head, and what follows it. *)
Definition separator (s : string) : option string :=
  match s with
  | String c r =>
      if Ascii.eqb c dot then Some r
      else if Ascii.eqb c lbr then
        match r with
        | String d t => if Ascii.eqb d rbr then Some t else None
        | EmptyString => None
        end
      else None
  | EmptyString => None
  end.

(** [(?=(?:\.|\[\])(?:\.|\[\]|$))] *)
Definition empty_key_here (s : string) : bool :=
  match separator s with
  | Some EmptyString => true
  | Some t => match separator t with Some _ => true | None => false end
  | None => false
  end.

(** The successive matches of [rePropName] from the head of [s], as
    [String.prototype.replace] with a global pattern finds them: a match
    of the first alternative that succeeds where the search stands, the
    search moving one character on where none does and after an empty
    match.  [fuel] bounds the characters still to read. *)
Fixpoint scan_keys (fuel : nat) (s : string) : list string :=
  match fuel with
  | O => []
  | S n =>
      match s with
      | EmptyString => []
      | String c r =>
          let (run, rest) := span (fun c => negb (is_special c)) s in
          match run with
          | String _ _ => run :: scan_keys n rest
          | EmptyString =>
              let bracketed :=
                if Ascii.eqb c lbr then
                  match number_group r with
                  | Some m => Some m
                  | None =>
                      match quoted_group r with
                      | Some (b, t) => Some (unescape b, t)
                      | None => None
                      end
                  end
                else None in
              match bracketed with
              | Some (key, rest') => key :: scan_keys n rest'
              | None =>
                  if empty_key_here s then EmptyString :: scan_keys n r
                  else scan_keys n r
              end
          end
      end
  end.

Definition stringToPath (s : string) : list string :=
  (if starts_with dot s then [EmptyString] else [])
  ++ scan_keys (String.length s) s.

(** [isKey(value, object)] for a string [value]. *)
Definition isKey (p : string) (o : value) : bool :=
  reIsPlainProp p || negb (reIsDeepProp p) || has_key o p.

Definition castPath (p : string) (o : value) : list string :=
  if isKey p o then [p] else stringToPath p.

(** [reIsUint]: a zero, or digits that do not start with a zero. *)
Definition reIsUint (s : string) : bool :=
  match s with
  | EmptyString => false
  | String c EmptyString => is_digit c
  | String c r => is_digit c && negb (Ascii.eqb c "0"%char) && all_chars is_digit r
  end.

Fixpoint digits_value (acc : N) (s : string) : N :=
  match s with
  | EmptyString => acc
  | String c r => digits_value (acc * 10 + (N_of_ascii c - 48))%N r
  end.

Definition MAX_SAFE_INTEGER : N := 9007199254740991%N.

(** [isIndex(value)] for a string [value]. *)
Definition isIndex (s : string) : bool :=
  reIsUint s && (digits_value 0%N s <? MAX_SAFE_INTEGER)%N.

(** The loop of [baseGet] along the keys of a path. *)
Fixpoint baseGet (o : value) (path : list string) : value :=
  match path with
  | [] => o
  | k :: path' => baseGet (prop o k) path'
  end.

(** [_.get(object, path)] *)
Definition get (o : value) (p : string) : value :=
  match o with
  | VUndefined | VNull => VUndefined
  | _ =>
      match castPath p o with
      | [] => VUndefined
      | path => baseGet o path
      end
  end.

(** The keys [baseSet] never writes. *)
Definition guarded (k : string) : bool :=
  String.eqb k "__proto__" || String.eqb k "constructor"
  || String.eqb k "prototype".

(** The loop of [baseSet] on the own properties of [nested]: a container
    met on the way is kept, anything else is replaced by a fresh array
    when the next key is an index and by a fresh object otherwise.  A key
    is written as an own data property: this is what [assignValue] does
    but at the [length] of an array, which JavaScript coerces to a
    number, truncates the array by or refuses with a [RangeError], and at
    a name the container inherits, where [baseSet] goes on in the
    inherited function.  The statements about what is read after a write
    are for the paths of [Notions.data_path], which leave these out. *)
Fixpoint baseSet (f : fields_t) (path : list string) (v : value) : fields_t :=
  match path with
  | [] => f
  | k :: rest =>
      if guarded k then f
      else
        match rest with
        | [] => assign k v f
        | k2 :: _ =>
            let '(kd, cf) :=
              match lookup k f with
              | Some (VObj kd cf) => (kd, cf)
              | _ => (if isIndex k2 then Arr else Plain, [])
              end in
            assign k (VObj kd (baseSet cf rest v)) f
        end
  end.

(** [_.set(object, path, value)] *)
Definition set (o : value) (p : string) (v : value) : value :=
  match o with
  | VObj kd f => VObj kd (baseSet f (castPath p o) v)
  | _ => o
  end.

(** [_.isEqual(a, b)] *)
Fixpoint isEqual (a b : value) {struct a} : bool :=
  match a, b with
  | VUndefined, VUndefined => true
  | VNull, VNull => true
  | VBool x, VBool y => Bool.eqb x y
  | VNum x, VNum y => Z.eqb x y
  | VStr x, VStr y => String.eqb x y
  | VObj ka fa, VObj kb fb =>
      kind_eqb ka kb && (List.length fa =? List.length fb)
      && (fix each (l : fields_t) : bool :=
            match l with
            | [] => true
            | (k, x) :: l' =>
                match lookup k fb with
                | Some y => isEqual x y
                | None => false
                end && each l'
            end) fa
  | _, _ => false
  end.

(** [baseMerge(object, source)] on the own properties [df] of [object]:
    a container of the source is merged into the container the
    destination holds under that key (a fresh one when it holds none, or
    an object where the source has an array), a defined primitive is
    assigned, and [undefined] is assigned only where the key is new.  A
    source array is walked by its own indexes: lodash walks every index
    below its [length], so the two agree on the arrays without holes. *)
Fixpoint baseMerge (df : fields_t) (src : value) {struct src} : fields_t :=
  match src with
  | VObj _ sf =>
      (fix each (df : fields_t) (sf : fields_t) {struct sf} : fields_t :=
         match sf with
         | [] => df
         | (k, sv) :: sf' =>
             each
               match sv with
               | VObj sk _ =>
                   let '(kd, cf) :=
                     match lookup k df, sk with
                     | Some (VObj Arr cf), Arr => (Arr, cf)
                     | Some (VObj _ _), Arr => (Arr, [])
                     | Some (VObj kd cf), Plain => (kd, cf)
                     | _, _ => (sk, [])
                     end in
                   assign k (VObj kd (baseMerge cf sv)) df
               | VUndefined =>
                   match lookup k df with
                   | Some _ => df
                   | None => assign k VUndefined df
                   end
               | _ => assign k sv df
               end
               sf'
         end) df sf
  | _ => df
  end.

(** [_.merge(object, source)] *)
Definition merge (o : value) (src : value) : value :=
  match o with
  | VObj kd f => VObj kd (baseMerge f src)
  | _ => o
  end.

End Lodash.

(** ** The form state *)

Record ApolloFormState : Type := mkState {
  values : value;
  errors : value;
  touches : value;
  isValid : bool;
  loading : bool;
  existsChanges : bool;
  isSubmitted : bool
}.

Definition with_values (x : value) (s : ApolloFormState) : ApolloFormState :=
  mkState x (errors s) (touches s) (isValid s) (loading s) (existsChanges s)
    (isSubmitted s).

Definition with_errors (x : value) (s : ApolloFormState) : ApolloFormState :=
  mkState (values s) x (touches s) (isValid s) (loading s) (existsChanges s)
    (isSubmitted s).

Definition with_touches (x : value) (s : ApolloFormState) : ApolloFormState :=
  mkState (values s) (errors s) x (isValid s) (loading s) (existsChanges s)
    (isSubmitted s).

Definition with_isValid (b : bool) (s : ApolloFormState) : ApolloFormState :=
  mkState (values s) (errors s) (touches s) b (loading s) (existsChanges s)
    (isSubmitted s).

Definition with_loading (b : bool) (s : ApolloFormState) : ApolloFormState :=
  mkState (values s) (errors s) (touches s) (isValid s) b (existsChanges s)
    (isSubmitted s).

Definition with_existsChanges (b : bool) (s : ApolloFormState)
  : ApolloFormState :=
  mkState (values s) (errors s) (touches s) (isValid s) (loading s) b
    (isSubmitted s).

Definition with_isSubmitted (b : bool) (s : ApolloFormState)
  : ApolloFormState :=
  mkState (values s) (errors s) (touches s) (isValid s) (loading s)
    (existsChanges s) b.

(** [{ ...defaultState, values, errors, touches }] *)
Definition defaultState (v e t : value) : ApolloFormState :=
  mkState v e t true false false false.

(** ** Exceptions and in-place mutation

    A manipulator method mutates the state object it is given and may
    throw: a computation takes the state and yields the state as it has
    become, with the result or the exception. *)

Inductive exn : Type := InvalidArgument.

Inductive outcome (A : Type) : Type :=
| Returned (a : A)
| Thrown (e : exn).
Arguments Returned {A} a.
Arguments Thrown {A} e.

Definition M (S A : Type) : Type := S -> outcome A * S.

Definition ret {S A : Type} (a : A) : M S A := fun s => (Returned a, s).

Definition throw {S A : Type} (e : exn) : M S A := fun s => (Thrown e, s).

Definition bind {S A B : Type} (c : M S A) (k : A -> M S B) : M S B :=
  fun s =>
    match c s with
    | (Returned a, s') => k a s'
    | (Thrown e, s') => (Thrown e, s')
    end.

Definition read {S : Type} : M S S := fun s => (Returned s, s).

Definition modify {S : Type} (f : S -> S) : M S unit :=
  fun s => (Returned tt, f s).

(** A fallible pure step. *)
Definition lift {S A : Type} (o : outcome A) : M S A := fun s => (o, s).

Declare Scope js_scope.
Delimit Scope js_scope with js.
Notation "x <- c ;; k" := (bind c (fun x => k))
  (at level 61, c at next level, right associativity) : js_scope.
Notation "c ;; k" := (bind c (fun _ => k))
  (at level 61, right associativity) : js_scope.
Local Open Scope js_scope.

(** [for (const x of l) body(x)] *)
Fixpoint for_each {S A : Type} (l : list A) (body : A -> M S unit)
  : M S unit :=
  match l with
  | [] => ret tt
  | x :: l' => body x ;; for_each l' body
  end.

Definition when {S : Type} (b : bool) (c : M S unit) : M S unit :=
  if b then c else ret tt.

(** ** ./utils *)

Module Utils.

(** Modelled from the spec: [getDeepStatus] of [./utils], which is not
    among the sources.  The probe of the specification: it reads as [get]
    does, and an empty path is an invalid argument. *)
Definition getDeepStatus (t : value) (p : string) : outcome value :=
  if String.eqb p "" then Thrown InvalidArgument
  else Returned (Lodash.get t p).

(** Modelled from the spec: [setDeepStatus] of [./utils], which is not
    among the sources.  It writes as [set] does, creating the containers
    on the way, and an empty path is an invalid argument. *)
Definition setDeepStatus (t : value) (p : string) (v : value)
  : outcome value :=
  if String.eqb p "" then Thrown InvalidArgument
  else Returned (Lodash.set t p v).

Definition join (prefix : option string) (k : string) : string :=
  match prefix with
  | Some p => p ++ "." ++ k
  | None => k
  end.

Fixpoint deepPairs (prefix : option string) (v : value)
  : list (string * value) :=
  match v with
  | VObj _ f =>
      (fix each (l : fields_t) : list (string * value) :=
         match l with
         | [] => []
         | (k, x) :: l' => (deepPairs (Some (join prefix k)) x ++ each l')%list
         end) f
  | leaf =>
      match prefix with
      | Some p => [(p, leaf)]
      | None => []
      end
  end.

(** Modelled from the spec: [objectDeepPairs] of [./utils], which is not
    among the sources.  Every leaf of a nested record with its dotted
    path, in the order of the keys. *)
Definition objectDeepPairs (o : value) : list (string * value) :=
  deepPairs None o.

End Utils.

(** ** FormManipulator *)

Module FormManipulator.

(** What [reset] is given: a replacement for the values, or a function
    from the current values to the next ones. *)
Inductive override : Type :=
| Replace (v : value)
| Transform (f : value -> value).

(** The fields of the manipulator.  [validateSync] of the schema is taken
    by what it reports: the violations [(path, message)] of [e.inner],
    none when it does not throw.  A field validator returns a message or
    [undefined]. *)
Record t : Type := mk {
  validateHandler : option (ApolloFormState -> value);
  validationSchema : option (value -> list (string * string));
  customValidators : list (string * (value -> option string));
  initialState : value;
  initialErrors : value;
  initialTouches : value;
  validateOnMount : option bool
}.

Definition with_customValidators
  (c : list (string * (value -> option string))) (m : t) : t :=
  mk (validateHandler m) (validationSchema m) c (initialState m)
    (initialErrors m) (initialTouches m) (validateOnMount m).

Definition with_initialTouches (x : value) (m : t) : t :=
  mk (validateHandler m) (validationSchema m) (customValidators m)
    (initialState m) (initialErrors m) x (validateOnMount m).

Definition setValue (key : string) (newValue : value)
  : M ApolloFormState unit :=
  state <- read ;;
  let value := Lodash.get (values state) key in
  when (negb (Lodash.isEqual value newValue))
    (modify (fun s => with_values (Lodash.set (values s) key newValue) s)) ;;
  state <- read ;;
  when (negb (existsChanges state)) (modify (with_existsChanges true)).

Definition setError (key : string) (value : value)
  : M ApolloFormState unit :=
  state <- read ;;
  error <- lift (Utils.getDeepStatus (errors state) key) ;;
  when (negb (strict_eq error value))
    (e <- lift (Utils.setDeepStatus (errors state) key value) ;;
     modify (with_errors e)).

Definition setTouched (key : string) (value : bool)
  : M ApolloFormState unit :=
  state <- read ;;
  touched <- lift (Utils.getDeepStatus (touches state) key) ;;
  when (negb (strict_eq touched (VBool value)))
    (t <- lift (Utils.setDeepStatus (touches state) key (VBool value)) ;;
     modify (with_touches t)).

Definition getValue (state : ApolloFormState) (key : string) : value :=
  Lodash.get (values state) key.

Definition getError (state : ApolloFormState) (key : string)
  : outcome value :=
  Utils.getDeepStatus (errors state) key.

Definition getTouched (state : ApolloFormState) (key : string)
  : outcome value :=
  Utils.getDeepStatus (touches state) key.

(** [s.replace(c, by)] with a string pattern: the first occurrence only. *)
Fixpoint replace_first (c : ascii) (by_ : string) (s : string) : string :=
  match s with
  | EmptyString => EmptyString
  | String d r =>
      if Ascii.eqb c d then by_ ++ r else String d (replace_first c by_ r)
  end.

(** [err.path.replace('[', '.').replace(']', '')] *)
Definition normalize_path (path : string) : string :=
  replace_first "]"%char "" (replace_first "["%char "." path).

Definition custom_validator_step (kv : string * (value -> option string))
  : M ApolloFormState unit :=
  let (key, validator) := kv in
  state <- read ;;
  when (negb (has_key (errors state) key))
    (let value := Lodash.get (values state) key in
     match validator value with
     | Some newError =>
         when (negb (String.eqb newError "")) (setError key (VStr newError))
     | None => ret tt
     end).

Definition schema_step (err : string * string) : M ApolloFormState unit :=
  let (path, message) := err in
  setError (normalize_path path) (VStr message).

Definition touch_step (pair : string * value) : M ApolloFormState unit :=
  modify (fun s => with_touches (Lodash.set (touches s) (fst pair) (VBool true)) s).

Definition validate (m : t) (allTouched : bool) : M ApolloFormState unit :=
  modify (with_errors (VObj Plain [])) ;;
  match validateHandler m with
  | Some handler =>
      state <- read ;;
      let customErrors := handler state in
      modify (fun s => with_errors (Lodash.merge (errors s) customErrors) s)
  | None => ret tt
  end ;;
  for_each (customValidators m) custom_validator_step ;;
  match validationSchema m with
  | Some validateSync =>
      state <- read ;;
      for_each (validateSync (values state)) schema_step
  | None => ret tt
  end ;;
  state <- read ;;
  let errorsPairs := Utils.objectDeepPairs (errors state) in
  let nextIsValid := negb (existsb (fun el => truthy (snd el)) errorsPairs) in
  when allTouched (for_each errorsPairs touch_step) ;;
  modify (with_isValid nextIsValid).

Definition reset (m : t) (getState : option override)
  : M ApolloFormState unit :=
  modify (fun state =>
    match getState with
    | Some (Transform f) =>
        defaultState (f (values state)) (initialErrors m) (initialTouches m)
    | Some (Replace v) =>
        if truthy v
        then defaultState v (initialErrors m) (initialTouches m)
        else defaultState (initialState m) (initialErrors m) (initialTouches m)
    | None =>
        defaultState (initialState m) (initialErrors m) (initialTouches m)
    end).

End FormManipulator.

(** ** FormManager *)

Module FormManager.

(** What the manager does to its surroundings, in order: a [writeQuery]
    of the form record, a call of the [onChange] callback, a call of the
    [onSubmit] handler. *)
Inductive call : Type :=
| Wrote (state : ApolloFormState)
| OnChange (values : value)
| OnSubmit (state : ApolloFormState).

(** How the promise of the [onSubmit] handler settles. *)
Inductive settlement : Type :=
| Resolved
| Rejected (reason : value).

(** [FormManagerParams]: the two callbacks are taken by whether they are
    configured, their calls are recorded in the log. *)
Record FormManagerParams : Type := mkParams {
  p_initialState : value;
  p_initialErrors : option value;
  p_initialTouches : option value;
  p_validate : option (ApolloFormState -> value);
  p_validationSchema : option (value -> list (string * string));
  p_onSubmit : bool;
  p_onChange : bool;
  p_resetOnSubmit : bool;
  p_validateOnMount : option bool
}.

(** The fields of the manager.  [customValidators], [initialErrors] and
    [initialTouches] are objects the manager shares with its manipulator:
    they are kept once, in [manipulator]. *)
Record t : Type := mk {
  manipulator : FormManipulator.t;
  onSubmit : bool;
  onChange : bool;
  resetOnSubmit : bool;
  validateOnMount : option bool;
  initialState : value
}.

Definition customValidators (m : t) := FormManipulator.customValidators (manipulator m).
Definition initialErrors (m : t) := FormManipulator.initialErrors (manipulator m).
Definition initialTouches (m : t) := FormManipulator.initialTouches (manipulator m).

Definition with_manipulator (x : FormManipulator.t) (m : t) : t :=
  mk x (onSubmit m) (onChange m) (resetOnSubmit m) (validateOnMount m)
    (initialState m).

(** The manager, the record the Apollo cache holds under the name of the
    form (none before the first write), and the log of the calls. *)
Record world : Type := mkWorld {
  me : t;
  cache : option ApolloFormState;
  log : list call
}.

Definition with_me (f : t -> t) (w : world) : world :=
  mkWorld (f (me w)) (cache w) (log w).

Definition emit (c : call) : M world unit :=
  modify (fun w => mkWorld (me w) (cache w) (log w ++ [c])%list).

(** A manipulator method on the local [state]. *)
Definition on_state (act : M ApolloFormState unit) (state : ApolloFormState)
  : M world ApolloFormState :=
  fun w =>
    match act state with
    | (Returned _, state') => (Returned state', w)
    | (Thrown e, _) => (Thrown e, w)
    end.

Definition this : M world t := w <- read ;; ret (me w).

Definition set (state : ApolloFormState) : M world unit :=
  modify (fun w => mkWorld (me w) (Some state) (log w)) ;;
  emit (Wrote state).

Definition get : M world ApolloFormState :=
  w <- read ;;
  match cache w with
  | Some data => ret data
  | None =>
      let m := me w in
      let state := defaultState (initialState m) (initialErrors m) (initialTouches m) in
      set state ;;
      ret state
  end.

Definition setValues (values : value) : M world unit :=
  state <- get ;;
  set (with_values values state) ;;
  m <- this ;;
  when (onChange m) (emit (OnChange values)).

Definition setErrors (errors : value) : M world unit :=
  state <- get ;;
  set (with_errors errors state).

Definition setTouches (touches : value) : M world unit :=
  state <- get ;;
  set (with_touches touches state).

Definition setFieldValue (key : string) (newValue : value)
  : M world ApolloFormState :=
  state <- get ;;
  m <- this ;;
  touched <- lift (Utils.getDeepStatus (touches state) key) ;;
  state <- (if negb (truthy touched)
            then on_state (FormManipulator.setTouched key true) state
            else ret state) ;;
  state <- on_state (FormManipulator.setValue key newValue) state ;;
  state <- on_state (FormManipulator.validate (manipulator m) false) state ;;
  set state ;;
  when (onChange m) (emit (OnChange (values state))) ;;
  ret state.

Definition setFieldError (key : string) (error : value) : M world unit :=
  state <- get ;;
  state <- on_state (FormManipulator.setError key error) state ;;
  let errorsPairs := Utils.objectDeepPairs (errors state) in
  let nextIsValid := existsb (fun el => truthy (snd el)) errorsPairs in
  set (with_isValid nextIsValid state).

Definition setFieldTouched (key : string) (value : bool) : M world unit :=
  state <- get ;;
  state <- on_state (FormManipulator.setTouched key value) state ;;
  set state.

Definition setIsValid (value : bool) : M world unit :=
  state <- get ;;
  set (with_isValid value state).

Definition setIsSubmitted (value : bool) : M world unit :=
  state <- get ;;
  set (with_isSubmitted value state).

Definition setExistsChanges (value : bool) : M world unit :=
  state <- get ;;
  set (with_existsChanges value state).

Definition setLoading (value : bool) : M world unit :=
  state <- get ;;
  set (with_loading value state).

(** An omitted [allTouched] takes the default of the manipulator's
    parameter, [false]. *)
Definition or_false (b : option bool) : bool :=
  match b with Some x => x | None => false end.

Definition validate (allTouched : option bool) : M world unit :=
  state <- get ;;
  m <- this ;;
  state <- on_state
             (FormManipulator.validate (manipulator m) (or_false allTouched))
             state ;;
  set state.

Fixpoint registered {A : Type} (key : string) (l : list (string * A)) : bool :=
  match l with
  | [] => false
  | (k, _) :: l' => String.eqb key k || registered key l'
  end.

Fixpoint unregister {A : Type} (key : string) (l : list (string * A))
  : list (string * A) :=
  match l with
  | [] => []
  | (k, f) :: l' =>
      if String.eqb key k then unregister key l' else (k, f) :: unregister key l'
  end.

Definition addFieldValidator (key : string) (func : value -> option string)
  : M world unit :=
  m <- this ;;
  when (negb (registered key (customValidators m)))
    (modify (with_me (fun m =>
       with_manipulator
         (FormManipulator.with_customValidators
            (customValidators m ++ [(key, func)])%list (manipulator m)) m))).

Definition removeFieldValidator (key : string) : M world unit :=
  modify (with_me (fun m =>
    with_manipulator
      (FormManipulator.with_customValidators
         (unregister key (customValidators m)) (manipulator m)) m)).

(** [submit] up to its return: it yields the state its two callbacks
    close over when the handler has been called, and nothing otherwise. *)
Definition submit : M world (option ApolloFormState) :=
  state <- get ;;
  m <- this ;;
  state <- on_state (FormManipulator.validate (manipulator m) true) state ;;
  let state := with_isSubmitted true state in
  if onSubmit m && isValid state then
    let state := with_loading true state in
    set state ;;
    emit (OnSubmit state) ;;
    ret (Some state)
  else
    set state ;;
    ret None.

(** The callback of [submit] that runs when the promise of the handler
    settles, on the [state] it closes over. *)
Definition submit_settled (state : ApolloFormState) (r : settlement)
  : M world unit :=
  match r with
  | Resolved =>
      let state := with_loading false state in
      m <- this ;;
      state <- (if resetOnSubmit m
                then on_state (FormManipulator.reset (manipulator m) None) state
                else ret state) ;;
      set state
  | Rejected _ =>
      let state := with_loading false state in
      set state
  end.

(** [reset]: after the manipulator's [reset], [state.touches] is the very
    object [initialTouches]; what [validate] writes into the one it writes
    into the other. *)
Definition reset (getState : option FormManipulator.override)
  : M world unit :=
  state <- get ;;
  m <- this ;;
  state <- on_state (FormManipulator.reset (manipulator m) getState) state ;;
  state <- on_state
             (FormManipulator.validate (manipulator m)
                (or_false (validateOnMount m)))
             state ;;
  modify (with_me (fun m =>
    with_manipulator
      (FormManipulator.with_initialTouches (touches state) (manipulator m)) m)) ;;
  let state := with_isSubmitted false state in
  let state := with_existsChanges false state in
  set state.

(** [_.cloneDeep(x) || {}] *)
Definition or_empty (o : option value) : value :=
  match o with
  | Some v => if truthy v then v else VObj Plain []
  | None => VObj Plain []
  end.

(** The field assignments of the constructor. *)
Definition fields_of (props : FormManagerParams) : t :=
  mk (FormManipulator.mk (p_validate props) (p_validationSchema props) []
        (p_initialState props) (or_empty (p_initialErrors props))
        (or_empty (p_initialTouches props)) (p_validateOnMount props))
     (p_onSubmit props) (p_onChange props) (p_resetOnSubmit props)
     (p_validateOnMount props) (p_initialState props).

(** The constructor, on the Apollo cache it is given. *)
Definition constructor (props : FormManagerParams)
  (cache0 : option ApolloFormState) : outcome unit * world :=
  (get ;;
   m <- this ;;
   validate (validateOnMount m))
    (mkWorld (fields_of props) cache0 []).

End FormManager.

(** * The vocabulary of the statements *)

(** ** Key paths *)

Module Paths.
Import Lodash.

(** A path [baseSet] writes: it has a key, and none that is guarded. *)
Definition writable (path : list string) : bool :=
  match path with
  | [] => false
  | _ => forallb (fun k => negb (guarded k)) path
  end.

(** Two key paths part ways: at some depth they hold different keys. *)
Fixpoint diverge (p q : list string) : bool :=
  match p, q with
  | k :: p', k' :: q' => if String.eqb k k' then diverge p' q' else true
  | _, _ => false
  end.

(** A field name that is not empty, has no dot and no bracket, and is
    none of the names [baseSet] refuses. *)
Definition simple_key (k : string) : bool :=
  negb (String.eqb k "")
  && all_chars (fun c => negb (is_special c)) k
  && negb (guarded k).

(** [.k1.k2...] *)
Fixpoint suffix (ks : list string) : string :=
  match ks with
  | [] => ""
  | k :: ks' => "." ++ k ++ suffix ks'
  end.

(** The dotted path of a key path. *)
Definition dotted_path (ks : list string) : string :=
  match ks with
  | [] => ""
  | k :: ks' => k ++ suffix ks'
  end.

Definition simple_path (ks : list string) : Prop :=
  ks <> [] /\ Forall (fun k => simple_key k = true) ks.

Definition under (k : string) (kl : list string * value)
  : list string * value :=
  (k :: fst kl, snd kl).

(** The leaves of a tree with their key paths, in the order of the
    keys. *)
Fixpoint leaves (v : value) : list (list string * value) :=
  match v with
  | VObj _ f =>
      (fix each (l : fields_t) : list (list string * value) :=
         match l with
         | [] => []
         | (k, x) :: l' => (map (under k) (leaves x) ++ each l')%list
         end) f
  | leaf => [([], leaf)]
  end.

(** A tree of plain field names: at every level the keys are simple and
    pairwise distinct. *)
Fixpoint simple_tree (v : value) : bool :=
  match v with
  | VObj _ f =>
      keys_distinct (map fst f)
      && (fix each (l : fields_t) : bool :=
            match l with
            | [] => true
            | (k, x) :: l' => simple_key k && simple_tree x && each l'
            end) f
  | _ => true
  end.

Definition fields_leaves (f : fields_t) : list (list string * value) :=
  flat_map (fun kx => map (under (fst kx)) (leaves (snd kx))) f.

Definition apart (a b : list string * value) : Prop :=
  diverge (fst a) (fst b) = true.

Definition touch_paths (paths : list (list string)) (t : value) : value :=
  fold_left (fun t ks => set t (dotted_path ks) (VBool true)) paths t.

End Paths.

(** ** What a computation keeps *)

(** A relation between the state before and the state after that every
    step may keep: it holds of no step at all and of steps in a row. *)
Class Frame {S : Type} (R : S -> S -> Prop) : Prop := {
  frame_refl : forall s, R s s;
  frame_trans : forall a b c, R a b -> R b c -> R a c
}.

(** [c] leaves the state related to the one it started from, whether it
    returns or throws. *)
Definition preserves {S A : Type} (R : S -> S -> Prop) (c : M S A) : Prop :=
  forall s, R s (snd (c s)).

(** [c] returns, from every state. *)
Definition returns {S A : Type} (c : M S A) : Prop :=
  forall s, exists a s', c s = (Returned a, s').

(** Everything but [errors] and [isValid] is as it was. *)
Definition same_but_errors (s s' : ApolloFormState) : Prop :=
  values s' = values s /\ touches s' = touches s /\ loading s' = loading s
  /\ existsChanges s' = existsChanges s /\ isSubmitted s' = isSubmitted s.

(** Everything but [touches] and [isValid] is as it was. *)
Definition same_but_touches (s s' : ApolloFormState) : Prop :=
  values s' = values s /\ errors s' = errors s /\ loading s' = loading s
  /\ existsChanges s' = existsChanges s /\ isSubmitted s' = isSubmitted s.

(** ** The two steps of a validation pass *)

Module Passes.
Import FormManipulator.

(** The part of [validate] that builds the errors. *)
Definition collect_errors (m : t) : M ApolloFormState unit :=
  modify (with_errors (VObj Plain [])) ;;
  match validateHandler m with
  | Some handler =>
      state <- read ;;
      modify (fun s => with_errors (Lodash.merge (errors s) (handler state)) s)
  | None => ret tt
  end ;;
  for_each (customValidators m) custom_validator_step ;;
  match validationSchema m with
  | Some validateSync =>
      state <- read ;;
      for_each (validateSync (values state)) schema_step
  | None => ret tt
  end.

(** The part of [validate] that follows. *)
Definition conclude (allTouched : bool) : M ApolloFormState unit :=
  state <- read ;;
  let errorsPairs := Utils.objectDeepPairs (errors state) in
  let nextIsValid := negb (existsb (fun el => truthy (snd el)) errorsPairs) in
  when allTouched (for_each errorsPairs touch_step) ;;
  modify (with_isValid nextIsValid).

(** The touched tree once every pair of [pairs] has been written. *)
Definition touch_all (pairs : list (string * value)) (t : value) : value :=
  fold_left (fun t pair => Lodash.set t (fst pair) (VBool true)) pairs t.

(** What [validate] makes of the errors it has built. *)
Definition no_truthy_leaf (e : value) : bool :=
  negb (existsb (fun el => truthy (snd el)) (Utils.objectDeepPairs e)).

Definition concluded (allTouched : bool) (s : ApolloFormState)
  : ApolloFormState :=
  with_isValid (no_truthy_leaf (errors s))
    (if allTouched
     then with_touches (touch_all (Utils.objectDeepPairs (errors s)) (touches s)) s
     else s).

(** No field validator is registered at the empty path, and the schema
    reports no violation whose path becomes the empty path. *)
Definition paths_given (m : t) : Prop :=
  Forall (fun kv => fst kv <> "") (customValidators m)
  /\ forall validateSync values,
       validationSchema m = Some validateSync ->
       Forall (fun err => normalize_path (fst err) <> "")
         (validateSync values).

End Passes.

(** ** The manager and the cache *)

Module Worlds.
Import FormManager.

(** The record [get] returns: the one the cache holds, the initial one
    when it holds none. *)
Definition stored (w : world) : ApolloFormState :=
  match cache w with
  | Some data => data
  | None =>
      defaultState (initialState (me w)) (initialErrors (me w))
        (initialTouches (me w))
  end.

(** The world [get] leaves: the initial record is written when the cache
    holds none. *)
Definition fetched (w : world) : world :=
  match cache w with
  | Some _ => w
  | None => mkWorld (me w) (Some (stored w)) (log w ++ [Wrote (stored w)])
  end.

(** The world after [set(state)]. *)
Definition written (state : ApolloFormState) (w : world) : world :=
  mkWorld (me w) (Some state) (log w ++ [Wrote state]).

(** How many times the [onSubmit] handler has been called. *)
Fixpoint handler_calls (l : list call) : nat :=
  match l with
  | [] => 0
  | OnSubmit _ :: l' => Datatypes.S (handler_calls l')
  | _ :: l' => handler_calls l'
  end.

(** The state the manipulator's [reset] leaves. *)
Definition reset_state (m : FormManipulator.t)
  (getState : option FormManipulator.override) (state : ApolloFormState)
  : ApolloFormState :=
  snd (FormManipulator.reset m getState state).

(** The manager once its [initialTouches] object holds [x]. *)
Definition sharing_touches (x : value) (m : t) : t :=
  with_manipulator (FormManipulator.with_initialTouches x (manipulator m)) m.

(** What the specification asks of [isValid]: no leaf of the errors tree
    is a non-empty string. *)
Definition no_error_leaf (e : value) : Prop :=
  forall path message,
    In (path, VStr message) (Utils.objectDeepPairs e) -> message = "".

(** The state the cache holds, the initial one when it holds none. *)
Definition cached (w : world) : ApolloFormState := stored w.

End Worlds.

(** ** Sequences of calls *)

Module History.
Import FormManager.

(** A call of the public API, or the settling of a submission. *)
Inductive action : Type :=
| SetValues (values : value)
| SetErrors (errors : value)
| SetTouches (touches : value)
| SetFieldValue (key : string) (newValue : value)
| SetFieldError (key : string) (error : value)
| SetFieldTouched (key : string) (flag : bool)
| SetIsValid (flag : bool)
| SetIsSubmitted (flag : bool)
| SetExistsChanges (flag : bool)
| SetLoading (flag : bool)
| Validate (allTouched : option bool)
| AddFieldValidator (key : string) (func : value -> option string)
| RemoveFieldValidator (key : string)
| Submit
| SubmitSettled (state : ApolloFormState) (r : settlement)
| Reset (getState : option FormManipulator.override).

Definition perform (a : action) : M world unit :=
  match a with
  | SetValues values => setValues values
  | SetErrors errors => setErrors errors
  | SetTouches touches => setTouches touches
  | SetFieldValue key newValue => setFieldValue key newValue ;; ret tt
  | SetFieldError key error => setFieldError key error
  | SetFieldTouched key flag => setFieldTouched key flag
  | SetIsValid flag => setIsValid flag
  | SetIsSubmitted flag => setIsSubmitted flag
  | SetExistsChanges flag => setExistsChanges flag
  | SetLoading flag => setLoading flag
  | Validate allTouched => validate allTouched
  | AddFieldValidator key func => addFieldValidator key func
  | RemoveFieldValidator key => removeFieldValidator key
  | Submit => submit ;; ret tt
  | SubmitSettled state r => submit_settled state r
  | Reset getState => reset getState
  end.

(** The world after the calls of [history], a call that throws leaving
    what it did before it threw. *)
Fixpoint run (history : list action) (w : world) : world :=
  match history with
  | [] => w
  | a :: history' => run history' (snd (perform a w))
  end.

(** The calls that validate before they write. *)
Definition revalidates (a : action) : bool :=
  match a with
  | SetFieldValue _ _ | Validate _ | Reset _ | Submit => true
  | _ => false
  end.

(** The calls that write back the [isValid] they read. *)
Definition copies_isValid (a : action) : bool :=
  match a with
  | SetValues _ | SetErrors _ | SetTouches _ | SetFieldTouched _ _
  | SetIsSubmitted _ | SetExistsChanges _ | SetLoading _ => true
  | _ => false
  end.

(** What of the manager no call changes: everything but the registered
    validators, and the initial touched tree where [validateOnMount] is
    off. *)
Definition same_settings (w w' : world) : Prop :=
  let m := me w in
  let m' := me w' in
  onSubmit m' = onSubmit m
  /\ onChange m' = onChange m
  /\ resetOnSubmit m' = resetOnSubmit m
  /\ validateOnMount m' = validateOnMount m
  /\ initialState m' = initialState m
  /\ FormManipulator.validateHandler (manipulator m')
     = FormManipulator.validateHandler (manipulator m)
  /\ FormManipulator.validationSchema (manipulator m')
     = FormManipulator.validationSchema (manipulator m)
  /\ FormManipulator.initialState (manipulator m')
     = FormManipulator.initialState (manipulator m)
  /\ initialErrors m' = initialErrors m
  /\ (or_false (validateOnMount m) = false
      -> initialTouches m' = initialTouches m).

Definition same_manager (w w' : world) : Prop := me w' = me w.

End History.

(** ** Forms used as examples *)

Module Examples.
Import FormManager Worlds.

(** A form whose free-form validate function always reports an error,
    with an [onSubmit] handler. *)
Definition rejecting_props : FormManagerParams :=
  mkParams (VObj Plain [("age", VNum 10)]) None None
    (Some (fun _ => VObj Plain [("age", VStr "too young")])) None
    true false false None.

Definition rejecting_world : world :=
  Eval vm_compute in snd (constructor rejecting_props None).

Definition rejecting_validated : ApolloFormState :=
  Eval vm_compute in
    snd (FormManipulator.validate (manipulator (me rejecting_world)) true
           (stored rejecting_world)).

(** A form that validates, with an [onSubmit] handler. *)
Definition accepting_props : FormManagerParams :=
  mkParams (VObj Plain [("age", VNum 20)]) None None None None
    true false false None.

Definition accepting_world : world :=
  Eval vm_compute in snd (constructor accepting_props None).

Definition accepting_submitted : ApolloFormState :=
  Eval vm_compute in
    match fst (submit accepting_world) with
    | Returned (Some state) => state
    | _ => stored accepting_world
    end.

(** A form given initial errors, and no validator. *)
Definition stale_props : FormManagerParams :=
  mkParams (VObj Plain [("age", VNum 20)])
    (Some (VObj Plain [("age", VStr "from the server")])) None None None
    false false false None.

Definition stale_world : world :=
  Eval vm_compute in
    History.run [History.SetFieldValue "age" (VNum 30)]
      (snd (constructor stale_props None)).

Definition stale_validated : ApolloFormState :=
  Eval vm_compute in
    snd (FormManipulator.validate (manipulator (me stale_world)) false
           (defaultState (p_initialState stale_props)
              (or_empty (p_initialErrors stale_props))
              (initialTouches (me stale_world)))).

(** A form whose free-form validate function reports an error at the
    nested path [address.city] and one at [name], with a field validator
    registered at each of the two paths. *)
Definition nested_form : FormManipulator.t :=
  FormManipulator.mk
    (Some (fun _ =>
       VObj Plain [("address", VObj Plain [("city", VStr "from validate")]);
                   ("name", VStr "from validate")]))
    None
    [("address.city", fun _ => Some "from the field validator");
     ("name", fun _ => Some "from the field validator")]
    (VObj Plain []) (VObj Plain []) (VObj Plain []) None.

(** The normalisation of a path as the specification words it: every
    ['['] becomes a dot and every [']'] goes. *)
Fixpoint normalize_path_as_specified (path : string) : string :=
  match path with
  | EmptyString => EmptyString
  | String c r =>
      if Ascii.eqb c "["%char
      then String "."%char (normalize_path_as_specified r)
      else if Ascii.eqb c "]"%char then normalize_path_as_specified r
      else String c (normalize_path_as_specified r)
  end.

(** A form whose free-form validate function reports no message for
    [email]: the leaf is the empty string. *)
Definition lenient_form : FormManipulator.t :=
  FormManipulator.mk
    (Some (fun _ => VObj Plain [("email", VStr ""); ("name", VUndefined)]))
    None [] (VObj Plain []) (VObj Plain []) (VObj Plain []) None.

Definition untouched_state : ApolloFormState :=
  defaultState (VObj Plain [("email", VStr "a@b.c")]) (VObj Plain [])
    (VObj Plain []).

End Examples.

(** ** What the further statements speak of *)

Module Notions.
Import FormManager History.

(** The status tree [setError] and [setTouched] leave: the tree itself
    when it reads [v] at the key already, and the tree [setDeepStatus]
    writes otherwise. *)
Definition status_set (t : value) (key : string) (v : value) : value :=
  if strict_eq (Lodash.get t key) v then t else Lodash.set t key v.

(** How many times the character [c] occurs in [s]. *)
Fixpoint occurrences (c : ascii) (s : string) : nat :=
  match s with
  | EmptyString => 0
  | String d r => (if Ascii.eqb c d then 1 else 0) + occurrences c r
  end.

(** How many of the calls are calls of [submit]. *)
Fixpoint submissions (history : list action) : nat :=
  match history with
  | [] => 0
  | Submit :: history' => Datatypes.S (submissions history')
  | _ :: history' => submissions history'
  end.

(** The names every plain object inherits from [Object.prototype]: at
    these [o[key]] is defined whatever the own properties of [o]. *)
Definition inherited (key : string) : bool :=
  existsb (String.eqb key)
    ["constructor"; "__proto__"; "hasOwnProperty"; "isPrototypeOf";
     "propertyIsEnumerable"; "toLocaleString"; "toString"; "valueOf";
     "__defineGetter__"; "__defineSetter__"; "__lookupGetter__";
     "__lookupSetter__"].

(** A name at which the registry of field validators, a plain object,
    behaves as the list of its own properties in insertion order: it is
    not inherited, and it is no array index, which [for ... in] would
    visit before the other keys. *)
Definition ordinary_name (key : string) : bool :=
  negb (inherited key) && negb (Lodash.reIsUint key).

(** A key that names an own data property of [container], in JavaScript
    as in the model.  It names nothing every object inherits.  On an
    array it is written as an unsigned integer, so that it is neither
    [length], which JavaScript coerces, truncates the array by or throws
    on, nor a method of arrays. *)
Definition own_key (container : value) (k : string) : bool :=
  negb (inherited k)
  && match container with
     | VObj Arr _ => Lodash.reIsUint k
     | _ => true
     end.

(** A key path [_.set] writes along as [Lodash.set] does, from [o] down:
    every key names an own data property of the container it is written
    in.  Where the path meets no container, [_.set] makes a fresh one, an
    array exactly when the next key is an index. *)
Fixpoint write_path (o : value) (path : list string) : bool :=
  match path with
  | [] => true
  | k :: rest => own_key o k && write_path (prop o k) rest
  end.

(** A key path [_.get] reads along as [Lodash.get] does, from [o] down:
    moreover no key is read in a string, a number or a boolean, whose
    [length], characters and methods are no own data. *)
Fixpoint data_path (o : value) (path : list string) : bool :=
  match path with
  | [] => true
  | k :: rest =>
      match o with
      | VBool _ | VNum _ | VStr _ => false
      | _ => own_key o k && data_path (prop o k) rest
      end
  end.

(** Every [_.set(touches, path, true)] of the loop over [pairs] writes
    along its path as [Lodash.set] does, in the touched tree as it is by
    then. *)
Fixpoint data_writes (pairs : list (string * value)) (t : value) : bool :=
  match pairs with
  | [] => true
  | (path, _) :: rest =>
      write_path t (Lodash.castPath path t)
      && data_writes rest (Lodash.set t path (VBool true))
  end.

(** A field validator that reports nothing, whatever the value. *)
Definition silent (validator : value -> option string) : Prop :=
  forall v, validator v = None \/ validator v = Some "".

(** The cache holds a record of the form. *)
Definition holds_record (w : world) : Prop := cache w <> None.

(** A form whose schema reports two violations, the last one at
    [friends[0].name], where a field validator is registered too and
    under a key the validate function reports an error at. *)
Definition friends_schema (values : value) : list (string * string) :=
  [("name", "required"); ("friends[0].name", "too short")].

Definition friends_form : FormManipulator.t :=
  FormManipulator.mk
    (Some (fun _ => VObj Plain [("friends", VStr "from validate")]))
    (Some friends_schema)
    [("friends.0.name", fun _ => Some "from the field validator")]
    (VObj Plain []) (VObj Plain []) (VObj Plain []) None.

Definition empty_state : ApolloFormState :=
  defaultState (VObj Plain []) (VObj Plain []) (VObj Plain []).

(** A form with no [onSubmit] handler, and with a field validator that
    reports an error registered at the empty path. *)
Definition pathless_props : FormManagerParams :=
  mkParams (VObj Plain [("age", VNum 10)]) None None None None
    false false false None.

Definition pathless_world : world :=
  Eval vm_compute in
    snd (addFieldValidator "" (fun _ => Some "required")
           (snd (constructor pathless_props None))).

(** A form whose validate function reports an error under the flat key
    [a.b] and one under the key [a]: the dotted path of the first leaf
    runs through the second. *)
Definition colliding_form : FormManipulator.t :=
  FormManipulator.mk
    (Some (fun _ => VObj Plain [("a.b", VStr "first"); ("a", VStr "second")]))
    None [] (VObj Plain []) (VObj Plain []) (VObj Plain []) None.

(** A record with a nested record. *)
Definition user_state : ApolloFormState :=
  defaultState (VObj Plain [("user", VObj Plain [("id", VNum 7)])])
    (VObj Plain []) (VObj Plain []).

End Notions.

(** * Properties *)

(** ** Running computations *)

Section Computations.

Context {S : Type} (R : S -> S -> Prop) `{!Frame R}.

Lemma preserves_ret {A : Type} (a : A) : preserves R (ret a).
Proof. intro s. apply frame_refl. Qed.

Lemma preserves_read : preserves R read.
Proof. intro s. apply frame_refl. Qed.

Lemma preserves_lift {A : Type} (o : outcome A) : preserves R (lift o).
Proof. intro s. apply frame_refl. Qed.

Lemma preserves_modify (f : S -> S) :
  (forall s, R s (f s)) -> preserves R (modify f).
Proof. intros H s. apply H. Qed.

Lemma preserves_bind {A B : Type} (c : M S A) (k : A -> M S B) :
  preserves R c -> (forall a, preserves R (k a)) -> preserves R (bind c k).
Proof.
  intros Hc Hk s. unfold bind. specialize (Hc s).
  destruct (c s) as [[a | e] s']; simpl in *.
  - eapply frame_trans; [exact Hc | apply Hk].
  - exact Hc.
Qed.

Lemma preserves_when (b : bool) (c : M S unit) :
  preserves R c -> preserves R (when b c).
Proof. intros H. destruct b; simpl; [exact H | apply preserves_ret]. Qed.

Lemma preserves_for_each {A : Type} (l : list A) (body : A -> M S unit) :
  (forall x, preserves R (body x)) -> preserves R (for_each l body).
Proof.
  intros H. induction l as [| x l IH]; simpl.
  - apply preserves_ret.
  - apply preserves_bind; [apply H | intros _; exact IH].
Qed.

End Computations.

(** [bind] is associative, state by state. *)
Lemma bind_assoc {S A B C : Type} (c : M S A) (k : A -> M S B)
  (h : B -> M S C) (s : S) :
  bind (bind c k) h s = bind c (fun a => bind (k a) h) s.
Proof. unfold bind. destruct (c s) as [[a | e] s']; reflexivity. Qed.

Lemma bind_returned {S A B : Type} (c : M S A) (k : A -> M S B) (s s' : S)
  (a : A) :
  c s = (Returned a, s') -> bind c k s = k a s'.
Proof. intros H. unfold bind. rewrite H. reflexivity. Qed.

Lemma bind_thrown {S A B : Type} (c : M S A) (k : A -> M S B) (s s' : S)
  (e : exn) :
  c s = (Thrown e, s') -> bind c k s = (Thrown e, s').
Proof. intros H. unfold bind. rewrite H. reflexivity. Qed.

Lemma returns_ret {S A : Type} (a : A) : returns (@ret S A a).
Proof. intros s. exists a, s. reflexivity. Qed.

Lemma returns_read {S : Type} : returns (@read S).
Proof. intros s. exists s, s. reflexivity. Qed.

Lemma returns_modify {S : Type} (f : S -> S) : returns (modify f).
Proof. intros s. exists tt, (f s). reflexivity. Qed.

Lemma returns_bind {S A B : Type} (c : M S A) (k : A -> M S B) :
  returns c -> (forall a, returns (k a)) -> returns (bind c k).
Proof.
  intros Hc Hk s. destruct (Hc s) as (a & s' & E).
  destruct (Hk a s') as (b & s'' & E'). exists b, s''.
  rewrite (bind_returned _ _ _ _ _ E). exact E'.
Qed.

Lemma returns_when {S : Type} (b : bool) (c : M S unit) :
  returns c -> returns (when b c).
Proof. intros H. destruct b; [exact H | apply returns_ret]. Qed.

Lemma returns_for_each {S A : Type} (l : list A) (body : A -> M S unit) :
  Forall (fun x => returns (body x)) l -> returns (for_each l body).
Proof.
  induction 1 as [| x l Hx Hl IH]; simpl.
  - apply returns_ret.
  - apply returns_bind; [exact Hx | intros _; exact IH].
Qed.

(** ** The frame of the manipulator's methods *)

#[local] Instance same_but_errors_frame : Frame same_but_errors.
Proof.
  split.
  - intros s. repeat split.
  - unfold same_but_errors. intros a b c (?&?&?&?&?) (?&?&?&?&?).
    repeat split; congruence.
Qed.

#[local] Instance same_but_touches_frame : Frame same_but_touches.
Proof.
  split.
  - intros s. repeat split.
  - unfold same_but_touches. intros a b c (?&?&?&?&?) (?&?&?&?&?).
    repeat split; congruence.
Qed.

Ltac frame_steps :=
  repeat first
    [ apply preserves_bind; [typeclasses eauto | |]
    | apply preserves_when; [typeclasses eauto |]
    | apply preserves_for_each; [typeclasses eauto |]
    | apply preserves_ret; typeclasses eauto
    | apply preserves_read; typeclasses eauto
    | apply preserves_lift; typeclasses eauto
    | apply preserves_modify
    | intro ].

Module ManipulatorFacts.
Import FormManipulator Passes.

Lemma setError_frame key v : preserves same_but_errors (setError key v).
Proof. unfold setError. frame_steps. repeat split. Qed.

Lemma custom_validator_step_frame kv :
  preserves same_but_errors (custom_validator_step kv).
Proof.
  destruct kv as [key validator]. unfold custom_validator_step.
  apply preserves_bind; [typeclasses eauto | apply preserves_read; typeclasses eauto |].
  intros state. apply preserves_when; [typeclasses eauto |].
  destruct (validator _) as [newError |].
  - apply preserves_when; [typeclasses eauto | apply setError_frame].
  - apply preserves_ret; typeclasses eauto.
Qed.

Lemma schema_step_frame err : preserves same_but_errors (schema_step err).
Proof. destruct err. apply setError_frame. Qed.

Lemma validate_split m allTouched s :
  validate m allTouched s = bind (collect_errors m) (fun _ => conclude allTouched) s.
Proof.
  unfold validate, collect_errors, conclude, bind, modify, read, ret.
  destruct (validateHandler m) as [handler |];
    (destruct (for_each (customValidators m) custom_validator_step _)
       as [[[] | e] s1]; [| reflexivity]);
    (destruct (validationSchema m) as [validateSync |]; [| reflexivity]);
    (destruct (for_each (validateSync (values s1)) schema_step s1)
       as [[[] | e] s2]; reflexivity).
Qed.

Lemma collect_errors_frame m : preserves same_but_errors (collect_errors m).
Proof.
  unfold collect_errors.
  apply preserves_bind; [typeclasses eauto | |].
  { apply preserves_modify. intros s. repeat split. }
  intros _. apply preserves_bind; [typeclasses eauto | |].
  { destruct (validateHandler m) as [handler |]; frame_steps. repeat split. }
  intros _. apply preserves_bind; [typeclasses eauto | |].
  { apply preserves_for_each; [typeclasses eauto |].
    apply custom_validator_step_frame. }
  intros _. destruct (validationSchema m) as [validateSync |].
  - apply preserves_bind; [typeclasses eauto | |].
    + apply preserves_read; typeclasses eauto.
    + intros state. apply preserves_for_each; [typeclasses eauto |].
      apply schema_step_frame.
  - apply preserves_ret; typeclasses eauto.
Qed.

Lemma for_each_touch_step pairs s :
  for_each pairs touch_step s
  = (Returned tt, with_touches (touch_all pairs (touches s)) s).
Proof.
  revert s. induction pairs as [| pair pairs IH]; intros s; simpl.
  - destruct s; reflexivity.
  - unfold bind, touch_step at 1, modify. rewrite IH. reflexivity.
Qed.

Lemma conclude_spec allTouched s :
  conclude allTouched s = (Returned tt, concluded allTouched s).
Proof.
  unfold conclude, concluded, bind, read, when, modify.
  destruct allTouched.
  - rewrite for_each_touch_step. reflexivity.
  - reflexivity.
Qed.

(** [validate] in two steps: it throws where building the errors throws,
    and concludes on the state that step leaves otherwise. *)
Lemma validate_spec m allTouched s :
  validate m allTouched s
  = match collect_errors m s with
    | (Returned _, s1) => (Returned tt, concluded allTouched s1)
    | (Thrown e, s1) => (Thrown e, s1)
    end.
Proof.
  rewrite validate_split. unfold bind.
  destruct (collect_errors m s) as [[[] | e] s1]; [apply conclude_spec | reflexivity].
Qed.

Lemma validate_frame m s :
  same_but_errors s (snd (validate m false s)).
Proof.
  rewrite validate_spec. pose proof (collect_errors_frame m s) as H.
  destruct (collect_errors m s) as [[[] | e] s1]; simpl in *; [| exact H].
  destruct H as (?&?&?&?&?). repeat split; assumption.
Qed.

Lemma validate_isValid m allTouched s s' :
  validate m allTouched s = (Returned tt, s') ->
  isValid s' = no_truthy_leaf (errors s').
Proof.
  rewrite validate_spec.
  destruct (collect_errors m s) as [[[] | e] s1]; [| discriminate].
  intros H. injection H as <-. destruct allTouched; reflexivity.
Qed.

(** With [allTouched] or without, [validate] ends the same way and
    leaves the same state but for the touched tree. *)
Lemma validate_allTouched m s :
  fst (validate m true s) = fst (validate m false s)
  /\ same_but_touches (snd (validate m false s)) (snd (validate m true s))
  /\ isValid (snd (validate m true s)) = isValid (snd (validate m false s)).
Proof.
  rewrite !validate_spec.
  destruct (collect_errors m s) as [[[] | e] s1]; simpl;
    repeat split; reflexivity.
Qed.

(** *** When [validate] returns *)

Lemma setError_returns key v : key <> "" -> returns (setError key v).
Proof.
  intros Hkey. apply String.eqb_neq in Hkey. unfold setError.
  apply returns_bind; [apply returns_read |]. intros state.
  unfold Utils.getDeepStatus, Utils.setDeepStatus. rewrite Hkey.
  apply returns_bind; [intros s; eexists _, s; reflexivity |].
  intros error. apply returns_when.
  apply returns_bind; [intros s; eexists _, s; reflexivity |].
  intros e. apply returns_modify.
Qed.

Lemma collect_errors_returns m : paths_given m -> returns (collect_errors m).
Proof.
  intros [Hkeys Hschema]. unfold collect_errors.
  apply returns_bind; [apply returns_modify |]. intros _.
  apply returns_bind.
  { destruct (validateHandler m) as [handler |]; [| apply returns_ret].
    apply returns_bind; [apply returns_read |]. intros state.
    apply returns_modify. }
  intros _. apply returns_bind.
  { apply returns_for_each. eapply Forall_impl; [| exact Hkeys].
    intros [key validator] Hkey. simpl in Hkey. unfold custom_validator_step.
    apply returns_bind; [apply returns_read |]. intros state.
    apply returns_when. destruct (validator _) as [newError |].
    - apply returns_when, setError_returns, Hkey.
    - apply returns_ret. }
  intros _. destruct (validationSchema m) as [validateSync |] eqn:E;
    [| apply returns_ret].
  apply returns_bind; [apply returns_read |]. intros state.
  apply returns_for_each. eapply Forall_impl; [| exact (Hschema _ _ eq_refl)].
  intros [path message] Hpath. simpl in Hpath.
  apply setError_returns, Hpath.
Qed.

(** [validate] returns whenever every path it is to set an error at is
    given. *)
Lemma validate_returns m allTouched state :
  paths_given m ->
  exists state', validate m allTouched state = (Returned tt, state').
Proof.
  intros H. rewrite validate_spec.
  destruct (collect_errors_returns m H state) as ([] & s1 & E).
  rewrite E. eexists. reflexivity.
Qed.

End ManipulatorFacts.

Module ManagerFacts.
Import FormManager Passes Worlds ManipulatorFacts.

Lemma get_spec w : get w = (Returned (stored w), fetched w).
Proof.
  unfold get, fetched, stored, bind, read.
  destruct (cache w) as [data |] eqn:E; reflexivity.
Qed.

Lemma set_spec state w : set state w = (Returned tt, written state w).
Proof. reflexivity. Qed.

Lemma me_fetched w : me (fetched w) = me w.
Proof. unfold fetched. destruct (cache w); reflexivity. Qed.

Lemma cache_fetched w : cache (fetched w) = Some (stored w).
Proof. unfold fetched, stored. destruct (cache w) eqn:E; [exact E | reflexivity]. Qed.

Lemma handler_calls_app l l' :
  handler_calls (l ++ l') = handler_calls l + handler_calls l'.
Proof.
  induction l as [| c l IH]; simpl; [reflexivity |].
  destruct c; simpl; rewrite IH; reflexivity.
Qed.

Lemma handler_calls_fetched w :
  handler_calls (log (fetched w)) = handler_calls (log w).
Proof.
  unfold fetched. destruct (cache w); [reflexivity |].
  simpl. rewrite handler_calls_app. simpl. lia.
Qed.

Lemma on_state_returned act state state' w :
  act state = (Returned tt, state') ->
  on_state act state w = (Returned state', w).
Proof. intros H. unfold on_state. rewrite H. reflexivity. Qed.

Lemma on_state_thrown act state state' e w :
  act state = (Thrown e, state') ->
  on_state act state w = (Thrown e, w).
Proof. intros H. unfold on_state. rewrite H. reflexivity. Qed.

Lemma submit_spec w :
  submit w
  = match FormManipulator.validate (manipulator (me w)) true (stored w) with
    | (Returned _, s1) =>
        let state := with_isSubmitted true s1 in
        if onSubmit (me w) && isValid state then
          let state := with_loading true state in
          (Returned (Some state),
           mkWorld (me w) (Some state)
             (log (fetched w) ++ [Wrote state; OnSubmit state]))
        else (Returned None, written state (fetched w))
    | (Thrown e, _) => (Thrown e, fetched w)
    end.
Proof.
  unfold submit. rewrite (bind_returned _ _ _ _ _ (get_spec w)).
  unfold this. unfold bind at 1. unfold bind at 1. unfold read, ret.
  cbv beta iota. rewrite !me_fetched. unfold bind at 1, on_state.
  destruct (FormManipulator.validate _ true _) as [[[] | e] s1]; [| reflexivity].
  simpl.
  destruct (onSubmit (me w) && isValid s1); simpl.
  - unfold bind, set, emit, modify, ret. simpl. rewrite me_fetched.
    rewrite <- app_assoc. reflexivity.
  - unfold bind, set, emit, modify, ret, written. simpl. reflexivity.
Qed.

Ltac after_get w :=
  rewrite (bind_returned _ _ _ _ _ (get_spec w)).

Ltac after_get_in w H :=
  rewrite (bind_returned _ _ _ _ _ (get_spec w)) in H.

Lemma manager_validate_spec w allTouched :
  validate allTouched w
  = match FormManipulator.validate (manipulator (me w)) (or_false allTouched)
            (stored w) with
    | (Returned _, s1) => (Returned tt, written s1 (fetched w))
    | (Thrown e, _) => (Thrown e, fetched w)
    end.
Proof.
  unfold validate. after_get w.
  unfold this. unfold bind at 1. unfold bind at 1. unfold read, ret.
  cbv beta iota. rewrite !me_fetched. unfold bind at 1, on_state.
  destruct (FormManipulator.validate _ _ _) as [[[] | e] s1]; reflexivity.
Qed.

Lemma reset_spec w getState :
  reset getState w
  = match FormManipulator.validate (manipulator (me w))
            (or_false (validateOnMount (me w)))
            (reset_state (manipulator (me w)) getState (stored w)) with
    | (Returned _, s1) =>
        let state := with_existsChanges false (with_isSubmitted false s1) in
        (Returned tt,
         mkWorld (sharing_touches (touches s1) (me w)) (Some state)
           (log (fetched w) ++ [Wrote state]))
    | (Thrown e, _) => (Thrown e, fetched w)
    end.
Proof.
  unfold reset. after_get w.
  unfold this. unfold bind at 1. unfold bind at 1. unfold read, ret.
  cbv beta iota. rewrite !me_fetched.
  unfold bind at 1. unfold on_state at 1, FormManipulator.reset at 1, modify at 1.
  unfold bind at 1, on_state, reset_state, FormManipulator.reset, modify.
  cbv beta iota. simpl snd.
  destruct (FormManipulator.validate _ _ _) as [[[] | e] s1]; [| reflexivity].
  unfold bind, modify, set, emit, with_me, sharing_touches. simpl.
  rewrite me_fetched. reflexivity.
Qed.

Lemma submit_settled_spec state r w :
  submit_settled state r w
  = (Returned tt,
     written
       (match r with
        | Resolved =>
            if resetOnSubmit (me w)
            then reset_state (manipulator (me w)) None (with_loading false state)
            else with_loading false state
        | Rejected _ => with_loading false state
        end) w).
Proof.
  destruct r; [| reflexivity].
  unfold submit_settled, this, bind, read, ret. simpl.
  destruct (resetOnSubmit (me w)); reflexivity.
Qed.

Lemma constructor_spec props cache0 :
  let w0 := mkWorld (fields_of props) cache0 [] in
  constructor props cache0
  = match FormManipulator.validate (manipulator (fields_of props))
            (or_false (p_validateOnMount props)) (stored w0) with
    | (Returned _, s1) => (Returned tt, written s1 (fetched w0))
    | (Thrown e, _) => (Thrown e, fetched w0)
    end.
Proof.
  intros w0. unfold constructor. fold w0. after_get w0.
  unfold this. unfold bind at 1. unfold bind at 1. unfold read, ret.
  cbv beta iota. rewrite manager_validate_spec.
  rewrite me_fetched. unfold w0 at 1 2. simpl me. unfold fields_of at 2.
  simpl validateOnMount.
  assert (E : stored (fetched w0) = stored w0).
  { unfold stored at 1. rewrite cache_fetched. reflexivity. }
  assert (F : fetched (fetched w0) = fetched w0).
  { unfold fetched at 1. rewrite cache_fetched. reflexivity. }
  rewrite E, F. reflexivity.
Qed.

End ManagerFacts.

(** ** Facts about the lodash operations *)

Module LodashFacts.
Import Lodash Paths.

Lemma lookup_assign_same k x f : lookup k (assign k x f) = Some x.
Proof.
  induction f as [| [k' y] f IH]; simpl.
  - rewrite String.eqb_refl. reflexivity.
  - destruct (String.eqb k k') eqn:E; simpl.
    + rewrite String.eqb_refl. reflexivity.
    + rewrite E. exact IH.
Qed.

Lemma lookup_assign_other k k' x f :
  k <> k' -> lookup k' (assign k x f) = lookup k' f.
Proof.
  intros Hne. induction f as [| [k0 y] f IH]; simpl.
  - apply not_eq_sym, String.eqb_neq in Hne. rewrite Hne. reflexivity.
  - destruct (String.eqb k k0) eqn:E; simpl.
    + apply String.eqb_eq in E. subst k0.
      apply not_eq_sym, String.eqb_neq in Hne. rewrite Hne. reflexivity.
    + destruct (String.eqb k' k0); [reflexivity | exact IH].
Qed.

Lemma baseGet_baseSet path : forall kd f v,
  writable path = true ->
  baseGet (VObj kd (baseSet f path v)) path = v.
Proof.
  induction path as [| k rest IH]; intros kd f v Hw; [discriminate |].
  simpl in Hw. apply andb_true_iff in Hw as [Hk Hrest].
  apply negb_true_iff in Hk.
  destruct rest as [| k2 rest'].
  - simpl. rewrite Hk. simpl. rewrite lookup_assign_same. reflexivity.
  - cbn [baseSet]. rewrite Hk.
    destruct (match lookup k f with
              | Some (VObj kd0 cf) => (kd0, cf)
              | _ => (if isIndex k2 then Arr else Plain, [])
              end) as [kd' cf].
    cbn [baseGet prop]. rewrite lookup_assign_same.
    apply IH. exact Hrest.
Qed.

(** [baseSet] adds no key but the first of the path. *)
Lemma lookup_baseSet_other p k rest f v :
  k <> p -> lookup p (baseSet f (k :: rest) v) = lookup p f.
Proof.
  intros Hne. cbn [baseSet]. destruct (guarded k); [reflexivity |].
  destruct rest as [| k2 rest'].
  - apply lookup_assign_other. exact Hne.
  - destruct (match lookup k f with
              | Some (VObj kd0 cf) => (kd0, cf)
              | _ => (if isIndex k2 then Arr else Plain, [])
              end) as [kd' cf].
    apply lookup_assign_other. exact Hne.
Qed.

(** *** The keys of a parsed path *)

Lemma length_append (a b : string) :
  String.length (a ++ b) = String.length a + String.length b.
Proof. induction a as [| c a IH]; simpl; [reflexivity | rewrite IH; reflexivity]. Qed.

Lemma span_length f s :
  String.length s
  = String.length (fst (span f s)) + String.length (snd (span f s)).
Proof.
  induction s as [| c r IH]; simpl; [reflexivity |].
  destruct (f c); [| reflexivity].
  destruct (span f r) as [a b]. simpl in *. rewrite IH. reflexivity.
Qed.

Lemma span_all f s : all_chars f (fst (span f s)) = true.
Proof.
  induction s as [| c r IH]; simpl; [reflexivity |].
  destruct (f c) eqn:E; [| reflexivity].
  destruct (span f r) as [a b]. simpl in *. rewrite E. exact IH.
Qed.

Lemma scan_quoted_length q s b t :
  scan_quoted q s = Some (b, t) ->
  String.length b + String.length t < String.length s.
Proof.
  remember (String.length s) as n eqn:En.
  revert s b t En. induction n as [n IH] using lt_wf_ind.
  intros s b t En. destruct s as [| c r]; [discriminate |].
  simpl. destruct (Ascii.eqb c q).
  - intros H. injection H as <- <-. subst n. simpl. lia.
  - destruct (Ascii.eqb c bslash).
    + destruct r as [| d r']; [discriminate |].
      destruct (is_line_end d); [discriminate |].
      destruct (scan_quoted q r') as [[b' t'] |] eqn:E; [| discriminate].
      intros H. injection H as <- <-.
      apply (IH (String.length r')) in E; [| subst n; simpl; lia | reflexivity].
      subst n. simpl. lia.
    + destruct (scan_quoted q r) as [[b' t'] |] eqn:E; [| discriminate].
      intros H. injection H as <- <-.
      apply (IH (String.length r)) in E; [| subst n; simpl; lia | reflexivity].
      subst n. simpl. lia.
Qed.

Lemma unescape_length s : String.length (unescape s) <= String.length s.
Proof.
  remember (String.length s) as n eqn:En.
  revert s En. induction n as [n IH] using lt_wf_ind.
  intros s En. destruct s as [| c r]; [simpl; lia |].
  simpl. destruct (Ascii.eqb c bslash).
  - destruct r as [| d r']; [simpl; lia |].
    destruct (Ascii.eqb d bslash).
    + simpl. specialize (IH (String.length r')).
      subst n. simpl in *. specialize (IH ltac:(lia) r' eq_refl). lia.
    + specialize (IH (String.length (String d r'))).
      subst n. simpl in *. specialize (IH ltac:(lia) (String d r') eq_refl).
      simpl in IH. lia.
  - simpl. specialize (IH (String.length r)).
    subst n. simpl in *. specialize (IH ltac:(lia) r eq_refl). lia.
Qed.

Lemma quoted_group_length s b t :
  quoted_group s = Some (b, t) ->
  String.length b + String.length t < String.length s.
Proof.
  unfold quoted_group. destruct s as [| q r]; [discriminate |].
  destruct (Ascii.eqb q dquote || Ascii.eqb q squote); [| discriminate].
  destruct (scan_quoted q r) as [[b' t'] |] eqn:E; [| discriminate].
  destruct t' as [| c t'']; [discriminate |].
  destruct (Ascii.eqb c rbr); [| discriminate].
  intros H. injection H as <- <-.
  apply scan_quoted_length in E. simpl in *. lia.
Qed.

Lemma number_group_length s key rest :
  number_group s = Some (key, rest) ->
  String.length key + String.length rest < String.length s.
Proof.
  unfold number_group.
  set (split := match s with
                | String c r => if Ascii.eqb c minus then ("-", r) else ("", s)
                | EmptyString => ("", s)
                end).
  assert (Hs : String.length s
               = String.length (fst split) + String.length (snd split)).
  { unfold split. destruct s as [| c r]; [reflexivity |].
    destruct (Ascii.eqb c minus); reflexivity. }
  destruct split as [sign s1]. simpl in Hs.
  pose proof (span_length is_digit s1) as H1.
  destruct (span is_digit s1) as [ds s2]. simpl in H1.
  destruct ds as [| d ds']; [discriminate |].
  destruct s2 as [| c r]; [discriminate |].
  destruct (Ascii.eqb c rbr).
  - intros H. injection H as <- <-. rewrite length_append. simpl in *. lia.
  - destruct (Ascii.eqb c dot); [| discriminate].
    pose proof (span_length is_digit r) as H2.
    destruct (span is_digit r) as [fs s3]. simpl in H2.
    destruct fs as [| d' fs']; [discriminate |].
    destruct s3 as [| c' r']; [discriminate |].
    destruct (Ascii.eqb c' rbr); [| discriminate].
    intros H. injection H as <- <-.
    rewrite !length_append. simpl in *. rewrite !length_append. simpl. lia.
Qed.

(** Every key of a scan is free of dots and brackets, or shorter than
    what was scanned. *)
Lemma scan_keys_key fuel : forall s k,
  In k (scan_keys fuel s) ->
  all_chars (fun c => negb (is_special c)) k = true
  \/ String.length k < String.length s.
Proof.
  induction fuel as [| n IH]; intros s k Hin; [contradiction |].
  destruct s as [| c r]; [contradiction |].
  cbn [scan_keys] in Hin.
  pose proof (span_all (fun c => negb (is_special c)) (String c r)) as Hall.
  pose proof (span_length (fun c => negb (is_special c)) (String c r)) as Hlen.
  destruct (span (fun c => negb (is_special c)) (String c r)) as [run rest].
  simpl fst in *. simpl snd in *.
  destruct run as [| c0 run'].
  - assert (Hrec : In k (scan_keys n r) ->
                   all_chars (fun c => negb (is_special c)) k = true
                   \/ String.length k < String.length (String c r)).
    { intros H. apply IH in H. simpl. destruct H; [left; assumption | right; lia]. }
    destruct (Ascii.eqb c lbr).
    + destruct (number_group r) as [[key rest'] |] eqn:En.
      * apply number_group_length in En. destruct Hin as [<- | Hin].
        -- right. simpl. lia.
        -- apply IH in Hin. destruct Hin; [left; assumption | right; simpl; lia].
      * destruct (quoted_group r) as [[b t] |] eqn:Eq.
        -- apply quoted_group_length in Eq.
           pose proof (unescape_length b) as Hu.
           destruct Hin as [<- | Hin].
           ++ right. simpl. lia.
           ++ apply IH in Hin.
              destruct Hin; [left; assumption | right; simpl; lia].
        -- destruct (empty_key_here (String c r)).
           ++ destruct Hin as [<- | Hin]; [left; reflexivity | auto].
           ++ auto.
    + destruct (empty_key_here (String c r)).
      * destruct Hin as [<- | Hin]; [left; reflexivity | auto].
      * auto.
  - destruct Hin as [<- | Hin]; [left; exact Hall |].
    apply IH in Hin. destruct Hin; [left; assumption | right].
    simpl in *. lia.
Qed.

Lemma deep_has_special p :
  reIsDeepProp p = true ->
  all_chars (fun c => negb (is_special c)) p = false.
Proof.
  induction p as [| c r IH]; [discriminate |].
  simpl. intros H. apply orb_true_iff in H as [H | H].
  - apply orb_true_iff in H as [H | H].
    + unfold is_special. rewrite H. reflexivity.
    + apply andb_true_iff in H as [H _].
      unfold is_special, is_bracket. rewrite H.
      rewrite orb_true_r. reflexivity.
  - rewrite (IH H). apply andb_false_r.
Qed.

(** No key of the parsed path of a deep path is the path itself. *)
Lemma stringToPath_key p k :
  reIsDeepProp p = true -> In k (stringToPath p) -> k <> p.
Proof.
  intros Hdeep Hin Heq. subst k. unfold stringToPath in Hin.
  apply in_app_or in Hin as [Hin | Hin].
  - destruct p as [| c r]; [discriminate |]. cbn [starts_with] in Hin.
    destruct (Ascii.eqb dot c); [| contradiction].
    destruct Hin as [H | []]. discriminate.
  - apply scan_keys_key in Hin. destruct Hin as [H | H]; [| lia].
    rewrite (deep_has_special _ Hdeep) in H. discriminate.
Qed.

(** Writing at a path does not change how the path is cast. *)
Lemma castPath_set p kd f v :
  writable (castPath p (VObj kd f)) = true ->
  castPath p (VObj kd (baseSet f (castPath p (VObj kd f)) v))
  = castPath p (VObj kd f).
Proof.
  unfold castPath, isKey. intros Hw.
  destruct (reIsPlainProp p) eqn:Eplain; [reflexivity |].
  destruct (reIsDeepProp p) eqn:Edeep; [| reflexivity].
  simpl orb in *. unfold has_key in *.
  destruct (lookup p f) as [x |] eqn:El.
  - simpl in Hw. rewrite andb_true_r in Hw. apply negb_true_iff in Hw.
    simpl. rewrite Hw. rewrite lookup_assign_same. reflexivity.
  - destruct (stringToPath p) as [| k rest] eqn:Ep; [discriminate |].
    rewrite lookup_baseSet_other, El; [reflexivity |].
    apply stringToPath_key; [exact Edeep |]. rewrite Ep. left. reflexivity.
Qed.

(** [get] after [set], for a path that can be written. *)
Lemma get_set o p v :
  isObject o = true ->
  writable (castPath p o) = true ->
  get (set o p v) p = v.
Proof.
  destruct o as [| | | | | kd f]; try discriminate. intros _ Hw.
  unfold set, get. rewrite castPath_set by exact Hw.
  destruct (castPath p (VObj kd f)) as [| k rest] eqn:Ep; [discriminate |].
  apply baseGet_baseSet. exact Hw.
Qed.

(** *** Deep equality *)

Section ValueInduction.

Variable P : value -> Prop.
Hypothesis P_undefined : P VUndefined.
Hypothesis P_null : P VNull.
Hypothesis P_bool : forall b, P (VBool b).
Hypothesis P_num : forall n, P (VNum n).
Hypothesis P_str : forall s, P (VStr s).
Hypothesis P_obj : forall k f, Forall (fun kv => P (snd kv)) f -> P (VObj k f).

Fixpoint value_rect' (v : value) : P v :=
  match v with
  | VUndefined => P_undefined
  | VNull => P_null
  | VBool b => P_bool b
  | VNum n => P_num n
  | VStr s => P_str s
  | VObj k f =>
      P_obj k f
        ((fix each (l : fields_t) : Forall (fun kv => P (snd kv)) l :=
            match l with
            | [] => Forall_nil _
            | kv :: l' => Forall_cons kv (value_rect' (snd kv)) (each l')
            end) f)
  end.

End ValueInduction.

Lemma well_formed_fields k f :
  well_formed (VObj k f) = true ->
  keys_distinct (map fst f) = true
  /\ Forall (fun kv => well_formed (snd kv) = true) f.
Proof.
  cbn [well_formed]. intros H. apply andb_true_iff in H as [Hk H].
  split; [exact Hk |]. clear Hk.
  induction f as [| [k0 x] f IH]; [constructor |].
  apply andb_true_iff in H as [Hx H]. constructor; [exact Hx | exact (IH H)].
Qed.

Lemma lookup_distinct f : forall k x,
  keys_distinct (map fst f) = true -> In (k, x) f -> lookup k f = Some x.
Proof.
  induction f as [| [k0 y] f IH]; intros k x Hd Hin; [contradiction |].
  simpl in *. apply andb_true_iff in Hd as [Hfresh Hd].
  destruct Hin as [H | Hin].
  - injection H as -> ->. rewrite String.eqb_refl. reflexivity.
  - destruct (String.eqb k k0) eqn:E.
    + apply String.eqb_eq in E. subst k0. exfalso.
      apply negb_true_iff in Hfresh.
      assert (existsb (String.eqb k) (map fst f) = true).
      { apply existsb_exists. exists k. split.
        - apply in_map_iff. exists (k, x). split; [reflexivity | exact Hin].
        - apply String.eqb_refl. }
      congruence.
    + apply IH; assumption.
Qed.

Lemma isEqual_refl v : well_formed v = true -> isEqual v v = true.
Proof.
  induction v as [| | b | n | s | k f IH] using value_rect'; intros Hwf;
    cbn [isEqual].
  - reflexivity.
  - reflexivity.
  - apply Bool.eqb_reflx.
  - apply Z.eqb_refl.
  - apply String.eqb_refl.
  - apply well_formed_fields in Hwf as [Hd Hwf].
    assert (Hk : kind_eqb k k = true) by (destruct k; reflexivity).
    rewrite Hk, Nat.eqb_refl. simpl andb.
    assert (Hsub : forall kv, In kv f -> In kv f) by auto.
    revert Hsub. generalize f at 1 4. intros l.
    induction l as [| [k0 x] l IHl]; intros Hsub; [reflexivity |].
    rewrite (lookup_distinct f k0 x Hd (Hsub _ (or_introl eq_refl))).
    rewrite Forall_forall in IH, Hwf.
    pose proof (IH (k0, x) (Hsub _ (or_introl eq_refl))
                  (Hwf (k0, x) (Hsub _ (or_introl eq_refl)))) as Hx.
    simpl in Hx. rewrite Hx. simpl andb.
    apply IHl. intros kv H. apply Hsub. right. exact H.
Qed.

End LodashFacts.

(** ** Facts about sequences of calls *)

Module HistoryFacts.
Import FormManager Passes Worlds History ManipulatorFacts ManagerFacts.

#[local] Instance same_manager_frame : Frame same_manager.
Proof.
  split; unfold same_manager; [reflexivity | congruence].
Qed.

#[local] Instance same_settings_frame : Frame same_settings.
Proof.
  split.
  - intros w. unfold same_settings. repeat split.
  - unfold same_settings. intros a b c.
    intros (?&?&?&H4&?&?&?&?&?&Ht) (?&?&?&?&?&?&?&?&?&Ht').
    repeat split; try congruence.
    intros Hoff. rewrite Ht' by (rewrite H4; exact Hoff). apply Ht, Hoff.
Qed.

Lemma same_manager_settings w w' : same_manager w w' -> same_settings w w'.
Proof.
  unfold same_manager, same_settings. intros ->. repeat split.
Qed.

Lemma preserves_get : preserves same_manager get.
Proof. intros w. rewrite get_spec. apply me_fetched. Qed.

Lemma preserves_set state : preserves same_manager (set state).
Proof. intros w. reflexivity. Qed.

Lemma preserves_emit c : preserves same_manager (emit c).
Proof. intros w. reflexivity. Qed.

Lemma preserves_this : preserves same_manager this.
Proof. intros w. reflexivity. Qed.

Lemma preserves_on_state act state : preserves same_manager (on_state act state).
Proof.
  intros w. unfold on_state. destruct (act state) as [[[] | e] s']; reflexivity.
Qed.

Ltac same_manager_steps :=
  repeat first
    [ apply preserves_get
    | apply preserves_set
    | apply preserves_emit
    | apply preserves_this
    | apply preserves_on_state
    | apply preserves_bind; [typeclasses eauto | |]
    | apply preserves_when; [typeclasses eauto |]
    | apply preserves_ret; typeclasses eauto
    | apply preserves_lift; typeclasses eauto
    | intro ].

Lemma via_manager {A : Type} (op : M world A) w :
  preserves same_manager op -> same_settings w (snd (op w)).
Proof. intros H. apply same_manager_settings, H. Qed.

Lemma perform_same_settings a w : same_settings w (snd (perform a w)).
Proof.
  destruct a; cbn [perform].
  - apply via_manager. unfold setValues. same_manager_steps.
  - apply via_manager. unfold setErrors. same_manager_steps.
  - apply via_manager. unfold setTouches. same_manager_steps.
  - apply via_manager. unfold setFieldValue. same_manager_steps.
    match goal with |- context [if ?b then _ else _] => destruct b end;
      same_manager_steps.
  - apply via_manager. unfold setFieldError. same_manager_steps.
  - apply via_manager. unfold setFieldTouched. same_manager_steps.
  - apply via_manager. unfold setIsValid. same_manager_steps.
  - apply via_manager. unfold setIsSubmitted. same_manager_steps.
  - apply via_manager. unfold setExistsChanges. same_manager_steps.
  - apply via_manager. unfold setLoading. same_manager_steps.
  - apply via_manager. unfold validate. same_manager_steps.
  - unfold addFieldValidator, this, bind, read, ret, when, modify, with_me.
    destruct (negb (registered key (customValidators (me w)))); simpl;
      unfold same_settings; repeat split.
  - unfold removeFieldValidator, modify, with_me. simpl.
    unfold same_settings; repeat split.
  - apply via_manager. unfold submit. same_manager_steps.
    match goal with |- context [if ?b then _ else _] => destruct b end;
      same_manager_steps.
  - apply via_manager. intros w0. rewrite submit_settled_spec. reflexivity.
  - rewrite reset_spec.
    pose proof (validate_frame (manipulator (me w))
                  (reset_state (manipulator (me w)) getState (stored w)))
      as (_ & Ht & _).
    destruct (or_false (validateOnMount (me w))) eqn:Hflag.
    + clear Ht.
      destruct (FormManipulator.validate _ true _) as [[[] | e] s1]; simpl.
      * unfold same_settings. simpl. rewrite Hflag.
        repeat split. discriminate.
      * apply same_manager_settings. unfold same_manager. apply me_fetched.
    + destruct (FormManipulator.validate _ false _) as [[[] | e] s1]; simpl.
      * unfold same_settings. simpl. repeat split.
        intros _. simpl in Ht. unfold initialTouches. simpl. rewrite Ht.
        unfold reset_state, FormManipulator.reset, modify. simpl.
        destruct getState as [[v | f] |]; [destruct (truthy v) | |];
          reflexivity.
      * apply same_manager_settings. unfold same_manager. apply me_fetched.
Qed.

Lemma run_same_settings history : forall w, same_settings w (run history w).
Proof.
  induction history as [| a history IH]; intros w; simpl.
  - apply frame_refl.
  - eapply frame_trans; [apply perform_same_settings | apply IH].
Qed.

Lemma constructor_me props cache0 :
  me (snd (constructor props cache0)) = fields_of props.
Proof.
  rewrite constructor_spec.
  destruct (FormManipulator.validate _ _ _) as [[[] | e] s1]; simpl;
    apply me_fetched.
Qed.

End HistoryFacts.

(** ** Writing [true] at the leaf paths of a tree *)

Module TouchFacts.
Import Lodash Paths LodashFacts.

Lemma diverge_sym p : forall q, diverge p q = diverge q p.
Proof.
  induction p as [| k p IH]; intros [| k' q]; simpl; try reflexivity.
  rewrite String.eqb_sym. destruct (String.eqb k' k); [apply IH | reflexivity].
Qed.

Lemma diverge_irrefl p : diverge p p = false.
Proof.
  induction p as [| k p IH]; simpl; [reflexivity |].
  rewrite String.eqb_refl. exact IH.
Qed.

Lemma baseGet_undefined p : baseGet VUndefined p = VUndefined.
Proof. induction p as [| k p IH]; simpl; [reflexivity | exact IH]. Qed.

Lemma baseGet_not_object x k p :
  isObject x = false -> baseGet x (k :: p) = VUndefined.
Proof.
  destruct x; simpl; try discriminate; intros _; apply baseGet_undefined.
Qed.

Lemma baseGet_empty kd k p : baseGet (VObj kd []) (k :: p) = VUndefined.
Proof. simpl. apply baseGet_undefined. Qed.

Lemma baseGet_cons o k p : baseGet o (k :: p) = baseGet (prop o k) p.
Proof. reflexivity. Qed.

Lemma baseGet_nowhere x p :
  isObject x = false -> p <> [] -> baseGet x p = VUndefined.
Proof.
  intros Hx Hp. destruct p as [| k p]; [contradiction |].
  apply baseGet_not_object. exact Hx.
Qed.

(** A write leaves alone what is read along a path that parts ways with
    the path written. *)
Lemma baseGet_baseSet_diverge q : forall p kd f v,
  diverge p q = true ->
  baseGet (VObj kd (baseSet f q v)) p = baseGet (VObj kd f) p.
Proof.
  induction q as [| k' q' IH]; intros p kd f v Hd.
  - destruct p; discriminate.
  - destruct p as [| k p']; [discriminate |]. simpl in Hd.
    cbn [baseSet]. destruct (guarded k'); [reflexivity |].
    rewrite !baseGet_cons.
    destruct (String.eqb k k') eqn:E.
    + apply String.eqb_eq in E. subst k'.
      destruct q' as [| k2 q''].
      { destruct p'; discriminate. }
      assert (Hp' : p' <> []) by (intros ->; discriminate).
      assert (Hfresh : forall kd0,
                baseGet (VObj kd0 (baseSet [] (k2 :: q'') v)) p' = VUndefined).
      { intros kd0. rewrite (IH p' kd0 [] v Hd).
        destruct p' as [| k3 p'']; [contradiction | apply baseGet_empty]. }
      cbn [prop].
      destruct (lookup k f) as [x |] eqn:El.
      * destruct x as [| | b | n | s | kd0 cf];
          rewrite lookup_assign_same;
          try (rewrite Hfresh; symmetry; apply baseGet_nowhere;
               [reflexivity | exact Hp']).
        apply IH. exact Hd.
      * rewrite lookup_assign_same, Hfresh. symmetry.
        apply baseGet_nowhere; [reflexivity | exact Hp'].
    + apply String.eqb_neq in E.
      assert (Hne : k' <> k) by (intros ->; apply E; reflexivity).
      cbn [prop].
      destruct q' as [| k2 q''].
      * rewrite (lookup_assign_other _ _ _ _ Hne). reflexivity.
      * destruct (match lookup k' f with
                  | Some (VObj kd0 cf) => (kd0, cf)
                  | _ => (if isIndex k2 then Arr else Plain, [])
                  end) as [kd' cf].
        rewrite (lookup_assign_other _ _ _ _ Hne). reflexivity.
Qed.

(** *** Paths made of plain field names *)

Lemma append_assoc (a b c : string) : (a ++ b) ++ c = a ++ (b ++ c).
Proof. induction a as [| x a IH]; simpl; [reflexivity | rewrite IH; reflexivity]. Qed.

Lemma append_empty_r (a : string) : a ++ "" = a.
Proof. induction a as [| x a IH]; simpl; [reflexivity | rewrite IH; reflexivity]. Qed.

Lemma all_chars_append f a b :
  all_chars f (a ++ b) = all_chars f a && all_chars f b.
Proof.
  induction a as [| x a IH]; simpl; [reflexivity |].
  rewrite IH. apply andb_assoc.
Qed.

Lemma span_append f a t :
  all_chars f a = true ->
  match t with String c _ => f c = false | EmptyString => True end ->
  span f (a ++ t) = (a, t).
Proof.
  intros Ha Ht. induction a as [| x a IH]; simpl.
  - destruct t as [| c r]; [reflexivity |]. simpl. rewrite Ht. reflexivity.
  - simpl in Ha. apply andb_true_iff in Ha as [Hx Ha].
    rewrite Hx, (IH Ha). reflexivity.
Qed.

Lemma suffix_head ks :
  match suffix ks with
  | String c _ => negb (is_special c) = false
  | EmptyString => True
  end.
Proof. destruct ks as [| k ks]; simpl; [exact I | reflexivity]. Qed.

Lemma simple_key_parts k :
  simple_key k = true ->
  k <> "" /\ all_chars (fun c => negb (is_special c)) k = true
  /\ guarded k = false.
Proof.
  unfold simple_key. intros H.
  apply andb_true_iff in H as [H Hg]. apply andb_true_iff in H as [Hn Ha].
  apply negb_true_iff in Hn, Hg. apply String.eqb_neq in Hn.
  repeat split; assumption.
Qed.

(** The scan of a dotted path gives back its keys. *)
Lemma scan_keys_dotted ks : forall k fuel,
  simple_key k = true ->
  Forall (fun k => simple_key k = true) ks ->
  String.length (k ++ suffix ks) <= fuel ->
  scan_keys fuel (k ++ suffix ks) = k :: ks.
Proof.
  induction ks as [| k2 ks IH]; intros k fuel Hk Hks Hfuel.
  - apply simple_key_parts in Hk as (Hne & Hall & _).
    simpl suffix in *. rewrite append_empty_r in *.
    destruct k as [| c r]; [contradiction |].
    destruct fuel as [| n]; [simpl in Hfuel; lia |].
    cbn [scan_keys].
    pose proof (span_append (fun c => negb (is_special c)) (String c r) ""
                  Hall I) as Hs.
    rewrite append_empty_r in Hs. rewrite Hs.
    destruct n; reflexivity.
  - inversion Hks as [| ? ? Hk2 Hks']. subst.
    pose proof Hk as Hk'.
    apply simple_key_parts in Hk' as (Hne & Hall & _).
    destruct k as [| c r]; [contradiction |].
    destruct fuel as [| n]; [simpl in Hfuel; lia |].
    cbn [scan_keys].
    change (String c r ++ suffix (k2 :: ks))
      with (String c (r ++ suffix (k2 :: ks))).
    pose proof (span_append (fun c => negb (is_special c)) (String c r)
                  (suffix (k2 :: ks)) Hall (suffix_head (k2 :: ks))) as Hs.
    change (String c r ++ suffix (k2 :: ks))
      with (String c (r ++ suffix (k2 :: ks))) in Hs.
    rewrite Hs. f_equal.
    (* the dot *)
    simpl suffix.
    change ("." ++ k2 ++ suffix ks) with (String "."%char (k2 ++ suffix ks)).
    assert (Hlen : Datatypes.S (String.length (k2 ++ suffix ks)) <= n).
    { simpl in Hfuel. rewrite length_append in Hfuel. simpl in Hfuel.
      rewrite !length_append in *. lia. }
    destruct n as [| n']; [lia |].
    cbn [scan_keys].
    pose proof Hk2 as Hk2'.
    apply simple_key_parts in Hk2' as (Hne2 & Hall2 & _).
    destruct k2 as [| c2 r2]; [contradiction |].
    simpl in Hall2. apply andb_true_iff in Hall2 as [Hc2 _].
    simpl span. cbv iota beta.
    assert (Hlbr : Ascii.eqb "."%char lbr = false) by reflexivity.
    rewrite Hlbr.
    assert (Hempty : empty_key_here
                       (String "."%char (String c2 r2 ++ suffix ks)) = false).
    { unfold empty_key_here. cbn [separator].
      assert (Ascii.eqb "."%char dot = true) as -> by reflexivity.
      change (String c2 r2 ++ suffix ks) with (String c2 (r2 ++ suffix ks)).
      cbn [separator].
      unfold is_special, is_bracket in Hc2.
      apply negb_true_iff in Hc2.
      apply orb_false_iff in Hc2 as [Hd Hb].
      apply orb_false_iff in Hb as [Hl _].
      rewrite Hd, Hl. reflexivity. }
    rewrite Hempty.
    apply IH; [exact Hk2 | exact Hks' | lia].
Qed.

Lemma not_deep k :
  all_chars (fun c => negb (is_special c)) k = true -> reIsDeepProp k = false.
Proof.
  induction k as [| c r IH]; [reflexivity |].
  simpl. intros H. apply andb_true_iff in H as [Hc Hr].
  unfold is_special, is_bracket in Hc. apply negb_true_iff in Hc.
  apply orb_false_iff in Hc as [Hd Hb]. apply orb_false_iff in Hb as [Hl _].
  rewrite Hd, Hl, (IH Hr). reflexivity.
Qed.

Lemma deep_with_dot a b : reIsDeepProp (a ++ String "."%char b) = true.
Proof.
  induction a as [| c r IH]; [reflexivity |].
  simpl. rewrite IH. apply orb_true_r.
Qed.

Lemma not_plain_with_dot a b : reIsPlainProp (a ++ String "."%char b) = false.
Proof.
  unfold reIsPlainProp. rewrite all_chars_append. simpl. apply andb_false_r.
Qed.

Lemma special_with_dot a b :
  all_chars (fun c => negb (is_special c)) (a ++ String "."%char b) = false.
Proof. rewrite all_chars_append. simpl. apply andb_false_r. Qed.

Lemma guarded_plain s :
  guarded s = true -> all_chars (fun c => negb (is_special c)) s = true.
Proof.
  unfold guarded. intros H.
  apply orb_true_iff in H as [H | H]; [apply orb_true_iff in H as [H | H] |];
    apply String.eqb_eq in H; subst s; reflexivity.
Qed.

Lemma stringToPath_dotted ks :
  simple_path ks -> stringToPath (dotted_path ks) = ks.
Proof.
  intros [Hne Hall]. destruct ks as [| k ks]; [contradiction |].
  inversion Hall as [| ? ? Hk Hks]. subst.
  unfold stringToPath, dotted_path.
  rewrite (scan_keys_dotted ks k _ Hk Hks (le_n _)).
  apply simple_key_parts in Hk as (Hk0 & Hka & _).
  destruct k as [| c r]; [contradiction |].
  simpl in Hka. apply andb_true_iff in Hka as [Hc _].
  unfold is_special in Hc. apply negb_true_iff in Hc.
  apply orb_false_iff in Hc as [Hd _].
  change (String c r ++ suffix ks) with (String c (r ++ suffix ks)).
  cbn [starts_with]. rewrite Ascii.eqb_sym in Hd. rewrite Hd. reflexivity.
Qed.

(** The path a dotted path is cast to: its keys, unless the object has
    the whole dotted path as an own key. *)
Lemma castPath_dotted ks t :
  simple_path ks ->
  castPath (dotted_path ks) t
  = match ks with
    | [k] => [k]
    | _ => if has_key t (dotted_path ks) then [dotted_path ks] else ks
    end.
Proof.
  intros Hs. pose proof Hs as [Hne Hall].
  destruct ks as [| k [| k2 ks]]; [contradiction | |].
  - inversion Hall as [| ? ? Hk _]. subst.
    apply simple_key_parts in Hk as (_ & Hka & _).
    unfold castPath, isKey, dotted_path. simpl suffix.
    rewrite append_empty_r, (not_deep _ Hka). simpl.
    rewrite orb_true_r. reflexivity.
  - unfold castPath, isKey.
    assert (E : dotted_path (k :: k2 :: ks)
                = k ++ String "."%char (k2 ++ suffix ks)) by reflexivity.
    rewrite E at 1 2. rewrite not_plain_with_dot, deep_with_dot. simpl orb.
    rewrite <- E.
    destruct (has_key t (dotted_path (k :: k2 :: ks))); [reflexivity |].
    apply stringToPath_dotted. exact Hs.
Qed.

Lemma dotted_path_inj ks ks' :
  simple_path ks -> simple_path ks' ->
  dotted_path ks = dotted_path ks' -> ks = ks'.
Proof.
  intros Hs Hs' E. rewrite <- (stringToPath_dotted ks Hs).
  rewrite <- (stringToPath_dotted ks' Hs'). rewrite E. reflexivity.
Qed.

Lemma dotted_not_simple k k2 ks k' :
  all_chars (fun c => negb (is_special c)) k' = true ->
  dotted_path (k :: k2 :: ks) <> k'.
Proof.
  intros Hk' E. subst k'.
  change (dotted_path (k :: k2 :: ks))
    with (k ++ String "."%char (k2 ++ suffix ks)) in Hk'.
  rewrite special_with_dot in Hk'. discriminate.
Qed.

Lemma simple_head k ks :
  simple_path (k :: ks) ->
  all_chars (fun c => negb (is_special c)) k = true /\ guarded k = false.
Proof.
  intros [_ Hall]. inversion Hall as [| ? ? Hk _]. subst.
  apply simple_key_parts in Hk as (_ & Ha & Hg). split; assumption.
Qed.

Lemma writable_simple ks : simple_path ks -> writable ks = true.
Proof.
  intros [Hne Hall]. destruct ks as [| k ks]; [contradiction |].
  unfold writable. apply forallb_forall. intros x Hin.
  rewrite Forall_forall in Hall. apply Hall in Hin.
  apply simple_key_parts in Hin as (_ & _ & Hg). rewrite Hg. reflexivity.
Qed.

Lemma writable_cast ks t :
  simple_path ks -> writable (castPath (dotted_path ks) t) = true.
Proof.
  intros Hs. rewrite (castPath_dotted ks t Hs).
  destruct ks as [| k [| k2 ks]].
  - destruct Hs as [Hne _]. contradiction.
  - apply writable_simple. exact Hs.
  - destruct (has_key t _); [| apply writable_simple; exact Hs].
    cbn [writable forallb]. rewrite andb_true_r.
    destruct (guarded (dotted_path (k :: k2 :: ks))) eqn:G; [| reflexivity].
    apply guarded_plain in G. exfalso.
    exact (dotted_not_simple k k2 ks _ G eq_refl).
Qed.

(** The first key of the cast of a dotted path: the first key of the
    path, or the whole dotted path. *)
Lemma cast_head ks t k rest :
  simple_path ks ->
  castPath (dotted_path ks) t = k :: rest ->
  (exists ks', ks = k :: ks')
  \/ (k = dotted_path ks /\ rest = [] /\ exists k1 k2 ks', ks = k1 :: k2 :: ks').
Proof.
  intros Hs. rewrite (castPath_dotted ks t Hs).
  destruct ks as [| k1 [| k2 ks']].
  - destruct Hs as [Hne _]. contradiction.
  - intros H. injection H as <- <-. left. eexists. reflexivity.
  - destruct (has_key t _).
    + intros H. injection H as <- <-. right. repeat split. eauto.
    + intros H. injection H as <- <-. left. eexists. reflexivity.
Qed.

(** The casts of two dotted paths part ways where the paths do. *)
Lemma cast_diverge ks ks' t t' :
  simple_path ks -> simple_path ks' ->
  diverge ks ks' = true ->
  diverge (castPath (dotted_path ks) t) (castPath (dotted_path ks') t') = true.
Proof.
  intros Hs Hs' Hd.
  assert (Hne : ks <> ks').
  { intros ->. rewrite diverge_irrefl in Hd. discriminate. }
  rewrite (castPath_dotted ks t Hs), (castPath_dotted ks' t' Hs').
  assert (Hlit : forall a b, a <> b -> diverge [a] [b] = true).
  { intros a b Hab. cbn [diverge]. apply String.eqb_neq in Hab.
    rewrite Hab. reflexivity. }
  assert (Hdot : dotted_path ks <> dotted_path ks').
  { intros E. apply Hne. apply dotted_path_inj; assumption. }
  destruct ks as [| k [| k2 ks0]]; [destruct Hs as [F _]; contradiction | |];
    destruct ks' as [| k' [| k2' ks0']];
    try (destruct Hs' as [F _]; contradiction).
  - exact Hd.
  - destruct (has_key t' _); [| exact Hd].
    apply Hlit. intros E. symmetry in E. revert E.
    apply dotted_not_simple. apply (simple_head k []), Hs.
  - destruct (has_key t _); [| exact Hd].
    cbn [diverge]. destruct (String.eqb (dotted_path (k :: k2 :: ks0)) k') eqn:E;
      [| reflexivity].
    apply String.eqb_eq in E. exfalso. revert E.
    apply dotted_not_simple. apply (simple_head k' []), Hs'.
  - destruct (has_key t _), (has_key t' _).
    + apply Hlit. exact Hdot.
    + cbn [diverge]. destruct (String.eqb (dotted_path (k :: k2 :: ks0)) k') eqn:E;
        [| reflexivity].
      apply String.eqb_eq in E. exfalso. revert E.
      apply dotted_not_simple. apply (simple_head k' (k2' :: ks0')), Hs'.
    + cbn [diverge]. destruct (String.eqb k (dotted_path (k' :: k2' :: ks0'))) eqn:E;
        [| reflexivity].
      apply String.eqb_eq in E. exfalso. symmetry in E. revert E.
      apply dotted_not_simple. apply (simple_head k (k2 :: ks0)), Hs.
    + exact Hd.
Qed.

(** Writing at a dotted path does not change how another one is cast. *)
Lemma castPath_set_other ks ks' kd f v :
  simple_path ks -> simple_path ks' ->
  diverge ks ks' = true ->
  castPath (dotted_path ks) (set (VObj kd f) (dotted_path ks') v)
  = castPath (dotted_path ks) (VObj kd f).
Proof.
  intros Hs Hs' Hd.
  rewrite !(castPath_dotted ks _ Hs).
  destruct ks as [| k [| k2 ks0]]; [discriminate | reflexivity |].
  assert (Hkey : has_key (set (VObj kd f) (dotted_path ks') v)
                   (dotted_path (k :: k2 :: ks0))
                 = has_key (VObj kd f) (dotted_path (k :: k2 :: ks0))).
  { unfold set, has_key.
    destruct (castPath (dotted_path ks') (VObj kd f)) as [| k' rest] eqn:Ec;
      [reflexivity |].
    rewrite lookup_baseSet_other; [reflexivity |].
    destruct (cast_head ks' _ k' rest Hs' Ec) as [[ks1 ->] | (-> & _ & _)].
    - intros E. symmetry in E. revert E. apply dotted_not_simple.
      apply (simple_head k' ks1), Hs'.
    - intros E. apply dotted_path_inj in E; [| exact Hs' | exact Hs].
      subst ks'. rewrite diverge_irrefl in Hd. discriminate. }
  rewrite Hkey. reflexivity.
Qed.

(** *** The leaves of a tree *)

Lemma leaves_fields kd f : leaves (VObj kd f) = fields_leaves f.
Proof.
  cbn [leaves]. unfold fields_leaves.
  induction f as [| [k x] f IH]; [reflexivity |].
  cbn [flat_map fst snd]. rewrite IH. reflexivity.
Qed.

Lemma simple_tree_fields kd f :
  simple_tree (VObj kd f) = true ->
  keys_distinct (map fst f) = true
  /\ Forall (fun kx => simple_key (fst kx) = true
                       /\ simple_tree (snd kx) = true) f.
Proof.
  cbn [simple_tree]. intros H. apply andb_true_iff in H as [Hd H].
  split; [exact Hd |]. clear Hd.
  induction f as [| [k x] f IH]; [constructor |].
  apply andb_true_iff in H as [H Hf]. apply andb_true_iff in H as [Hk Hx].
  constructor; [split; assumption | exact (IH Hf)].
Qed.

Lemma deepPairs_leaves v : forall p,
  Utils.deepPairs (Some p) v
  = map (fun kl => (p ++ suffix (fst kl), snd kl)) (leaves v).
Proof.
  induction v as [| | b | n | s | kd f IH] using value_rect'; intros p;
    try (simpl; rewrite append_empty_r; reflexivity).
  rewrite leaves_fields. cbn [Utils.deepPairs].
  induction f as [| [k x] f IHf]; [reflexivity |].
  inversion IH as [| ? ? Hx Hf]. subst.
  cbn [fields_leaves flat_map fst snd]. rewrite map_app, (IHf Hf).
  f_equal. simpl in Hx. rewrite Hx. rewrite map_map.
  apply map_ext. intros [ks leaf]. unfold under, Utils.join. simpl.
  rewrite !append_assoc. reflexivity.
Qed.

Lemma objectDeepPairs_leaves kd f :
  Utils.objectDeepPairs (VObj kd f)
  = map (fun kl => (dotted_path (fst kl), snd kl)) (leaves (VObj kd f)).
Proof.
  rewrite leaves_fields. unfold Utils.objectDeepPairs.
  cbn [Utils.deepPairs].
  induction f as [| [k x] f IH]; [reflexivity |].
  cbn [fields_leaves flat_map fst snd]. rewrite map_app, IH. f_equal.
  unfold Utils.join. rewrite deepPairs_leaves, map_map.
  apply map_ext. intros [ks leaf]. reflexivity.
Qed.

Lemma leaves_simple v :
  simple_tree v = true ->
  Forall (fun kl => Forall (fun k => simple_key k = true) (fst kl)) (leaves v).
Proof.
  induction v as [| | b | n | s | kd f IH] using value_rect'; intros Hs;
    try (repeat constructor).
  apply simple_tree_fields in Hs as [_ Hs]. rewrite leaves_fields.
  induction f as [| [k x] f IHf]; [constructor |].
  inversion IH as [| ? ? Hx Hf]. inversion Hs as [| ? ? [Hk Hsx] Hsf]. subst.
  cbn [fields_leaves flat_map fst snd]. apply Forall_app. split.
  - simpl in *. specialize (Hx Hsx). rewrite Forall_forall in *.
    intros kl Hin. apply in_map_iff in Hin as (kl0 & <- & Hin0).
    simpl. constructor; [exact Hk | apply Hx, Hin0].
  - apply IHf; assumption.
Qed.

Lemma fields_leaves_head f kl :
  In kl (fields_leaves f) ->
  exists k ks, fst kl = k :: ks /\ In k (map fst f).
Proof.
  unfold fields_leaves. intros Hin.
  apply in_flat_map in Hin as ([k x] & Hf & Hin).
  apply in_map_iff in Hin as (kl0 & <- & _).
  exists k, (fst kl0). split; [reflexivity |].
  apply in_map_iff. exists (k, x). split; [reflexivity | exact Hf].
Qed.

Lemma leaves_simple_path kd f kl :
  simple_tree (VObj kd f) = true ->
  In kl (leaves (VObj kd f)) -> simple_path (fst kl).
Proof.
  intros Hs Hin. split.
  - rewrite leaves_fields in Hin.
    apply fields_leaves_head in Hin as (k & ks & -> & _). discriminate.
  - pose proof (leaves_simple _ Hs) as H. rewrite Forall_forall in H.
    apply H, Hin.
Qed.

Lemma ForallOrdPairs_app {A : Type} (R : A -> A -> Prop) l1 l2 :
  ForallOrdPairs R l1 -> ForallOrdPairs R l2 ->
  (forall a b, In a l1 -> In b l2 -> R a b) ->
  ForallOrdPairs R (l1 ++ l2).
Proof.
  intros H1 H2 H12. induction H1 as [| a l1 Ha H1 IH]; [exact H2 |].
  simpl. constructor.
  - apply Forall_app. split; [exact Ha |].
    apply Forall_forall. intros b Hb. apply H12; [left; reflexivity | exact Hb].
  - apply IH. intros x y Hx Hy. apply H12; [right; exact Hx | exact Hy].
Qed.

Lemma ForallOrdPairs_map {A B : Type} (R : A -> A -> Prop)
  (R' : B -> B -> Prop) (g : A -> B) l :
  (forall a b, R a b -> R' (g a) (g b)) ->
  ForallOrdPairs R l -> ForallOrdPairs R' (map g l).
Proof.
  intros Hg H. induction H as [| a l Ha H IH]; simpl; constructor.
  - apply Forall_forall. intros b Hb.
    apply in_map_iff in Hb as (b0 & <- & Hb0).
    rewrite Forall_forall in Ha. apply Hg, Ha, Hb0.
  - exact IH.
Qed.

(** The key paths of two leaves of a tree part ways. *)
Lemma leaves_apart v :
  simple_tree v = true -> ForallOrdPairs apart (leaves v).
Proof.
  induction v as [| | b | n | s | kd f IH] using value_rect'; intros Hs;
    try (repeat constructor).
  apply simple_tree_fields in Hs as [Hd Hs]. rewrite leaves_fields.
  induction f as [| [k x] f IHf]; [constructor |].
  inversion IH as [| ? ? Hx Hf]. inversion Hs as [| ? ? [Hk Hsx] Hsf]. subst.
  simpl in Hd. apply andb_true_iff in Hd as [Hfresh Hd].
  cbn [fields_leaves flat_map fst snd]. apply ForallOrdPairs_app.
  - apply (ForallOrdPairs_map apart); [| apply Hx; exact Hsx].
    intros a b. unfold apart, under. simpl. rewrite String.eqb_refl. trivial.
  - apply IHf; assumption.
  - intros a b Ha Hb.
    apply in_map_iff in Ha as (a0 & <- & _).
    apply fields_leaves_head in Hb as (k' & ks' & Eb & Hk').
    unfold apart, under. simpl. rewrite Eb.
    destruct (String.eqb k k') eqn:E; [| reflexivity].
    apply String.eqb_eq in E. subst k'. apply negb_true_iff in Hfresh.
    assert (existsb (String.eqb k) (map fst f) = true).
    { apply existsb_exists. exists k. split; [exact Hk' | apply String.eqb_refl]. }
    congruence.
Qed.

(** *** Writing at every leaf path *)

Lemma set_object o p v : isObject o = true -> isObject (set o p v) = true.
Proof. destruct o; try discriminate. reflexivity. Qed.

Lemma touch_paths_object paths : forall t,
  isObject t = true -> isObject (touch_paths paths t) = true.
Proof.
  induction paths as [| ks paths IH]; intros t Ht; [exact Ht |].
  apply IH. apply set_object. exact Ht.
Qed.

Lemma touch_paths_cast paths : forall t ks,
  isObject t = true -> simple_path ks ->
  Forall simple_path paths ->
  Forall (fun ks' => diverge ks ks' = true) paths ->
  castPath (dotted_path ks) (touch_paths paths t)
  = castPath (dotted_path ks) t.
Proof.
  induction paths as [| ks' paths IH]; intros t ks Ht Hs Hall Hd;
    [reflexivity |].
  inversion Hall as [| ? ? Hs' Hall']. inversion Hd as [| ? ? Hd' Hdr]. subst.
  cbn [touch_paths fold_left]. fold (touch_paths paths).
  rewrite IH; [| apply set_object; exact Ht | assumption..].
  destruct t as [| | | | | kd f]; try discriminate.
  apply castPath_set_other; assumption.
Qed.

Lemma baseGet_set_diverge t p v path :
  isObject t = true ->
  diverge path (castPath p t) = true ->
  baseGet (set t p v) path = baseGet t path.
Proof.
  destruct t as [| | | | | kd f]; try discriminate. intros _ Hd.
  apply baseGet_baseSet_diverge. exact Hd.
Qed.

Lemma touch_paths_other paths : forall t path,
  isObject t = true ->
  (forall ks t', In ks paths ->
                 diverge path (castPath (dotted_path ks) t') = true) ->
  baseGet (touch_paths paths t) path = baseGet t path.
Proof.
  induction paths as [| ks paths IH]; intros t path Ht Hd; [reflexivity |].
  cbn [touch_paths fold_left]. fold (touch_paths paths).
  rewrite IH.
  - apply baseGet_set_diverge; [exact Ht |]. apply Hd. left. reflexivity.
  - apply set_object. exact Ht.
  - intros ks' t' Hin. apply Hd. right. exact Hin.
Qed.

Lemma get_cast t p :
  isObject t = true -> castPath p t <> [] ->
  get t p = baseGet t (castPath p t).
Proof.
  intros Ht Hp. destruct t; try discriminate. unfold get.
  destruct (castPath p _); [contradiction | reflexivity].
Qed.

Lemma writable_not_nil path : writable path = true -> path <> [].
Proof. intros H ->. discriminate. Qed.

(** Once [true] is written at the dotted path of each of [paths], key
    paths that part ways pairwise, it is read at each of them. *)
Lemma touch_paths_marked paths : forall t ks,
  isObject t = true ->
  Forall simple_path paths ->
  ForallOrdPairs (fun a b => diverge a b = true) paths ->
  In ks paths ->
  get (touch_paths paths t) (dotted_path ks) = VBool true.
Proof.
  induction paths as [| ks0 paths IH]; intros t ks Ht Hall Hfop Hin;
    [contradiction |].
  inversion Hall as [| ? ? Hs0 Hall']. inversion Hfop as [| ? ? Hd0 Hfop'].
  subst. cbn [touch_paths fold_left]. fold (touch_paths paths).
  destruct Hin as [-> | Hin].
  - set (t1 := set t (dotted_path ks) (VBool true)).
    assert (Ht1 : isObject t1 = true) by (apply set_object; exact Ht).
    assert (Hc1 : castPath (dotted_path ks) t1 = castPath (dotted_path ks) t).
    { unfold t1. destruct t as [| | | | | kd f]; try discriminate.
      apply castPath_set. apply writable_cast. exact Hs0. }
    pose proof (writable_cast ks t Hs0) as Hw.
    rewrite get_cast;
      [| apply touch_paths_object; exact Ht1
       | rewrite touch_paths_cast by assumption; rewrite Hc1;
         apply writable_not_nil; exact Hw].
    rewrite touch_paths_cast by assumption. rewrite Hc1.
    rewrite touch_paths_other.
    + unfold t1. destruct t as [| | | | | kd f]; try discriminate.
      apply baseGet_baseSet. exact Hw.
    + exact Ht1.
    + intros ks' t' Hin'. apply cast_diverge; [exact Hs0 | |].
      * rewrite Forall_forall in Hall'. apply Hall', Hin'.
      * rewrite Forall_forall in Hd0. apply Hd0, Hin'.
  - apply IH; [apply set_object; exact Ht | assumption..].
Qed.

Lemma touch_all_leaves kd f t :
  Passes.touch_all (Utils.objectDeepPairs (VObj kd f)) t
  = touch_paths (map fst (leaves (VObj kd f))) t.
Proof.
  rewrite objectDeepPairs_leaves.
  unfold Passes.touch_all, touch_paths.
  generalize (leaves (VObj kd f)). intros l. revert t.
  induction l as [| kl l IH]; intros t; [reflexivity |].
  simpl. apply IH.
Qed.

(** Writing [true] at the path of every leaf of a tree of plain field
    names: it is read at each of these paths, and a key path that parts
    ways with all of them reads what it read. *)
Lemma touch_all_marks e t :
  isObject t = true ->
  simple_tree e = true ->
  let t' := Passes.touch_all (Utils.objectDeepPairs e) t in
  (forall path leaf,
     In (path, leaf) (Utils.objectDeepPairs e) ->
     path <> "" /\ get t' path = VBool true)
  /\ (forall keys,
        (forall path leaf t0,
           In (path, leaf) (Utils.objectDeepPairs e) ->
           diverge keys (castPath path t0) = true) ->
        baseGet t' keys = baseGet t keys).
Proof.
  intros Ht He.
  destruct e as [| | b | n | s | kd f];
    try (split; [intros path leaf [] | intros; reflexivity]).
  cbv zeta. rewrite touch_all_leaves.
  assert (Hall : Forall simple_path (map fst (leaves (VObj kd f)))).
  { apply Forall_forall. intros ks Hin.
    apply in_map_iff in Hin as (kl & <- & Hin).
    apply (leaves_simple_path kd f kl He Hin). }
  split.
  - intros path leaf Hin. rewrite objectDeepPairs_leaves in Hin.
    apply in_map_iff in Hin as (kl & E & Hin). injection E as <- _.
    split.
    { pose proof (leaves_simple_path kd f kl He Hin) as [Hne Hks].
      destruct (fst kl) as [| k ks]; [contradiction |].
      inversion Hks as [| ? ? Hk _]. subst.
      apply simple_key_parts in Hk as (Hk & _).
      destruct k as [| c r]; [contradiction | discriminate]. }
    apply touch_paths_marked; [exact Ht | exact Hall | |].
    + apply (ForallOrdPairs_map apart); [| apply leaves_apart; exact He].
      intros a b H. exact H.
    + apply in_map. exact Hin.
  - intros keys Hkeys. apply touch_paths_other; [exact Ht |].
    intros ks t0 Hin. apply in_map_iff in Hin as ([ks0 leaf] & <- & Hin).
    apply (Hkeys _ leaf). rewrite objectDeepPairs_leaves.
    apply in_map_iff. exists (ks0, leaf). split; [reflexivity | exact Hin].
Qed.

End TouchFacts.

(** * The properties of the specification *)

Import FormManager Passes Worlds Examples ManipulatorFacts ManagerFacts.

(** ** Validation leaves the rest of the state alone *)

(** C9.  For every state, [validate(state, false)] recomputes only
    [errors] and [isValid]: [values], [touches], [loading],
    [existsChanges] and [isSubmitted] are as they were, whether the pass
    returns or throws.  The validator functions are pure here, so they do
    not mutate the state. *)
Theorem validate_recomputes_only_errors_and_isValid
  (m : FormManipulator.t) (state : ApolloFormState) :
  let state' := snd (FormManipulator.validate m false state) in
  values state' = values state
  /\ touches state' = touches state
  /\ loading state' = loading state
  /\ existsChanges state' = existsChanges state
  /\ isSubmitted state' = isSubmitted state.
Proof. exact (validate_frame m state). Qed.

(** ** Construction *)

(** C10.  Constructing a manager initialises the stored record and then
    always runs one validation pass, with [validateOnMount] as its
    [allTouched] argument: the flag does not disable the pass.  Whether
    the pass returns, the errors, [isValid] and every other field but
    [touches] are the same with the flag on and off, and with the flag
    off the touched tree is left as it was.  [reset] validates in the same
    way, with the flag as [allTouched]. *)
Theorem constructor_always_validates
  (props : FormManagerParams) (cache0 : option ApolloFormState) :
  let m := fields_of props in
  let w0 := mkWorld m cache0 [] in
  let pass allTouched :=
    FormManipulator.validate (manipulator m) allTouched (stored w0) in
  constructor props cache0
  = match pass (or_false (p_validateOnMount props)) with
    | (Returned _, s1) => (Returned tt, written s1 (fetched w0))
    | (Thrown e, _) => (Thrown e, fetched w0)
    end
  /\ fst (pass true) = fst (pass false)
  /\ errors (snd (pass true)) = errors (snd (pass false))
  /\ isValid (snd (pass true)) = isValid (snd (pass false))
  /\ values (snd (pass true)) = values (snd (pass false))
  /\ touches (snd (pass false)) = touches (stored w0)
  /\ (forall w getState,
        reset getState w
        = match FormManipulator.validate (manipulator (me w))
                  (or_false (validateOnMount (me w)))
                  (reset_state (manipulator (me w)) getState (stored w)) with
          | (Returned _, s1) =>
              let state := with_existsChanges false (with_isSubmitted false s1) in
              (Returned tt,
               mkWorld (sharing_touches (touches s1) (me w)) (Some state)
                 (log (fetched w) ++ [Wrote state]))
          | (Thrown e, _) => (Thrown e, fetched w)
          end).
Proof.
  intros m w0 pass. split; [apply constructor_spec |].
  destruct (validate_allTouched (manipulator m) (stored w0))
    as (Hfst & (Hv & He & _) & Hi).
  destruct (validate_frame (manipulator m) (stored w0)) as (_ & Ht & _).
  unfold pass. repeat split; try assumption.
  intros w getState. apply reset_spec.
Qed.

(** ** Submission *)

(** C7 fails where the validation pass throws: with no [onSubmit]
    handler and a field validator at the empty path that reports an
    error, [submit] throws out of the pass, writes nothing, and
    [isSubmitted] stays false. *)
Lemma submit_throws_without_handler :
  let w := Notions.pathless_world in
  onSubmit (me w) = false
  /\ cache w <> None
  /\ isSubmitted (cached w) = false
  /\ submit w = (Thrown InvalidArgument, w)
  /\ log (snd (submit w)) = log w
  /\ isSubmitted (cached (snd (submit w))) = false.
Proof. repeat split. discriminate. Qed.

(** C7, as the code has it.  Where the validation pass of [submit]
    returns, and it yields [isValid = false] or no [onSubmit] handler is
    configured, [submit] writes back the validated state with
    [isSubmitted = true], the [loading] it read, and does not call the
    handler. *)
Theorem submit_without_handler_call (w : world) (s1 : ApolloFormState) :
  FormManipulator.validate (manipulator (me w)) true (stored w)
  = (Returned tt, s1) ->
  isValid s1 = false \/ onSubmit (me w) = false ->
  let state := with_isSubmitted true s1 in
  submit w = (Returned None, written state (fetched w))
  /\ isSubmitted state = true
  /\ loading state = loading (stored w)
  /\ handler_calls (log (written state (fetched w))) = handler_calls (log w).
Proof.
  intros Hpass Hcase state. split; [| split; [reflexivity | split]].
  - rewrite submit_spec, Hpass. simpl.
    destruct Hcase as [-> | ->]; [rewrite andb_false_r | ]; reflexivity.
  - pose proof (validate_allTouched (manipulator (me w)) (stored w))
      as (_ & (_ & _ & Hl & _) & _).
    pose proof (validate_frame (manipulator (me w)) (stored w))
      as (_ & _ & Hl' & _).
    rewrite Hpass in Hl. simpl in Hl. simpl. congruence.
  - simpl. rewrite handler_calls_app, handler_calls_fetched. simpl. lia.
Qed.

Lemma submit_without_handler_call_witness :
  let state := with_isSubmitted true rejecting_validated in
  submit rejecting_world
  = (Returned None, written state (fetched rejecting_world))
  /\ isSubmitted state = true
  /\ loading state = loading (stored rejecting_world)
  /\ handler_calls (log (written state (fetched rejecting_world)))
     = handler_calls (log rejecting_world).
Proof.
  apply (submit_without_handler_call rejecting_world rejecting_validated).
  - vm_compute. reflexivity.
  - left. reflexivity.
Defined.

(** C8.  When the promise of the [onSubmit] handler that [submit] called
    is rejected, the callback returns normally, whatever the world has
    become: it writes the state [submit] closed over with
    [loading = false], the other fields as they were, and nothing of the
    rejection reason. *)
Theorem submit_failure_swallowed
  (w w1 w2 : world) (state : ApolloFormState) (reason : value) :
  submit w = (Returned (Some state), w1) ->
  let settled := with_loading false state in
  submit_settled state (Rejected reason) w2 = (Returned tt, written settled w2)
  /\ (forall reason', submit_settled state (Rejected reason') w2
                      = submit_settled state (Rejected reason) w2)
  /\ loading settled = false
  /\ isSubmitted settled = true
  /\ isValid settled = true
  /\ values settled = values state
  /\ errors settled = errors state
  /\ touches settled = touches state
  /\ existsChanges settled = existsChanges state.
Proof.
  intros Hsubmit settled.
  rewrite submit_spec in Hsubmit.
  destruct (FormManipulator.validate _ true _) as [[[] | e] s1];
    [| discriminate].
  simpl in Hsubmit.
  destruct (onSubmit (me w) && isValid s1) eqn:E; [| discriminate].
  injection Hsubmit as <- _.
  apply andb_true_iff in E as [_ E].
  repeat split; try reflexivity. exact E.
Qed.

Lemma submit_failure_swallowed_witness :
  let settled := with_loading false accepting_submitted in
  submit_settled accepting_submitted (Rejected (VStr "network")) accepting_world
  = (Returned tt, written settled accepting_world)
  /\ (forall reason',
        submit_settled accepting_submitted (Rejected reason') accepting_world
        = submit_settled accepting_submitted (Rejected (VStr "network"))
            accepting_world)
  /\ loading settled = false
  /\ isSubmitted settled = true
  /\ isValid settled = true
  /\ values settled = values accepting_submitted
  /\ errors settled = errors accepting_submitted
  /\ touches settled = touches accepting_submitted
  /\ existsChanges settled = existsChanges accepting_submitted.
Proof.
  apply (submit_failure_swallowed accepting_world
           (snd (submit accepting_world)) accepting_world
           accepting_submitted (VStr "network")).
  vm_compute. reflexivity.
Defined.

(** ** Reading a value after writing it *)

(** C5, as the code has it.  For every record, every value and every
    path that [_.set] writes (the path parses to at least one key, and
    none of its keys is [__proto__], [constructor] or [prototype], which
    [_.set] refuses) and whose keys name own data (no key is a name every
    object inherits, and a key into an array is an index, not its
    [length]), reading the path after [setValue] wrote the value there
    returns a value that is deep-equal to it. *)
Theorem getValue_after_setValue
  (state : ApolloFormState) (key : string) (newValue : value) :
  isObject (values state) = true ->
  well_formed newValue = true ->
  Paths.writable (Lodash.castPath key (values state)) = true ->
  Notions.write_path (values state) (Lodash.castPath key (values state)) = true ->
  let state' := snd (FormManipulator.setValue key newValue state) in
  Lodash.isEqual (FormManipulator.getValue state' key) newValue = true.
Proof.
  intros Hrecord Hwf Hpath _.
  unfold FormManipulator.setValue, FormManipulator.getValue, bind, read,
    when, modify, ret.
  destruct (Lodash.isEqual (Lodash.get (values state) key) newValue) eqn:E;
    simpl.
  - destruct (existsChanges state); simpl; exact E.
  - assert (H : Lodash.get (Lodash.set (values state) key newValue) key
                = newValue)
      by (apply LodashFacts.get_set; assumption).
    destruct (existsChanges state); simpl; rewrite H;
      apply LodashFacts.isEqual_refl; exact Hwf.
Qed.

Lemma getValue_after_setValue_witness :
  let state := Notions.user_state in
  let newValue := VObj Plain [("first", VStr "Ada"); ("last", VStr "L")] in
  let state' := snd (FormManipulator.setValue "user.name[0]" newValue state) in
  Lodash.isEqual (FormManipulator.getValue state' "user.name[0]") newValue
  = true.
Proof.
  apply (getValue_after_setValue Notions.user_state "user.name[0]"
           (VObj Plain [("first", VStr "Ada"); ("last", VStr "L")]));
    reflexivity.
Defined.

(** C5 fails at a key [_.set] refuses: the write is dropped, and the
    path reads what it read before.  It fails too at a path that parses
    to no key at all. *)
Lemma setValue_at_refused_key :
  let state := defaultState (VObj Plain [("name", VStr "Ada")]) (VObj Plain [])
                 (VObj Plain []) in
  let state' := snd (FormManipulator.setValue "__proto__" (VNum 5) state) in
  let state'' := snd (FormManipulator.setValue "[.]" (VNum 5) state) in
  values state' = values state
  /\ Lodash.isEqual (FormManipulator.getValue state' "__proto__") (VNum 5)
     = false
  /\ Lodash.stringToPath "[.]" = []
  /\ values state'' = values state
  /\ Lodash.isEqual (FormManipulator.getValue state'' "[.]") (VNum 5) = false.
Proof. repeat split. Qed.

(** ** The [isValid] flag *)

Lemma no_truthy_leaf_iff e :
  no_truthy_leaf e = true
  <-> (forall path leaf,
         In (path, leaf) (Utils.objectDeepPairs e) -> truthy leaf = false).
Proof.
  unfold no_truthy_leaf. rewrite negb_true_iff. split.
  - intros H path leaf Hin. destruct (truthy leaf) eqn:E; [| reflexivity].
    assert (existsb (fun el => truthy (snd el)) (Utils.objectDeepPairs e)
            = true).
    { apply existsb_exists. exists (path, leaf). split; assumption. }
    congruence.
  - intros H.
    destruct (existsb (fun el => truthy (snd el)) (Utils.objectDeepPairs e))
      eqn:E; [| reflexivity].
    apply existsb_exists in E as [[path leaf] [Hin Ht]].
    simpl in Ht. rewrite (H path leaf Hin) in Ht. discriminate.
Qed.

(** A string is truthy when it is not empty. *)
Lemma truthy_string s : truthy (VStr s) = false <-> s = "".
Proof.
  simpl. rewrite negb_false_iff. apply String.eqb_eq.
Qed.

Lemma setTouched_isValid key b :
  preserves (fun s s' => isValid s' = isValid s)
    (FormManipulator.setTouched key b).
Proof.
  assert (F : Frame (fun s s' : ApolloFormState => isValid s' = isValid s)).
  { split; [reflexivity | congruence]. }
  unfold FormManipulator.setTouched.
  apply preserves_bind; [exact F | apply preserves_read; exact F |].
  intros state. apply preserves_bind; [exact F | apply preserves_lift; exact F |].
  intros touched. apply preserves_when; [exact F |].
  apply preserves_bind; [exact F | apply preserves_lift; exact F |].
  intros t. apply preserves_modify. reflexivity.
Qed.

Lemma setFieldValue_written key newValue w state w' :
  setFieldValue key newValue w = (Returned state, w') ->
  cache w' = Some state /\ isValid state = no_truthy_leaf (errors state).
Proof.
  unfold setFieldValue. after_get w.
  unfold this. unfold bind at 1. unfold bind at 1. unfold read, ret.
  cbv beta iota. rewrite !me_fetched.
  unfold bind at 1, lift.
  destruct (Utils.getDeepStatus (touches (stored w)) key) as [touched | e];
    [| discriminate].
  unfold bind at 1.
  set (first := if negb (truthy touched)
                then on_state (FormManipulator.setTouched key true) (stored w)
                else (fun s : world => (Returned (stored w), s))).
  assert (Hfirst : forall o w1, first (fetched w) = (o, w1) -> w1 = fetched w).
  { unfold first, on_state. intros o w1.
    destruct (negb (truthy touched)).
    - destruct (FormManipulator.setTouched key true (stored w))
        as [[[] | e] s']; intros H; injection H as _ <-; reflexivity.
    - intros H; injection H as _ <-; reflexivity. }
  specialize (Hfirst (fst (first (fetched w))) (snd (first (fetched w)))
              (surjective_pairing _)).
  destruct (first (fetched w)) as [o1 w1]. simpl in Hfirst. subst w1.
  destruct o1 as [state1 | e]; [| discriminate].
  unfold bind at 1, on_state at 1.
  destruct (FormManipulator.setValue key newValue state1) as [[[] | e] state2];
    [| discriminate].
  unfold bind at 1, on_state at 1.
  destruct (FormManipulator.validate (manipulator (me w)) false state2)
    as [[[] | e] state3] eqn:E3; [| discriminate].
  apply validate_isValid in E3.
  unfold bind, set, modify, emit, when, ret. simpl.
  destruct (onChange (me w)); simpl; intros H; injection H as <- <-;
    simpl; split; (reflexivity || exact E3).
Qed.

(** The calls that validate before they write ([setFieldValue],
    [validate], [reset], and [submit] up to its return) write a state whose
    [isValid] is true if and only if no leaf of its errors is truthy, which
    for a string is to be non-empty.  [setValues], [setErrors],
    [setTouches], [setFieldTouched], [setIsSubmitted], [setExistsChanges]
    and [setLoading] write back the [isValid] they read, whatever the
    errors they write. *)
Lemma isValid_of_written_state (a : History.action) (w w' : world) :
  History.perform a w = (Returned tt, w') ->
  (History.revalidates a = true ->
   exists state,
     cache w' = Some state
     /\ (isValid state = true
         <-> forall path leaf,
               In (path, leaf) (Utils.objectDeepPairs (errors state)) ->
               truthy leaf = false))
  /\ (History.copies_isValid a = true ->
      exists state,
        cache w' = Some state /\ isValid state = isValid (stored w)).
Proof.
  intros Hrun. split; intros Hkind.
  - assert (H : exists state,
               cache w' = Some state
               /\ isValid state = no_truthy_leaf (errors state)).
    { destruct a; try discriminate; cbn [History.perform] in Hrun.
      - unfold bind in Hrun.
        destruct (setFieldValue key newValue w) as [[state | e] w1] eqn:E;
          [| discriminate].
        injection Hrun as <-. exists state.
        apply (setFieldValue_written _ _ _ _ _ E).
      - rewrite manager_validate_spec in Hrun.
        destruct (FormManipulator.validate _ _ _) as [[[] | e] s1] eqn:E;
          [| discriminate].
        injection Hrun as <-. exists s1. split; [reflexivity |].
        apply (validate_isValid _ _ _ _ E).
      - unfold bind in Hrun. rewrite submit_spec in Hrun.
        destruct (FormManipulator.validate _ _ _) as [[[] | e] s1] eqn:E;
          [| discriminate].
        apply validate_isValid in E. simpl in Hrun.
        destruct (onSubmit (me w) && isValid s1); simpl in Hrun;
          injection Hrun as <-; eexists; (split; [reflexivity | exact E]).
      - rewrite reset_spec in Hrun.
        destruct (FormManipulator.validate _ _ _) as [[[] | e] s1] eqn:E;
          [| discriminate].
        apply validate_isValid in E.
        injection Hrun as <-. eexists. split; [reflexivity | exact E]. }
    destruct H as (state & Hc & Hv). exists state. split; [exact Hc |].
    rewrite Hv. apply no_truthy_leaf_iff.
  - destruct a; try discriminate; cbn [History.perform] in Hrun.
    + unfold setValues in Hrun. after_get_in w Hrun.
      unfold bind, set, modify, emit, this, read, ret, when in Hrun.
      simpl in Hrun. destruct (onChange (me (fetched w))); simpl in Hrun;
        injection Hrun as <-; eexists; split; reflexivity.
    + unfold setErrors in Hrun. after_get_in w Hrun.
      injection Hrun as <-. eexists; split; reflexivity.
    + unfold setTouches in Hrun. after_get_in w Hrun.
      injection Hrun as <-. eexists; split; reflexivity.
    + unfold setFieldTouched in Hrun. after_get_in w Hrun.
      unfold bind at 1, on_state in Hrun.
      pose proof (setTouched_isValid key flag (stored w)) as Hv.
      destruct (FormManipulator.setTouched key flag (stored w))
        as [[[] | e] s1]; [| discriminate].
      injection Hrun as <-. eexists; split; [reflexivity | exact Hv].
    + unfold setIsSubmitted in Hrun. after_get_in w Hrun.
      injection Hrun as <-. eexists; split; reflexivity.
    + unfold setExistsChanges in Hrun. after_get_in w Hrun.
      injection Hrun as <-. eexists; split; reflexivity.
    + unfold setLoading in Hrun. after_get_in w Hrun.
      injection Hrun as <-. eexists; split; reflexivity.
Qed.

(** C1 at [setFieldError] and [setErrors], on a valid form with no error.
    [setFieldError] computes the flag without the negation [validate]
    has: setting an error writes [isValid = true], and clearing it again
    writes [isValid = false].  [setErrors] does not compute the flag at
    all: it writes the errors it is given next to the [isValid = true] it
    read.  In the three states the flag is the opposite of what the
    specification asks. *)
Lemma setFieldError_inverts_isValid :
  let w1 := snd (setFieldError "age" (VStr "too young") accepting_world) in
  let w2 := snd (setFieldError "age" VUndefined w1) in
  let w3 := snd (setErrors (VObj Plain [("age", VStr "too young")])
                   accepting_world) in
  (errors (cached w1) = VObj Plain [("age", VStr "too young")]
   /\ isValid (cached w1) = true
   /\ ~ no_error_leaf (errors (cached w1)))
  /\ (errors (cached w2) = VObj Plain [("age", VUndefined)]
      /\ isValid (cached w2) = false
      /\ no_error_leaf (errors (cached w2)))
  /\ (errors (cached w3) = VObj Plain [("age", VStr "too young")]
      /\ isValid (cached w3) = true
      /\ ~ no_error_leaf (errors (cached w3))).
Proof.
  assert (Hbad : ~ no_error_leaf (VObj Plain [("age", VStr "too young")])).
  { intros H. specialize (H "age" "too young" (or_introl eq_refl)).
    discriminate. }
  repeat split; try exact Hbad.
  intros path message [H | []]. discriminate.
Qed.

(** ** Reset *)

Lemma validate_keeps m allTouched s :
  let s' := snd (FormManipulator.validate m allTouched s) in
  values s' = values s /\ loading s' = loading s
  /\ existsChanges s' = existsChanges s /\ isSubmitted s' = isSubmitted s.
Proof.
  destruct (validate_frame m s) as (Hv & _ & Hl & He & Hs).
  destruct allTouched; [| repeat split; assumption].
  destruct (validate_allTouched m s) as (_ & (Hv' & _ & Hl' & He' & Hs') & _).
  simpl. repeat split; congruence.
Qed.

(** C2, as the code has it.  After construction and any sequence of
    calls, [reset()] with no override, when its validation pass returns,
    writes a state with the construction-time initial values,
    [loading = false], [isSubmitted = false] and [existsChanges = false];
    its errors and [isValid] are those the validation pass computes from
    the restored record, not the initial errors; with [validateOnMount]
    off its touched tree is the construction-time initial one. *)
Theorem reset_restores_initial_values
  (props : FormManagerParams) (cache0 : option ApolloFormState)
  (history : list History.action) (s1 : ApolloFormState) :
  let w := History.run history (snd (constructor props cache0)) in
  let restored :=
    defaultState (p_initialState props) (or_empty (p_initialErrors props))
      (initialTouches (me w)) in
  FormManipulator.validate (manipulator (me w))
    (or_false (p_validateOnMount props)) restored
  = (Returned tt, s1) ->
  let state := with_existsChanges false (with_isSubmitted false s1) in
  reset None w
  = (Returned tt,
     mkWorld (sharing_touches (touches s1) (me w)) (Some state)
       (log (fetched w) ++ [Wrote state]))
  /\ values state = p_initialState props
  /\ loading state = false
  /\ isSubmitted state = false
  /\ existsChanges state = false
  /\ errors state = errors s1
  /\ isValid state = no_truthy_leaf (errors s1)
  /\ (or_false (p_validateOnMount props) = false ->
      touches state = or_empty (p_initialTouches props)).
Proof.
  intros w restored Hpass state.
  pose proof (HistoryFacts.run_same_settings history
                (snd (constructor props cache0))) as Hsame.
  fold w in Hsame. unfold History.same_settings in Hsame.
  cbv zeta in Hsame. rewrite HistoryFacts.constructor_me in Hsame.
  destruct Hsame as (_ & _ & _ & Hflag & _ & _ & _ & Hinit & Herr & Htouch).
  simpl in Hflag, Hinit, Herr, Htouch.
  assert (Hrestored :
            reset_state (manipulator (me w)) None (stored w) = restored).
  { unfold reset_state, FormManipulator.reset, modify, restored. simpl.
    unfold initialErrors in Herr. rewrite Hinit, Herr. reflexivity. }
  pose proof (validate_keeps (manipulator (me w))
                (or_false (p_validateOnMount props)) restored) as Hkeep.
  rewrite Hpass in Hkeep. simpl in Hkeep.
  destruct Hkeep as (Hv & Hl & _ & _).
  split; [| repeat split].
  - rewrite reset_spec, Hrestored, Hflag, Hpass. reflexivity.
  - simpl. exact Hv.
  - simpl. exact Hl.
  - apply (validate_isValid _ _ _ _ Hpass).
  - intros Hoff. simpl. rewrite Hoff in Hpass.
    pose proof (validate_frame (manipulator (me w)) restored) as (_ & Ht & _).
    rewrite Hpass in Ht. simpl in Ht. rewrite Ht. simpl. apply Htouch, Hoff.
Qed.

Lemma reset_restores_initial_values_witness :
  let w := stale_world in
  let state := with_existsChanges false (with_isSubmitted false stale_validated) in
  reset None w
  = (Returned tt,
     mkWorld (sharing_touches (touches stale_validated) (me w)) (Some state)
       (log (fetched w) ++ [Wrote state]))
  /\ values state = p_initialState stale_props
  /\ loading state = false
  /\ isSubmitted state = false
  /\ existsChanges state = false
  /\ errors state = errors stale_validated
  /\ isValid state = no_truthy_leaf (errors stale_validated)
  /\ (or_false (p_validateOnMount stale_props) = false ->
      touches state = or_empty (p_initialTouches stale_props)).
Proof.
  apply (reset_restores_initial_values stale_props None
           [History.SetFieldValue "age" (VNum 30)] stale_validated).
  vm_compute. reflexivity.
Defined.

(** C2 fails for the errors: [reset()] validates what it has restored,
    and the initial errors are gone. *)
Lemma reset_drops_initial_errors :
  let w' := snd (reset None stale_world) in
  fst (reset None stale_world) = Returned tt
  /\ initialErrors (me stale_world)
     = VObj Plain [("age", VStr "from the server")]
  /\ errors (cached w') = VObj Plain []
  /\ errors (cached w') <> initialErrors (me stale_world).
Proof. repeat split. discriminate. Qed.

(** ** The per-field validators *)

(** C3 at a nested path.  The validate function has set an error at
    [address.city]; the validator registered at [address.city] is run all
    the same and its message replaces that error, because the errors tree
    has no own key [address.city].  The validator at the top-level key
    [name] is skipped. *)
Lemma validator_at_nested_path_not_skipped :
  let state' :=
    snd (FormManipulator.validate nested_form false
           (defaultState (VObj Plain []) (VObj Plain []) (VObj Plain []))) in
  has_key (VObj Plain [("address", VObj Plain [("city", VStr "from validate")]);
                       ("name", VStr "from validate")]) "address.city"
  = false
  /\ FormManipulator.getError state' "address.city"
     = Returned (VStr "from the field validator")
  /\ FormManipulator.getError state' "name" = Returned (VStr "from validate").
Proof. repeat split. Qed.

(** ** The paths of the schema violations *)

(** C4 at a path with two indices.  Only the first ['['] and the first
    [']'] are replaced, and the error is set at the path that results. *)
Lemma normalize_path_first_bracket_only :
  FormManipulator.normalize_path "items[0].tags[1]" = "items.0.tags[1]"
  /\ normalize_path_as_specified "items[0].tags[1]" = "items.0.tags.1"
  /\ FormManipulator.schema_step ("items[0].tags[1]", "required")
     = FormManipulator.setError "items.0.tags[1]" (VStr "required").
Proof. repeat split. Qed.

(** ** Touching on validation *)

(** C6 fails at a leaf that holds no message: it is marked touched like
    the others. *)
Lemma empty_error_leaf_is_touched :
  let state' := snd (FormManipulator.validate lenient_form true untouched_state) in
  FormManipulator.getError state' "email" = Returned (VStr "")
  /\ FormManipulator.getTouched untouched_state "email" = Returned VUndefined
  /\ FormManipulator.getTouched state' "email" = Returned (VBool true)
  /\ isValid state' = true.
Proof. repeat split. Qed.

(** With [allTouched], [validate] computes the errors and [isValid] it
    computes without, and writes [true] in the touched tree at the path of
    every leaf of the errors, in their order. *)
Lemma validate_touch_all
  (m : FormManipulator.t) (state state' : ApolloFormState) :
  FormManipulator.validate m true state = (Returned tt, state') ->
  errors state' = errors (snd (FormManipulator.validate m false state))
  /\ isValid state' = isValid (snd (FormManipulator.validate m false state))
  /\ touches state'
     = touch_all (Utils.objectDeepPairs (errors state')) (touches state).
Proof.
  intros Hpass.
  destruct (validate_allTouched m state) as (_ & (_ & He & _) & Hi).
  rewrite Hpass in He, Hi. simpl in He, Hi.
  split; [exact He | split; [exact Hi |]].
  rewrite ManipulatorFacts.validate_spec in Hpass.
  pose proof (collect_errors_frame m state) as (_ & Ht & _).
  destruct (collect_errors m state) as [[[] | e] s1]; [| discriminate].
  injection Hpass as <-. simpl in *. rewrite Ht. reflexivity.
Qed.

(** Why C6 is for a tree of plain field names: a key that holds a dot
    is a leaf path that runs through another leaf.  Here the validate
    function reports a message under the flat key [a.b] and one under
    [a]; both are leaves, the loop writes [true] at [a.b] and then at
    [a], and [a.b] does not read touched afterwards. *)
Lemma colliding_leaf_not_touched :
  let state' :=
    snd (FormManipulator.validate Notions.colliding_form true
           Notions.empty_state) in
  Utils.objectDeepPairs (errors state')
  = [("a.b", VStr "first"); ("a", VStr "second")]
  /\ Paths.simple_tree (errors state') = false
  /\ FormManipulator.getTouched state' "a" = Returned (VBool true)
  /\ FormManipulator.getTouched state' "a.b" = Returned VUndefined.
Proof. repeat split. Qed.

(** C6, as the code has it.  When [validate] is called with [allTouched],
    the recomputed errors are a tree of plain field names, and every
    write of the loop is at keys that name own data of the touched tree
    (no key is a name every object inherits, and a key into an array is
    an index, not its [length]), exactly the paths of the leaves of the errors are marked
    touched, whatever the leaf holds (a message, the empty string or
    [undefined]): each of them reads [true] afterwards, and a key path
    that stays on own data and parts ways with all of them reads what it
    read before.
    The errors and [isValid] are those [validate] computes without
    [allTouched]. *)
Theorem validate_touches_every_leaf
  (m : FormManipulator.t) (state state' : ApolloFormState) :
  FormManipulator.validate m true state = (Returned tt, state') ->
  isObject (touches state) = true ->
  Paths.simple_tree (errors state') = true ->
  Notions.data_writes (Utils.objectDeepPairs (errors state')) (touches state)
  = true ->
  errors state' = errors (snd (FormManipulator.validate m false state))
  /\ isValid state' = isValid (snd (FormManipulator.validate m false state))
  /\ (forall path leaf,
        In (path, leaf) (Utils.objectDeepPairs (errors state')) ->
        FormManipulator.getTouched state' path = Returned (VBool true))
  /\ (forall keys,
        Notions.data_path (touches state) keys = true ->
        Notions.data_path (touches state') keys = true ->
        (forall path leaf t0,
           In (path, leaf) (Utils.objectDeepPairs (errors state')) ->
           Paths.diverge keys (Lodash.castPath path t0) = true) ->
        Lodash.baseGet (touches state') keys
        = Lodash.baseGet (touches state) keys).
Proof.
  intros Hpass Hobj Hsimple _.
  destruct (validate_touch_all m state state' Hpass) as (He & Hi & Ht).
  destruct (TouchFacts.touch_all_marks (errors state') (touches state)
              Hobj Hsimple) as [Hmarked Hother].
  rewrite <- Ht in Hmarked, Hother.
  split; [exact He | split; [exact Hi | split]].
  - intros path leaf Hin. destruct (Hmarked path leaf Hin) as [Hne Hget].
    unfold FormManipulator.getTouched, Utils.getDeepStatus.
    apply String.eqb_neq in Hne. rewrite Hne, Hget. reflexivity.
  - intros keys _ _ Hapart. apply Hother, Hapart.
Qed.

Lemma validate_touches_every_leaf_witness :
  let state' :=
    snd (FormManipulator.validate lenient_form true untouched_state) in
  errors state'
  = errors (snd (FormManipulator.validate lenient_form false untouched_state))
  /\ isValid state'
     = isValid (snd (FormManipulator.validate lenient_form false untouched_state))
  /\ (forall path leaf,
        In (path, leaf) (Utils.objectDeepPairs (errors state')) ->
        FormManipulator.getTouched state' path = Returned (VBool true))
  /\ (forall keys,
        Notions.data_path (touches untouched_state) keys = true ->
        Notions.data_path (touches state') keys = true ->
        (forall path leaf t0,
           In (path, leaf) (Utils.objectDeepPairs (errors state')) ->
           Paths.diverge keys (Lodash.castPath path t0) = true) ->
        Lodash.baseGet (touches state') keys
        = Lodash.baseGet (touches untouched_state) keys).
Proof.
  apply (validate_touches_every_leaf lenient_form untouched_state);
    reflexivity.
Defined.


(** * Further properties of the code *)

(** ** Writing twice, and reading what was written *)

Module SetFacts.
Import Lodash Paths LodashFacts.

Lemma assign_twice k x y f : assign k x (assign k y f) = assign k x f.
Proof.
  induction f as [| [k' z] f IH]; simpl.
  - rewrite String.eqb_refl. reflexivity.
  - destruct (String.eqb k k') eqn:E; simpl.
    + rewrite String.eqb_refl. reflexivity.
    + rewrite E, IH. reflexivity.
Qed.

Lemma baseSet_twice path : forall f v,
  baseSet (baseSet f path v) path v = baseSet f path v.
Proof.
  induction path as [| k rest IH]; intros f v; [reflexivity |].
  destruct rest as [| k2 rest'].
  - cbn [baseSet]. destruct (guarded k); [reflexivity | apply assign_twice].
  - remember (k2 :: rest') as rest eqn:Erest.
    assert (Hstep : forall g,
      baseSet g (k :: rest) v
      = if guarded k then g
        else let '(kd, cf) :=
               match lookup k g with
               | Some (VObj kd cf) => (kd, cf)
               | _ => (if isIndex k2 then Arr else Plain, [])
               end in
             assign k (VObj kd (baseSet cf rest v)) g).
    { intros g. subst rest. reflexivity. }
    rewrite (Hstep f). destruct (guarded k) eqn:G.
    + apply Hstep.
    + destruct (match lookup k f with
                | Some (VObj kd cf) => (kd, cf)
                | _ => (if isIndex k2 then Arr else Plain, [])
                end) as [kd cf].
      rewrite Hstep, lookup_assign_same, IH.
      apply assign_twice.
Qed.

(** Writing at a path does not change how the path is cast, whether the
    write is refused or not. *)
Lemma castPath_after_set p kd f v :
  castPath p (VObj kd (baseSet f (castPath p (VObj kd f)) v))
  = castPath p (VObj kd f).
Proof.
  unfold castPath, isKey.
  destruct (reIsPlainProp p) eqn:Eplain; [reflexivity |].
  destruct (reIsDeepProp p) eqn:Edeep; [| reflexivity].
  simpl orb. unfold has_key.
  destruct (lookup p f) as [x |] eqn:El.
  - cbn [baseSet]. destruct (guarded p).
    + rewrite El. reflexivity.
    + rewrite lookup_assign_same. reflexivity.
  - destruct (stringToPath p) as [| k rest] eqn:Ep.
    + simpl. rewrite El. reflexivity.
    + rewrite lookup_baseSet_other, El; [reflexivity |].
      apply stringToPath_key; [exact Edeep |]. rewrite Ep. left. reflexivity.
Qed.

Lemma set_twice o p v : set (set o p v) p v = set o p v.
Proof.
  destruct o as [| | | | | kd f]; try reflexivity.
  unfold set. rewrite castPath_after_set, baseSet_twice. reflexivity.
Qed.

Lemma strict_eq_eq a b : strict_eq a b = true -> a = b.
Proof.
  destruct a, b; simpl; try discriminate; intros H; try reflexivity.
  - apply Bool.eqb_prop in H. subst. reflexivity.
  - apply Z.eqb_eq in H. subst. reflexivity.
  - apply String.eqb_eq in H. subst. reflexivity.
Qed.

End SetFacts.

(** ** The registry of field validators *)

Module RegistryFacts.
Import FormManager.

Lemma registered_app {A : Type} key (l l' : list (string * A)) :
  registered key (l ++ l') = registered key l || registered key l'.
Proof.
  induction l as [| [k f] l IH]; simpl; [reflexivity |].
  rewrite IH, orb_assoc. reflexivity.
Qed.

Lemma unregister_absent {A : Type} key (l : list (string * A)) :
  registered key l = false -> unregister key l = l.
Proof.
  induction l as [| [k f] l IH]; simpl; [reflexivity |].
  intros H. apply orb_false_iff in H as [Hk Hl].
  rewrite Hk, (IH Hl). reflexivity.
Qed.

Lemma unregister_app {A : Type} key (l l' : list (string * A)) :
  unregister key (l ++ l') = (unregister key l ++ unregister key l')%list.
Proof.
  induction l as [| [k f] l IH]; simpl; [reflexivity |].
  destruct (String.eqb key k); simpl; rewrite IH; reflexivity.
Qed.

Lemma registered_unregister {A : Type} key key' (l : list (string * A)) :
  registered key' (unregister key l)
  = negb (String.eqb key' key) && registered key' l.
Proof.
  induction l as [| [k f] l IH]; simpl.
  - rewrite andb_false_r. reflexivity.
  - destruct (String.eqb key k) eqn:E.
    + apply String.eqb_eq in E. subst k. rewrite IH.
      destruct (String.eqb key' key); reflexivity.
    + simpl. rewrite IH.
      destruct (String.eqb key' key) eqn:E'; simpl; [| reflexivity].
      apply String.eqb_eq in E'. subst key'. rewrite E. reflexivity.
Qed.

Lemma customValidators_added key func w :
  customValidators (me (snd (addFieldValidator key func w)))
  = if registered key (customValidators (me w))
    then customValidators (me w)
    else (customValidators (me w) ++ [(key, func)])%list.
Proof.
  unfold addFieldValidator, this, bind, read, ret, when, modify. simpl.
  destruct (registered key (customValidators (me w))); reflexivity.
Qed.

Lemma customValidators_removed key w :
  customValidators (me (snd (removeFieldValidator key w)))
  = unregister key (customValidators (me w)).
Proof. reflexivity. Qed.

Lemma addFieldValidator_registered key func w :
  registered key (customValidators (me w)) = true ->
  addFieldValidator key func w = (Returned tt, w).
Proof.
  intros E. unfold addFieldValidator, this, bind, read, ret, when. simpl.
  rewrite E. reflexivity.
Qed.

End RegistryFacts.

(** X1.  [addFieldValidator] registers a validator only at a key that has
    none: once a validator is registered at a key, the key is registered,
    and registering another one there changes nothing, so that the first
    one stays.  The key is an ordinary name: at a name that every object
    inherits the lookup of [addFieldValidator] finds the inherited
    property. *)
Theorem addFieldValidator_first_wins
  (key : string) (func func' : value -> option string) (w : world) :
  Notions.ordinary_name key = true ->
  let w1 := snd (addFieldValidator key func w) in
  registered key (customValidators (me w1)) = true
  /\ addFieldValidator key func' w1 = (Returned tt, w1)
  /\ customValidators (me w1)
     = if registered key (customValidators (me w))
       then customValidators (me w)
       else (customValidators (me w) ++ [(key, func)])%list.
Proof.
  intros _ w1.
  assert (Hcv := RegistryFacts.customValidators_added key func w).
  fold w1 in Hcv.
  assert (Hreg : registered key (customValidators (me w1)) = true).
  { rewrite Hcv.
    destruct (registered key (customValidators (me w))) eqn:E; [exact E |].
    rewrite RegistryFacts.registered_app. simpl.
    rewrite String.eqb_refl, orb_true_r. reflexivity. }
  split; [exact Hreg | split; [| exact Hcv]].
  apply RegistryFacts.addFieldValidator_registered, Hreg.
Qed.

Lemma addFieldValidator_first_wins_witness :
  let func := fun _ : value => Some "required" in
  let func' := fun _ : value => Some "too short" in
  let w := accepting_world in
  let w1 := snd (addFieldValidator "email" func w) in
  registered "email" (customValidators (me w1)) = true
  /\ addFieldValidator "email" func' w1 = (Returned tt, w1)
  /\ customValidators (me w1)
     = if registered "email" (customValidators (me w))
       then customValidators (me w)
       else (customValidators (me w) ++ [("email", func)])%list.
Proof.
  apply (addFieldValidator_first_wins "email" (fun _ => Some "required")
           (fun _ => Some "too short") accepting_world).
  reflexivity.
Defined.

(** X2.  [removeFieldValidator] removes the registration of the key and
    no other: afterwards the key is not registered, every other key is
    registered exactly when it was, and [addFieldValidator] registers at
    the key again.  Removing a key right after registering at it leaves
    the registry that removing it alone leaves.  The key is an ordinary
    name. *)
Theorem removeFieldValidator_unregisters
  (key : string) (func : value -> option string) (w : world) :
  Notions.ordinary_name key = true ->
  let w1 := snd (removeFieldValidator key w) in
  let registry w := customValidators (me w) in
  registered key (registry w1) = false
  /\ (forall key',
        registered key' (registry w1)
        = negb (String.eqb key' key) && registered key' (registry w))
  /\ registry (snd (addFieldValidator key func w1))
     = (registry w1 ++ [(key, func)])%list
  /\ registry (snd (removeFieldValidator key
                      (snd (addFieldValidator key func w))))
     = registry w1.
Proof.
  intros _ w1 registry. unfold registry.
  assert (Hcv := RegistryFacts.customValidators_removed key w). fold w1 in Hcv.
  assert (Hgone : registered key (customValidators (me w1)) = false).
  { rewrite Hcv, RegistryFacts.registered_unregister, String.eqb_refl.
    reflexivity. }
  split; [exact Hgone | split; [| split]].
  - intros key'. rewrite Hcv. apply RegistryFacts.registered_unregister.
  - rewrite RegistryFacts.customValidators_added, Hgone. reflexivity.
  - rewrite RegistryFacts.customValidators_removed,
      RegistryFacts.customValidators_added, Hcv.
    destruct (registered key (customValidators (me w))); [reflexivity |].
    rewrite RegistryFacts.unregister_app. simpl.
    rewrite String.eqb_refl. apply app_nil_r.
Qed.

Lemma removeFieldValidator_unregisters_witness :
  let func := fun _ : value => Some "required" in
  let w := snd (addFieldValidator "name" (fun _ => None)
                  (snd (addFieldValidator "email" (fun _ => Some "taken")
                          accepting_world))) in
  let w1 := snd (removeFieldValidator "email" w) in
  let registry w := customValidators (me w) in
  registered "email" (registry w1) = false
  /\ (forall key',
        registered key' (registry w1)
        = negb (String.eqb key' "email") && registered key' (registry w))
  /\ registry (snd (addFieldValidator "email" func w1))
     = (registry w1 ++ [("email", func)])%list
  /\ registry (snd (removeFieldValidator "email"
                      (snd (addFieldValidator "email" func w))))
     = registry w1.
Proof.
  apply (removeFieldValidator_unregisters "email" (fun _ => Some "required")
           (snd (addFieldValidator "name" (fun _ => None)
                   (snd (addFieldValidator "email" (fun _ => Some "taken")
                           accepting_world))))).
  reflexivity.
Defined.

(** ** The setters of the manipulator *)

Module SetterFacts.
Import FormManipulator Paths Notions.

Lemma setValue_spec key newValue state :
  setValue key newValue state
  = (Returned tt,
     with_existsChanges true
       (if Lodash.isEqual (Lodash.get (values state) key) newValue
        then state
        else with_values (Lodash.set (values state) key newValue) state)).
Proof.
  unfold setValue, bind, read, when, modify, ret.
  destruct (Lodash.isEqual (Lodash.get (values state) key) newValue); simpl;
    destruct state as [v e t iv l ec sb]; simpl; destruct ec; reflexivity.
Qed.

Lemma setError_spec key v state :
  setError key v state
  = if String.eqb key "" then (Thrown InvalidArgument, state)
    else (Returned tt, with_errors (status_set (errors state) key v) state).
Proof.
  unfold setError, status_set, bind, read, lift, when, modify, ret,
    Utils.getDeepStatus, Utils.setDeepStatus.
  destruct (String.eqb key ""); [reflexivity |].
  destruct (strict_eq (Lodash.get (errors state) key) v); simpl;
    destruct state; reflexivity.
Qed.

Lemma setTouched_spec key b state :
  setTouched key b state
  = if String.eqb key "" then (Thrown InvalidArgument, state)
    else (Returned tt,
          with_touches (status_set (touches state) key (VBool b)) state).
Proof.
  unfold setTouched, status_set, bind, read, lift, when, modify, ret,
    Utils.getDeepStatus, Utils.setDeepStatus.
  destruct (String.eqb key ""); [reflexivity |].
  destruct (strict_eq (Lodash.get (touches state) key) (VBool b)); simpl;
    destruct state; reflexivity.
Qed.

Lemma get_status_set t key v :
  isObject t = true ->
  writable (Lodash.castPath key t) = true ->
  Lodash.get (status_set t key v) key = v.
Proof.
  intros Ht Hw. unfold status_set.
  destruct (strict_eq (Lodash.get t key) v) eqn:E.
  - apply SetFacts.strict_eq_eq, E.
  - apply LodashFacts.get_set; assumption.
Qed.

Lemma status_set_twice t key v :
  status_set (status_set t key v) key v = status_set t key v.
Proof.
  unfold status_set.
  destruct (strict_eq (Lodash.get t key) v) eqn:E; [rewrite E; reflexivity |].
  destruct (strict_eq (Lodash.get (Lodash.set t key v) key) v);
    [reflexivity | apply SetFacts.set_twice].
Qed.

Lemma status_set_object t key v :
  isObject t = true -> isObject (status_set t key v) = true.
Proof.
  intros Ht. unfold status_set. destruct (strict_eq _ _); [exact Ht |].
  apply TouchFacts.set_object, Ht.
Qed.

End SetterFacts.

(** X3.  At a path whose keys name own data of the values (no key is a
    name every object inherits, and a key into an array is an index, not
    its [length]), [setValue] returns and leaves [existsChanges] true; it touches
    nothing but [values] and [existsChanges]; and setting the same value
    at the same path a second time changes nothing more, whether [_.set]
    wrote the first time or refused the path. *)
Theorem setValue_twice_is_once
  (state : ApolloFormState) (key : string) (newValue : value) :
  Notions.write_path (values state) (Lodash.castPath key (values state)) = true ->
  let once := FormManipulator.setValue key newValue state in
  fst once = Returned tt
  /\ existsChanges (snd once) = true
  /\ errors (snd once) = errors state
  /\ touches (snd once) = touches state
  /\ isValid (snd once) = isValid state
  /\ loading (snd once) = loading state
  /\ isSubmitted (snd once) = isSubmitted state
  /\ FormManipulator.setValue key newValue (snd once) = once.
Proof.
  intros _ once. unfold once. rewrite !SetterFacts.setValue_spec.
  cbn [fst snd].
  destruct (Lodash.isEqual (Lodash.get (values state) key) newValue) eqn:E.
  - repeat split. cbn [values with_existsChanges]. rewrite E. reflexivity.
  - repeat split. cbn [values with_existsChanges with_values].
    destruct (Lodash.isEqual
                (Lodash.get (Lodash.set (values state) key newValue) key)
                newValue); [reflexivity |].
    rewrite SetFacts.set_twice. reflexivity.
Qed.

Lemma setValue_twice_is_once_witness :
  let state := Notions.user_state in
  let once := FormManipulator.setValue "user.emails[1]" (VStr "a@b.c") state in
  fst once = Returned tt
  /\ existsChanges (snd once) = true
  /\ errors (snd once) = errors state
  /\ touches (snd once) = touches state
  /\ isValid (snd once) = isValid state
  /\ loading (snd once) = loading state
  /\ isSubmitted (snd once) = isSubmitted state
  /\ FormManipulator.setValue "user.emails[1]" (VStr "a@b.c") (snd once) = once.
Proof.
  apply (setValue_twice_is_once Notions.user_state "user.emails[1]"
           (VStr "a@b.c")).
  reflexivity.
Defined.

(** X4.  At a key that is not empty [setError] returns and changes
    nothing but [errors]; setting the same value there again changes
    nothing more; and at a path [_.set] writes, [getError] then reads the
    value that was set. *)
Theorem getError_after_setError
  (state : ApolloFormState) (key : string) (v : value) :
  key <> "" ->
  let after := FormManipulator.setError key v state in
  fst after = Returned tt
  /\ same_but_errors state (snd after)
  /\ isValid (snd after) = isValid state
  /\ FormManipulator.setError key v (snd after) = after
  /\ (isObject (errors state) = true ->
      Paths.writable (Lodash.castPath key (errors state)) = true ->
      FormManipulator.getError (snd after) key = Returned v).
Proof.
  intros Hkey after. unfold after. rewrite SetterFacts.setError_spec.
  apply String.eqb_neq in Hkey. rewrite Hkey. cbn [fst snd].
  split; [reflexivity | split; [repeat split | split; [reflexivity | split]]].
  - rewrite SetterFacts.setError_spec, Hkey. cbn [errors with_errors].
    rewrite SetterFacts.status_set_twice. reflexivity.
  - intros Hobj Hw. unfold FormManipulator.getError, Utils.getDeepStatus.
    rewrite Hkey. cbn [errors with_errors].
    rewrite SetterFacts.get_status_set by assumption. reflexivity.
Qed.

Lemma getError_after_setError_witness :
  let state := defaultState (VObj Plain []) (VObj Plain [("user", VStr "x")])
                 (VObj Plain []) in
  let after := FormManipulator.setError "user.emails[0]" (VStr "required") state in
  fst after = Returned tt
  /\ same_but_errors state (snd after)
  /\ isValid (snd after) = isValid state
  /\ FormManipulator.setError "user.emails[0]" (VStr "required") (snd after)
     = after
  /\ (isObject (errors state) = true ->
      Paths.writable (Lodash.castPath "user.emails[0]" (errors state)) = true ->
      FormManipulator.getError (snd after) "user.emails[0]"
      = Returned (VStr "required")).
Proof.
  apply (getError_after_setError
           (defaultState (VObj Plain []) (VObj Plain [("user", VStr "x")])
              (VObj Plain []))
           "user.emails[0]" (VStr "required")).
  discriminate.
Defined.

(** X5.  At a key that is not empty [setTouched] returns and changes
    nothing but [touches]; setting the same flag there again changes
    nothing more; and at a path [_.set] writes, [getTouched] then reads
    the flag that was set. *)
Theorem getTouched_after_setTouched
  (state : ApolloFormState) (key : string) (flag : bool) :
  key <> "" ->
  let after := FormManipulator.setTouched key flag state in
  fst after = Returned tt
  /\ same_but_touches state (snd after)
  /\ isValid (snd after) = isValid state
  /\ FormManipulator.setTouched key flag (snd after) = after
  /\ (isObject (touches state) = true ->
      Paths.writable (Lodash.castPath key (touches state)) = true ->
      FormManipulator.getTouched (snd after) key = Returned (VBool flag)).
Proof.
  intros Hkey after. unfold after. rewrite SetterFacts.setTouched_spec.
  apply String.eqb_neq in Hkey. rewrite Hkey. cbn [fst snd].
  split; [reflexivity | split; [repeat split | split; [reflexivity | split]]].
  - rewrite SetterFacts.setTouched_spec, Hkey. cbn [touches with_touches].
    rewrite SetterFacts.status_set_twice. reflexivity.
  - intros Hobj Hw. unfold FormManipulator.getTouched, Utils.getDeepStatus.
    rewrite Hkey. cbn [touches with_touches].
    rewrite SetterFacts.get_status_set by assumption. reflexivity.
Qed.

Lemma getTouched_after_setTouched_witness :
  let state := defaultState (VObj Plain []) (VObj Plain [])
                 (VObj Plain [("name", VBool true)]) in
  let after := FormManipulator.setTouched "address.city" true state in
  fst after = Returned tt
  /\ same_but_touches state (snd after)
  /\ isValid (snd after) = isValid state
  /\ FormManipulator.setTouched "address.city" true (snd after) = after
  /\ (isObject (touches state) = true ->
      Paths.writable (Lodash.castPath "address.city" (touches state)) = true ->
      FormManipulator.getTouched (snd after) "address.city"
      = Returned (VBool true)).
Proof.
  apply (getTouched_after_setTouched
           (defaultState (VObj Plain []) (VObj Plain [])
              (VObj Plain [("name", VBool true)]))
           "address.city" true).
  discriminate.
Defined.

(** ** The validation pass *)

Module PassFacts.
Import FormManipulator Passes Paths Notions ManipulatorFacts.

Lemma for_each_app {S A : Type} (l l' : list A) (body : A -> M S unit) s :
  for_each (l ++ l') body s
  = bind (for_each l body) (fun _ => for_each l' body) s.
Proof.
  revert s. induction l as [| x l IH]; intros s; simpl.
  - reflexivity.
  - rewrite bind_assoc.
    change (bind (body x) (fun _ => for_each (l ++ l') body) s
            = bind (body x)
                (fun _ => bind (for_each l body) (fun _ => for_each l' body)) s).
    unfold bind at 1 2.
    destruct (body x s) as [[[] | e] s1]; [apply IH | reflexivity].
Qed.

Lemma setError_object key v s :
  isObject (errors s) = true ->
  isObject (errors (snd (setError key v s))) = true.
Proof.
  intros H. rewrite SetterFacts.setError_spec.
  destruct (String.eqb key ""); [exact H |].
  apply SetterFacts.status_set_object, H.
Qed.

(** A field validator's turn either changes nothing or sets its message
    at its key. *)
Lemma custom_validator_step_cases kv s :
  custom_validator_step kv s = (Returned tt, s)
  \/ exists message,
       snd kv (Lodash.get (values s) (fst kv)) = Some message
       /\ message <> ""
       /\ custom_validator_step kv s = setError (fst kv) (VStr message) s.
Proof.
  destruct kv as [key validator].
  unfold custom_validator_step, bind, read, when, ret. simpl.
  destruct (has_key (errors s) key); simpl; [left; reflexivity |].
  destruct (validator _) as [message |]; [| left; reflexivity].
  destruct (String.eqb message "") eqn:E; simpl; [left; reflexivity |].
  right. exists message. apply String.eqb_neq in E.
  repeat split. exact E.
Qed.

Lemma custom_validator_step_object kv s :
  isObject (errors s) = true ->
  isObject (errors (snd (custom_validator_step kv s))) = true.
Proof.
  intros H.
  destruct (custom_validator_step_cases kv s) as [E | (message & _ & _ & E)];
    rewrite E; [exact H | apply setError_object, H].
Qed.

Lemma schema_step_object err s :
  isObject (errors s) = true ->
  isObject (errors (snd (schema_step err s))) = true.
Proof. destruct err as [path message]. apply setError_object. Qed.

Lemma for_each_object {A : Type} (body : A -> M ApolloFormState unit) l :
  (forall x s, isObject (errors s) = true ->
               isObject (errors (snd (body x s))) = true) ->
  forall s, isObject (errors s) = true ->
            isObject (errors (snd (for_each l body s))) = true.
Proof.
  intros Hbody. induction l as [| x l IH]; intros s H; simpl; [exact H |].
  unfold bind. specialize (Hbody x s H).
  destruct (body x s) as [[[] | e] s1]; simpl in *; [apply IH |]; exact Hbody.
Qed.

(** The state the schema's violations are set in: the values are those
    [validate] was given, and the errors are a record. *)
Lemma collect_errors_schema m validateSync s s3 :
  validationSchema m = Some validateSync ->
  collect_errors m s = (Returned tt, s3) ->
  exists s2,
    isObject (errors s2) = true
    /\ for_each (validateSync (values s)) schema_step s2 = (Returned tt, s3).
Proof.
  intros Hschema. unfold collect_errors. rewrite Hschema.
  unfold bind at 1, modify at 1.
  set (s0 := with_errors (VObj Plain []) s).
  unfold bind at 1.
  set (merged := match validateHandler m with
                 | Some handler =>
                     bind read (fun state =>
                       modify (fun s => with_errors
                                 (Lodash.merge (errors s) (handler state)) s))
                 | None => ret tt
                 end).
  assert (H1 : exists s1, merged s0 = (Returned tt, s1)
                          /\ values s1 = values s
                          /\ isObject (errors s1) = true).
  { unfold merged. destruct (validateHandler m) as [handler |].
    - eexists. split; [reflexivity | split; reflexivity].
    - eexists. split; [reflexivity | split; reflexivity]. }
  destruct H1 as (s1 & E1 & Hv1 & Ho1). rewrite E1.
  unfold bind at 1.
  pose proof (preserves_for_each same_but_errors (customValidators m)
                custom_validator_step custom_validator_step_frame s1)
    as (Hv2 & _).
  pose proof (for_each_object custom_validator_step (customValidators m)
                custom_validator_step_object s1 Ho1) as Ho2.
  destruct (for_each (customValidators m) custom_validator_step s1)
    as [[[] | e] s2]; [| discriminate].
  simpl in Hv2, Ho2. unfold bind, read. rewrite Hv2, Hv1.
  intros H. exists s2. split; assumption.
Qed.

(** A truthy value that is no container and is read along a key path is
    among the leaves [objectDeepPairs] lists. *)
Lemma deepPairs_reaches ks : forall o prefix leaf,
  Lodash.baseGet o ks = leaf ->
  truthy leaf = true ->
  isObject leaf = false ->
  ks <> [] \/ prefix <> None ->
  existsb (fun el => truthy (snd el)) (Utils.deepPairs prefix o) = true.
Proof.
  induction ks as [| k ks IH]; intros o prefix leaf Hget Ht Hleaf Hcase.
  - simpl in Hget. subst o.
    destruct Hcase as [Hks | Hp]; [contradiction |].
    destruct prefix as [p |]; [| contradiction].
    destruct leaf; try discriminate; simpl in *; rewrite Ht; reflexivity.
  - rewrite TouchFacts.baseGet_cons in Hget.
    destruct o as [| | | | | kd f];
      try (simpl in Hget; rewrite TouchFacts.baseGet_undefined in Hget;
           subst leaf; discriminate).
    cbn [prop] in Hget. cbn [Utils.deepPairs].
    induction f as [| [k0 x0] f IHf].
    + simpl in Hget. rewrite TouchFacts.baseGet_undefined in Hget.
      subst leaf. discriminate.
    + rewrite existsb_app. apply orb_true_iff.
      simpl in Hget. destruct (String.eqb k k0) eqn:E.
      * apply String.eqb_eq in E. subst k0. left.
        apply (IH x0 _ leaf Hget Ht Hleaf). right. discriminate.
      * right. apply IHf. exact Hget.
Qed.

Lemma get_truthy_leaf e key leaf :
  isObject e = true ->
  Lodash.get e key = leaf ->
  truthy leaf = true ->
  isObject leaf = false ->
  no_truthy_leaf e = false.
Proof.
  intros He Hget Ht Hleaf. unfold no_truthy_leaf. apply negb_false_iff.
  unfold Utils.objectDeepPairs.
  destruct e as [| | | | | kd f]; try discriminate.
  unfold Lodash.get in Hget.
  destruct (Lodash.castPath key (VObj kd f)) as [| k ks] eqn:Ep.
  - subst leaf. discriminate.
  - apply (deepPairs_reaches (k :: ks) _ None leaf Hget Ht Hleaf).
    left. discriminate.
Qed.

End PassFacts.

(** X6.  [validate] builds the errors anew: the result does not depend on
    the errors the state held, and whether the pass returns or throws the
    errors it leaves are a record. *)
Theorem validate_builds_errors_anew
  (m : FormManipulator.t) (allTouched : bool) (state : ApolloFormState)
  (stale : value) :
  FormManipulator.validate m allTouched (with_errors stale state)
  = FormManipulator.validate m allTouched state
  /\ isObject (errors (snd (FormManipulator.validate m allTouched state)))
     = true.
Proof.
  split; [reflexivity |].
  rewrite validate_spec.
  assert (H : isObject (errors (snd (collect_errors m state))) = true).
  { unfold collect_errors. unfold bind at 1, modify at 1.
    set (s0 := with_errors (VObj Plain []) state).
    unfold bind at 1.
    assert (H1 : exists s1,
               match FormManipulator.validateHandler m with
               | Some handler =>
                   bind read (fun state =>
                     modify (fun s => with_errors
                               (Lodash.merge (errors s) (handler state)) s))
               | None => ret tt
               end s0 = (Returned tt, s1)
               /\ isObject (errors s1) = true).
    { destruct (FormManipulator.validateHandler m) as [handler |];
        eexists; split; reflexivity. }
    destruct H1 as (s1 & E1 & Ho1). rewrite E1.
    unfold bind at 1.
    pose proof (PassFacts.for_each_object FormManipulator.custom_validator_step
                  (FormManipulator.customValidators m)
                  PassFacts.custom_validator_step_object s1 Ho1) as Ho2.
    destruct (for_each (FormManipulator.customValidators m)
                FormManipulator.custom_validator_step s1)
      as [[[] | e] s2]; simpl in Ho2; [| exact Ho2].
    destruct (FormManipulator.validationSchema m) as [validateSync |];
      [| exact Ho2].
    unfold bind, read.
    apply PassFacts.for_each_object;
      [apply PassFacts.schema_step_object | exact Ho2]. }
  destruct (collect_errors m state) as [[[] | e] s1]; simpl in *; [| exact H].
  destruct allTouched; exact H.
Qed.

(** X7.  With no validate function and no schema, and field validators
    that report nothing, [validate] returns with no error and
    [isValid = true], and touches nothing, with [allTouched] or
    without. *)
Theorem validate_without_messages
  (m : FormManipulator.t) (allTouched : bool) (state : ApolloFormState) :
  FormManipulator.validateHandler m = None ->
  FormManipulator.validationSchema m = None ->
  Forall (fun kv => Notions.silent (snd kv)) (FormManipulator.customValidators m) ->
  FormManipulator.validate m allTouched state
  = (Returned tt, with_isValid true (with_errors (VObj Plain []) state)).
Proof.
  intros Hhandler Hschema Hsilent. rewrite validate_spec.
  assert (H : collect_errors m state
              = (Returned tt, with_errors (VObj Plain []) state)).
  { unfold collect_errors. rewrite Hhandler, Hschema.
    unfold bind at 1, modify at 1. unfold bind at 1, ret at 1.
    generalize (with_errors (VObj Plain []) state) as s. intros s.
    assert (Hloop : for_each (FormManipulator.customValidators m)
                      FormManipulator.custom_validator_step s
                    = (Returned tt, s)).
    { induction Hsilent as [| [key validator] l Hx Hl IH]; [reflexivity |].
      cbn [for_each]. unfold bind.
      destruct (PassFacts.custom_validator_step_cases (key, validator) s)
        as [E | (message & Hm & Hne & _)].
      - rewrite E. exact IH.
      - simpl in Hm, Hx. destruct (Hx (Lodash.get (values s) key)) as [F | F];
          rewrite F in Hm; [discriminate |].
        injection Hm as <-. contradiction. }
    unfold bind. rewrite Hloop. reflexivity. }
  rewrite H. unfold concluded. cbn [errors with_errors].
  destruct allTouched; destruct state; reflexivity.
Qed.

Lemma validate_without_messages_witness :
  let m := FormManipulator.mk None None
             [("name", fun _ => None); ("", fun _ => Some "")]
             (VObj Plain []) (VObj Plain []) (VObj Plain []) None in
  let state := defaultState (VObj Plain [("name", VStr "Ada")])
                 (VObj Plain [("name", VStr "stale")]) (VObj Plain []) in
  FormManipulator.validate m true state
  = (Returned tt, with_isValid true (with_errors (VObj Plain []) state)).
Proof.
  apply (validate_without_messages
           (FormManipulator.mk None None
              [("name", fun _ => None); ("", fun _ => Some "")]
              (VObj Plain []) (VObj Plain []) (VObj Plain []) None)
           true
           (defaultState (VObj Plain [("name", VStr "Ada")])
              (VObj Plain [("name", VStr "stale")]) (VObj Plain [])));
    [reflexivity | reflexivity |].
  apply Forall_cons; [intros v; left; reflexivity |].
  apply Forall_cons; [intros v; right; reflexivity | apply Forall_nil].
Defined.

(** X8.  The violations of the schema are set last, in their order: when
    [validate] returns, the error at the path of the last violation is the
    message of that violation, whatever the validate function and the
    field validators reported there, and a message that is not empty
    leaves [isValid = false].  The path is one of plain field names once
    normalised. *)
Theorem schema_violation_wins
  (m : FormManipulator.t) (allTouched : bool) (state state' : ApolloFormState)
  (validateSync : value -> list (string * string))
  (earlier : list (string * string)) (path message : string)
  (keys : list string) :
  FormManipulator.validationSchema m = Some validateSync ->
  validateSync (values state) = (earlier ++ [(path, message)])%list ->
  Paths.simple_path keys ->
  FormManipulator.normalize_path path = Paths.dotted_path keys ->
  FormManipulator.validate m allTouched state = (Returned tt, state') ->
  FormManipulator.getError state' (FormManipulator.normalize_path path)
  = Returned (VStr message)
  /\ (message <> "" -> isValid state' = false).
Proof.
  intros Hschema Hlist Hkeys Hpath Hpass.
  pose proof (validate_isValid _ _ _ _ Hpass) as Hvalid.
  rewrite validate_spec in Hpass.
  destruct (collect_errors m state) as [[[] | e] s3] eqn:Hcollect;
    [| discriminate].
  assert (Herrors : errors state' = errors s3).
  { injection Hpass as <-. destruct allTouched; reflexivity. }
  destruct (PassFacts.collect_errors_schema _ _ _ _ Hschema Hcollect)
    as (s2 & Ho2 & Hloop).
  rewrite Hlist, PassFacts.for_each_app in Hloop. unfold bind in Hloop.
  pose proof (PassFacts.for_each_object FormManipulator.schema_step earlier
                PassFacts.schema_step_object s2 Ho2) as Ho.
  destruct (for_each earlier FormManipulator.schema_step s2)
    as [[[] | e] s2']; [| discriminate].
  simpl in Ho, Hloop. unfold bind, FormManipulator.schema_step in Hloop.
  rewrite SetterFacts.setError_spec in Hloop.
  destruct (String.eqb (FormManipulator.normalize_path path) "") eqn:Hkey;
    [discriminate |].
  injection Hloop as <-.
  assert (Hget : Lodash.get (errors state') (FormManipulator.normalize_path path)
                 = VStr message).
  { rewrite Herrors. cbn [errors with_errors].
    apply SetterFacts.get_status_set; [exact Ho |].
    rewrite Hpath. apply TouchFacts.writable_cast, Hkeys. }
  split.
  - unfold FormManipulator.getError, Utils.getDeepStatus.
    rewrite Hkey, Hget. reflexivity.
  - intros Hne. rewrite Hvalid.
    assert (Hobj : isObject (errors state') = true).
    { rewrite Herrors. cbn [errors with_errors].
      apply SetterFacts.status_set_object, Ho. }
    apply (PassFacts.get_truthy_leaf _ _ _ Hobj Hget); [| reflexivity].
    simpl. apply String.eqb_neq in Hne. rewrite Hne. reflexivity.
Qed.

Lemma schema_violation_wins_witness :
  let state' :=
    snd (FormManipulator.validate Notions.friends_form false Notions.empty_state) in
  FormManipulator.getError state'
    (FormManipulator.normalize_path "friends[0].name")
  = Returned (VStr "too short")
  /\ ("too short" <> "" -> isValid state' = false).
Proof.
  apply (schema_violation_wins Notions.friends_form false Notions.empty_state
           (snd (FormManipulator.validate Notions.friends_form false
                   Notions.empty_state))
           Notions.friends_schema [("name", "required")]
           "friends[0].name" "too short" ["friends"; "0"; "name"]);
    try reflexivity.
  split; [discriminate | repeat constructor].
Defined.

(** ** What a call of the manager keeps *)

Module CallFacts.
Import FormManager Passes Worlds History Notions ManipulatorFacts ManagerFacts.

Section WorldFrames.

Variable R : world -> world -> Prop.
Context `{!Frame R}.
Hypothesis R_fetched : forall w, R w (fetched w).
Hypothesis R_written : forall state w, R w (written state w).
Hypothesis R_changed :
  forall values w, R w (mkWorld (me w) (cache w) (log w ++ [OnChange values])).
Hypothesis R_me : forall f w, R w (with_me f w).

Lemma frame_get : preserves R get.
Proof. intros w. rewrite get_spec. apply R_fetched. Qed.

Lemma frame_set state : preserves R (set state).
Proof. intros w. rewrite set_spec. apply R_written. Qed.

Lemma frame_changed values : preserves R (emit (OnChange values)).
Proof. intros w. apply R_changed. Qed.

Lemma frame_this : preserves R this.
Proof. intros w. apply frame_refl. Qed.

Lemma frame_on_state act state : preserves R (on_state act state).
Proof.
  intros w. unfold on_state.
  destruct (act state) as [[[] | e] s']; apply frame_refl.
Qed.

Lemma frame_me f : preserves R (modify (with_me f)).
Proof. intros w. apply R_me. Qed.

Ltac world_steps :=
  repeat first
    [ apply frame_get
    | apply frame_set
    | apply frame_changed
    | apply frame_this
    | apply frame_on_state
    | apply frame_me
    | apply preserves_bind; [typeclasses eauto | |]
    | apply preserves_when; [typeclasses eauto |]
    | apply preserves_ret; typeclasses eauto
    | apply preserves_lift; typeclasses eauto
    | intro ].

(** Every call but [submit] consists of steps [R] holds of. *)
Lemma perform_frame a :
  a <> Submit -> preserves R (perform a).
Proof.
  intros Ha. destruct a; cbn [perform]; try contradiction.
  - unfold setValues. world_steps.
  - unfold setErrors. world_steps.
  - unfold setTouches. world_steps.
  - unfold setFieldValue. world_steps.
    match goal with |- context [if ?b then _ else _] => destruct b end;
      world_steps.
  - unfold setFieldError. world_steps.
  - unfold setFieldTouched. world_steps.
  - unfold setIsValid. world_steps.
  - unfold setIsSubmitted. world_steps.
  - unfold setExistsChanges. world_steps.
  - unfold setLoading. world_steps.
  - unfold validate. world_steps.
  - unfold addFieldValidator. world_steps.
  - unfold removeFieldValidator. world_steps.
  - intros w. rewrite submit_settled_spec. apply R_written.
  - unfold reset. world_steps.
Qed.

End WorldFrames.

#[local] Instance record_frame :
  Frame (fun w w' => holds_record w -> holds_record w').
Proof. split; auto. Qed.

#[local] Instance handler_calls_frame :
  Frame (fun w w' => handler_calls (log w') = handler_calls (log w)).
Proof. split; [reflexivity | congruence]. Qed.

Lemma holds_record_fetched w : holds_record (fetched w).
Proof. unfold holds_record. rewrite cache_fetched. discriminate. Qed.

Lemma perform_holds_record a w :
  holds_record w -> holds_record (snd (perform a w)).
Proof.
  destruct a;
    try (apply (perform_frame (fun w w' => holds_record w -> holds_record w'));
         [ intros; apply holds_record_fetched
         | intros; discriminate
         | intros ? ? H; exact H
         | intros ? ? H; exact H
         | discriminate ]).
  intros _. cbn [perform]. unfold bind. rewrite submit_spec.
  destruct (FormManipulator.validate _ true _) as [[[] | e] s1]; simpl.
  - destruct (onSubmit (me w) && isValid s1); simpl; discriminate.
  - apply holds_record_fetched.
Qed.

Lemma perform_handler_calls a w :
  handler_calls (log (snd (perform a w)))
  = handler_calls (log w)
    + match a with
      | Submit =>
          match submit w with
          | (Returned (Some _), _) => 1
          | _ => 0
          end
      | _ => 0
      end.
Proof.
  destruct a;
    try (rewrite Nat.add_0_r;
         apply (perform_frame
                  (fun w w' => handler_calls (log w') = handler_calls (log w)));
         [ apply handler_calls_fetched
         | intros; simpl; rewrite handler_calls_app; simpl; lia
         | intros; simpl; rewrite handler_calls_app; simpl; lia
         | reflexivity
         | discriminate ]).
  cbn [perform]. unfold bind. rewrite submit_spec.
  destruct (FormManipulator.validate _ true _) as [[[] | e] s1]; simpl.
  - destruct (onSubmit (me w) && isValid s1); simpl;
      rewrite handler_calls_app, handler_calls_fetched; simpl; lia.
  - rewrite handler_calls_fetched. lia.
Qed.

Lemma setFieldValue_spec key newValue w :
  setFieldValue key newValue w
  = if String.eqb key "" then (Thrown InvalidArgument, fetched w)
    else
      let s0 := stored w in
      let s1 := if truthy (Lodash.get (touches s0) key) then s0
                else with_touches (Lodash.set (touches s0) key (VBool true)) s0 in
      let s2 := snd (FormManipulator.setValue key newValue s1) in
      match FormManipulator.validate (manipulator (me w)) false s2 with
      | (Returned _, s3) =>
          (Returned s3,
           mkWorld (me w) (Some s3)
             (log (fetched w)
              ++ Wrote s3
                 :: (if onChange (me w) then [OnChange (values s3)] else [])))
      | (Thrown e, _) => (Thrown e, fetched w)
      end.
Proof.
  unfold setFieldValue. after_get w.
  unfold this. unfold bind at 1. unfold bind at 1. unfold read, ret.
  cbv beta iota. rewrite !me_fetched.
  unfold bind at 1, lift, Utils.getDeepStatus.
  destruct (String.eqb key "") eqn:Hkey; [reflexivity |].
  unfold bind at 1.
  assert (Hfirst :
            (if negb (truthy (Lodash.get (touches (stored w)) key))
             then on_state (FormManipulator.setTouched key true) (stored w)
             else fun s : world => (Returned (stored w), s)) (fetched w)
            = (Returned
                 (if truthy (Lodash.get (touches (stored w)) key)
                  then stored w
                  else with_touches
                         (Lodash.set (touches (stored w)) key (VBool true))
                         (stored w)),
               fetched w)).
  { destruct (truthy (Lodash.get (touches (stored w)) key)) eqn:Ht; simpl;
      [reflexivity |].
    unfold on_state. rewrite SetterFacts.setTouched_spec, Hkey.
    unfold status_set.
    destruct (strict_eq (Lodash.get (touches (stored w)) key) (VBool true))
      eqn:Hs; [| reflexivity].
    apply SetFacts.strict_eq_eq in Hs. rewrite Hs in Ht. discriminate. }
  rewrite Hfirst. cbv zeta.
  set (s1 := if truthy (Lodash.get (touches (stored w)) key) then stored w
             else with_touches
                    (Lodash.set (touches (stored w)) key (VBool true))
                    (stored w)).
  unfold bind at 1, on_state at 1.
  rewrite SetterFacts.setValue_spec. cbn [snd].
  unfold bind at 1, on_state at 1.
  destruct (FormManipulator.validate (manipulator (me w)) false _)
    as [[[] | e] s3]; [| reflexivity].
  unfold bind, set, modify, emit, when, ret. simpl.
  rewrite me_fetched.
  destruct (onChange (me w)); simpl; [rewrite <- app_assoc |]; reflexivity.
Qed.

End CallFacts.

(** ** Submission, when the form is valid *)

(** X9.  Where an [onSubmit] handler is configured and the validation
    pass of [submit] yields [isValid = true], [submit] writes the
    validated state with [isSubmitted = true] and [loading = true], then
    calls the handler once, with that state; the values and
    [existsChanges] are those it read. *)
Theorem submit_calls_handler_once (w : world) (s1 : ApolloFormState) :
  FormManipulator.validate (manipulator (me w)) true (stored w)
  = (Returned tt, s1) ->
  isValid s1 = true ->
  onSubmit (me w) = true ->
  let state := with_loading true (with_isSubmitted true s1) in
  submit w
  = (Returned (Some state),
     mkWorld (me w) (Some state)
       (log (fetched w) ++ [Wrote state; OnSubmit state]))
  /\ handler_calls (log (snd (submit w))) = Datatypes.S (handler_calls (log w))
  /\ values state = values (stored w)
  /\ existsChanges state = existsChanges (stored w).
Proof.
  intros Hpass Hvalid Hhandler state.
  assert (Hsubmit : submit w
                    = (Returned (Some state),
                       mkWorld (me w) (Some state)
                         (log (fetched w) ++ [Wrote state; OnSubmit state]))).
  { rewrite submit_spec, Hpass. simpl. rewrite Hhandler, Hvalid. reflexivity. }
  split; [exact Hsubmit | split; [| split]].
  - rewrite Hsubmit. simpl.
    rewrite handler_calls_app, handler_calls_fetched. simpl. lia.
  - pose proof (validate_keeps (manipulator (me w)) true (stored w)) as Hkeep.
    rewrite Hpass in Hkeep. simpl in Hkeep. apply Hkeep.
  - pose proof (validate_keeps (manipulator (me w)) true (stored w)) as Hkeep.
    rewrite Hpass in Hkeep. simpl in Hkeep. apply Hkeep.
Qed.

Lemma submit_calls_handler_once_witness :
  let w := accepting_world in
  let s1 := snd (FormManipulator.validate (manipulator (me w)) true (stored w)) in
  let state := with_loading true (with_isSubmitted true s1) in
  submit w
  = (Returned (Some state),
     mkWorld (me w) (Some state)
       (log (fetched w) ++ [Wrote state; OnSubmit state]))
  /\ handler_calls (log (snd (submit w))) = Datatypes.S (handler_calls (log w))
  /\ values state = values (stored w)
  /\ existsChanges state = existsChanges (stored w).
Proof.
  apply (submit_calls_handler_once accepting_world
           (snd (FormManipulator.validate (manipulator (me accepting_world))
                   true (stored accepting_world))));
    reflexivity.
Defined.

(** X10.  When the promise of the handler that [submit] called is
    fulfilled, the callback returns and writes a state with
    [loading = false] and [isValid = true].  Without [resetOnSubmit] it is
    the state [submit] closed over, still submitted; with [resetOnSubmit]
    it is the initial record of the manager as it is by then, not
    submitted, with the initial errors and without a validation pass. *)
Theorem submit_success_settled
  (w w1 w2 : world) (state : ApolloFormState) :
  submit w = (Returned (Some state), w1) ->
  let m := manipulator (me w2) in
  let settled :=
    if resetOnSubmit (me w2)
    then defaultState (FormManipulator.initialState m)
           (FormManipulator.initialErrors m) (FormManipulator.initialTouches m)
    else with_loading false state in
  submit_settled state Resolved w2 = (Returned tt, written settled w2)
  /\ loading settled = false
  /\ isValid settled = true
  /\ isSubmitted settled = negb (resetOnSubmit (me w2))
  /\ (if resetOnSubmit (me w2)
      then existsChanges settled = false
      else values settled = values state
           /\ errors settled = errors state
           /\ touches settled = touches state
           /\ existsChanges settled = existsChanges state).
Proof.
  intros Hsubmit m settled.
  rewrite submit_spec in Hsubmit.
  destruct (FormManipulator.validate _ true _) as [[[] | e] s1];
    [| discriminate].
  simpl in Hsubmit.
  destruct (onSubmit (me w) && isValid s1) eqn:E; [| discriminate].
  injection Hsubmit as <- _.
  apply andb_true_iff in E as [_ E].
  rewrite submit_settled_spec. unfold settled, m.
  destruct (resetOnSubmit (me w2)); simpl; repeat split; exact E.
Qed.

Lemma submit_success_settled_witness :
  let w2 := snd (submit accepting_world) in
  let m := manipulator (me w2) in
  let settled :=
    if resetOnSubmit (me w2)
    then defaultState (FormManipulator.initialState m)
           (FormManipulator.initialErrors m) (FormManipulator.initialTouches m)
    else with_loading false accepting_submitted in
  submit_settled accepting_submitted Resolved w2
  = (Returned tt, written settled w2)
  /\ loading settled = false
  /\ isValid settled = true
  /\ isSubmitted settled = negb (resetOnSubmit (me w2))
  /\ (if resetOnSubmit (me w2)
      then existsChanges settled = false
      else values settled = values accepting_submitted
           /\ errors settled = errors accepting_submitted
           /\ touches settled = touches accepting_submitted
           /\ existsChanges settled = existsChanges accepting_submitted).
Proof.
  apply (submit_success_settled accepting_world (snd (submit accepting_world))
           (snd (submit accepting_world)) accepting_submitted).
  vm_compute. reflexivity.
Defined.

(** ** Sequences of calls *)

(** X11.  Once the manager is constructed the cache holds a record of
    the form, whatever the cache held before, and it holds one after
    every further call, whether the call returns or throws. *)
Theorem record_always_present
  (props : FormManagerParams) (cache0 : option ApolloFormState)
  (history : list History.action) :
  cache (History.run history (snd (constructor props cache0))) <> None
  /\ History.run history (snd (constructor props cache0))
     = fetched (History.run history (snd (constructor props cache0))).
Proof.
  assert (H : Notions.holds_record
                (History.run history (snd (constructor props cache0)))).
  { assert (H0 : Notions.holds_record (snd (constructor props cache0))).
    { rewrite constructor_spec.
      destruct (FormManipulator.validate _ _ _) as [[[] | e] s1]; simpl.
      - discriminate.
      - apply CallFacts.holds_record_fetched. }
    revert H0. generalize (snd (constructor props cache0)) as w.
    induction history as [| a history IH]; intros w Hw; simpl; [exact Hw |].
    apply IH, CallFacts.perform_holds_record, Hw. }
  split; [exact H |].
  unfold Notions.holds_record in H. unfold fetched.
  destruct (cache (History.run history (snd (constructor props cache0))));
    [reflexivity | contradiction].
Qed.

(** X12.  Over any sequence of calls the [onSubmit] handler is called at
    most once for each call of [submit] and by no other call, and it is
    never called where none is configured. *)
Theorem handler_called_by_submit_only
  (history : list History.action) (w : world) :
  handler_calls (log w) <= handler_calls (log (History.run history w))
  /\ handler_calls (log (History.run history w))
     <= handler_calls (log w) + Notions.submissions history
  /\ (onSubmit (me w) = false ->
      handler_calls (log (History.run history w)) = handler_calls (log w)).
Proof.
  revert w. induction history as [| a history IH]; intros w;
    cbn [History.run].
  - simpl. repeat split; lia.
  - destruct (IH (snd (History.perform a w))) as (Hlow & Hhigh & Hnone).
    pose proof (CallFacts.perform_handler_calls a w) as Hstep.
    pose proof (HistoryFacts.perform_same_settings a w) as (Hsame & _).
    cbv zeta in Hsame.
    assert (Hone : match a with
                   | History.Submit =>
                       match submit w with
                       | (Returned (Some _), _) => 1
                       | _ => 0
                       end
                   | _ => 0
                   end
                   <= match a with History.Submit => 1 | _ => 0 end).
    { destruct a; try lia.
      destruct (submit w) as [[[state |] | e] w1]; lia. }
    assert (Hcount : Notions.submissions (a :: history)
                     = match a with History.Submit => 1 | _ => 0 end
                       + Notions.submissions history).
    { destruct a; reflexivity. }
    split; [lia | split; [rewrite Hcount; lia |]].
    intros Hoff. rewrite Hnone by (rewrite Hsame; exact Hoff).
    rewrite Hstep. destruct a; try lia.
    rewrite submit_spec.
    destruct (FormManipulator.validate _ true _) as [[[] | e] s1]; simpl;
      [rewrite Hoff; simpl |]; lia.
Qed.

(** X13.  No call changes what the manager was constructed with: after
    any sequence of calls the two callbacks, [resetOnSubmit],
    [validateOnMount], the initial values, the validate function, the
    schema and the initial errors are those of the constructor's
    parameters, and so are the initial touches where [validateOnMount] is
    off. *)
Theorem settings_survive_every_call
  (props : FormManagerParams) (cache0 : option ApolloFormState)
  (history : list History.action) :
  let m := me (History.run history (snd (constructor props cache0))) in
  onSubmit m = p_onSubmit props
  /\ onChange m = p_onChange props
  /\ resetOnSubmit m = p_resetOnSubmit props
  /\ validateOnMount m = p_validateOnMount props
  /\ initialState m = p_initialState props
  /\ FormManipulator.validateHandler (manipulator m) = p_validate props
  /\ FormManipulator.validationSchema (manipulator m) = p_validationSchema props
  /\ FormManipulator.initialState (manipulator m) = p_initialState props
  /\ initialErrors m = or_empty (p_initialErrors props)
  /\ (or_false (p_validateOnMount props) = false ->
      initialTouches m = or_empty (p_initialTouches props)).
Proof.
  intros m.
  pose proof (HistoryFacts.run_same_settings history
                (snd (constructor props cache0))) as Hsame.
  unfold History.same_settings in Hsame. cbv zeta in Hsame.
  rewrite HistoryFacts.constructor_me in Hsame. exact Hsame.
Qed.

(** ** Changing a field *)

(** X14.  The keys of the path name own data of the values and of the
    touched tree that [setFieldValue] reads (no key is a name every
    object inherits, and a key into an array is an index, not its
    [length]), and in the touched tree the path meets no string, number
    or boolean on the way.  When
    [setFieldValue] returns, the state it returns is the one it wrote to
    the cache; [onChange] is called after the write, with the values
    written, exactly when it is configured.  [existsChanges] is true,
    [loading] and [isSubmitted] are as they were, the values are those
    [setValue] leaves, the errors and [isValid] are recomputed, and the
    touched tree is the one read, with [true] written at the key if the
    key did not read a truthy value.  At a path [_.set] writes, the key
    then reads touched, and it reads a value deep-equal to the new
    one. *)
Theorem setFieldValue_effects
  (key : string) (newValue : value) (w w' : world) (state : ApolloFormState) :
  setFieldValue key newValue w = (Returned state, w') ->
  Notions.write_path (values (stored w))
    (Lodash.castPath key (values (stored w))) = true ->
  Notions.data_path (touches (stored w))
    (Lodash.castPath key (touches (stored w))) = true ->
  cache w' = Some state
  /\ log w'
     = (log (fetched w)
        ++ Wrote state
           :: (if onChange (me w) then [OnChange (values state)] else []))%list
  /\ existsChanges state = true
  /\ loading state = loading (stored w)
  /\ isSubmitted state = isSubmitted (stored w)
  /\ isValid state = no_truthy_leaf (errors state)
  /\ values state
     = values (snd (FormManipulator.setValue key newValue (stored w)))
  /\ touches state
     = (if truthy (Lodash.get (touches (stored w)) key)
        then touches (stored w)
        else Lodash.set (touches (stored w)) key (VBool true))
  /\ (isObject (touches (stored w)) = true ->
      Paths.writable (Lodash.castPath key (touches (stored w))) = true ->
      exists touched,
        FormManipulator.getTouched state key = Returned touched
        /\ truthy touched = true)
  /\ (isObject (values (stored w)) = true ->
      well_formed newValue = true ->
      Paths.writable (Lodash.castPath key (values (stored w))) = true ->
      Lodash.isEqual (FormManipulator.getValue state key) newValue = true).
Proof.
  intros Hcall _ _. revert Hcall.
  rewrite CallFacts.setFieldValue_spec.
  destruct (String.eqb key "") eqn:Hkey; [discriminate |].
  cbv zeta. rewrite SetterFacts.setValue_spec. cbn [snd].
  set (s0 := stored w).
  set (s1 := if truthy (Lodash.get (touches s0) key) then s0
             else with_touches (Lodash.set (touches s0) key (VBool true)) s0).
  set (s2 := with_existsChanges true
               (if Lodash.isEqual (Lodash.get (values s1) key) newValue
                then s1
                else with_values (Lodash.set (values s1) key newValue) s1)).
  assert (Hv1 : values s1 = values s0).
  { unfold s1. destruct (truthy _); reflexivity. }
  assert (Ht1 : touches s1
                = if truthy (Lodash.get (touches s0) key) then touches s0
                  else Lodash.set (touches s0) key (VBool true)).
  { unfold s1. destruct (truthy _); reflexivity. }
  assert (Hl1 : loading s1 = loading s0 /\ isSubmitted s1 = isSubmitted s0).
  { unfold s1. destruct (truthy _); split; reflexivity. }
  assert (H2 : values s2
               = (if Lodash.isEqual (Lodash.get (values s0) key) newValue
                  then values s0
                  else Lodash.set (values s0) key newValue)
               /\ touches s2 = touches s1
               /\ loading s2 = loading s1
               /\ isSubmitted s2 = isSubmitted s1
               /\ existsChanges s2 = true).
  { unfold s2. rewrite Hv1.
    destruct (Lodash.isEqual (Lodash.get (values s0) key) newValue);
      cbn [values touches loading isSubmitted existsChanges
           with_existsChanges with_values];
      repeat split; exact Hv1. }
  destruct H2 as (Hv2 & Ht2 & Hl2 & Hs2 & He2).
  pose proof (validate_frame (manipulator (me w)) s2)
    as (Hv3 & Ht3 & Hl3 & He3 & Hs3).
  destruct (FormManipulator.validate (manipulator (me w)) false s2)
    as [[[] | e] s3] eqn:E3; [| discriminate].
  cbn [snd] in Hv3, Ht3, Hl3, He3, Hs3.
  apply validate_isValid in E3.
  intros H. injection H as <- <-. cbn [cache log].
  destruct Hl1 as [Hl1 Hs1].
  assert (Hvalues : values s3
                    = values (snd (FormManipulator.setValue key newValue s0))).
  { rewrite SetterFacts.setValue_spec. cbn [snd].
    rewrite Hv3, Hv2.
    destruct (Lodash.isEqual (Lodash.get (values s0) key) newValue);
      reflexivity. }
  assert (Htouches : touches s3
                     = if truthy (Lodash.get (touches s0) key) then touches s0
                       else Lodash.set (touches s0) key (VBool true)).
  { rewrite Ht3, Ht2. exact Ht1. }
  split; [reflexivity | split; [reflexivity |]].
  split; [congruence | split; [congruence | split; [congruence |]]].
  split; [exact E3 | split; [exact Hvalues | split; [exact Htouches |]]].
  split.
  - intros Hobj Hw. unfold FormManipulator.getTouched, Utils.getDeepStatus.
    rewrite Hkey, Htouches.
    destruct (truthy (Lodash.get (touches s0) key)) eqn:Ht.
    + eexists. split; [reflexivity | exact Ht].
    + exists (VBool true). split; [| reflexivity].
      rewrite LodashFacts.get_set by assumption. reflexivity.
  - intros Hobj Hwf Hw. unfold FormManipulator.getValue.
    rewrite Hv3, Hv2.
    destruct (Lodash.isEqual (Lodash.get (values s0) key) newValue) eqn:E;
      [exact E |].
    rewrite LodashFacts.get_set by assumption.
    apply LodashFacts.isEqual_refl, Hwf.
Qed.

Lemma setFieldValue_effects_witness :
  let w := accepting_world in
  let key := "address.city" in
  let newValue := VStr "Paris" in
  let state := snd (FormManipulator.validate (manipulator (me w)) false
                      (with_existsChanges true
                         (mkState
                            (Lodash.set (values (stored w)) key newValue)
                            (errors (stored w))
                            (Lodash.set (touches (stored w)) key (VBool true))
                            true false false false))) in
  let w' := snd (setFieldValue key newValue w) in
  cache w' = Some state
  /\ log w'
     = (log (fetched w)
        ++ Wrote state
           :: (if onChange (me w) then [OnChange (values state)] else []))%list
  /\ existsChanges state = true
  /\ loading state = loading (stored w)
  /\ isSubmitted state = isSubmitted (stored w)
  /\ isValid state = no_truthy_leaf (errors state)
  /\ values state
     = values (snd (FormManipulator.setValue key newValue (stored w)))
  /\ touches state
     = (if truthy (Lodash.get (touches (stored w)) key)
        then touches (stored w)
        else Lodash.set (touches (stored w)) key (VBool true))
  /\ (isObject (touches (stored w)) = true ->
      Paths.writable (Lodash.castPath key (touches (stored w))) = true ->
      exists touched,
        FormManipulator.getTouched state key = Returned touched
        /\ truthy touched = true)
  /\ (isObject (values (stored w)) = true ->
      well_formed newValue = true ->
      Paths.writable (Lodash.castPath key (values (stored w))) = true ->
      Lodash.isEqual (FormManipulator.getValue state key) newValue = true).
Proof.
  apply (setFieldValue_effects "address.city" (VStr "Paris") accepting_world);
    vm_compute; reflexivity.
Defined.

(** ** Reset and construction *)

(** X15.  When [reset] returns it has written a state that is not
    loading, not submitted and without changes, whose [isValid] is
    recomputed from its errors, and whose values are the initial ones
    when no override is given or the override is falsy, the override
    when it is a truthy value, and the result of the override on the
    current values when it is a function. *)
Theorem reset_with_override
  (getState : option FormManipulator.override) (w w' : world) :
  reset getState w = (Returned tt, w') ->
  exists state,
    cache w' = Some state
    /\ values state
       = match getState with
         | Some (FormManipulator.Transform f) => f (values (stored w))
         | Some (FormManipulator.Replace v) =>
             if truthy v then v
             else FormManipulator.initialState (manipulator (me w))
         | None => FormManipulator.initialState (manipulator (me w))
         end
    /\ loading state = false
    /\ isSubmitted state = false
    /\ existsChanges state = false
    /\ isValid state = no_truthy_leaf (errors state).
Proof.
  rewrite reset_spec.
  pose proof (validate_keeps (manipulator (me w))
                (or_false (validateOnMount (me w)))
                (reset_state (manipulator (me w)) getState (stored w)))
    as (Hv & Hl & _ & _).
  destruct (FormManipulator.validate _ _ _) as [[[] | e] s1] eqn:E;
    [| discriminate].
  apply validate_isValid in E. simpl in Hv, Hl.
  intros H. injection H as <-. eexists. split; [reflexivity |].
  cbn [values loading isSubmitted existsChanges isValid errors
       with_existsChanges with_isSubmitted].
  split; [| split; [| repeat split; exact E]].
  - rewrite Hv. unfold reset_state, FormManipulator.reset, modify. simpl.
    destruct getState as [[v | f] |]; [destruct (truthy v) | |]; reflexivity.
  - rewrite Hl. unfold reset_state, FormManipulator.reset, modify. simpl.
    destruct getState as [[v | f] |]; [destruct (truthy v) | |]; reflexivity.
Qed.

Lemma reset_with_override_witness :
  let getState :=
    Some (FormManipulator.Transform
            (fun v => Lodash.set v "age" (VNum 21))) in
  let w := stale_world in
  exists state,
    cache (snd (reset getState w)) = Some state
    /\ values state
       = match getState with
         | Some (FormManipulator.Transform f) => f (values (stored w))
         | Some (FormManipulator.Replace v) =>
             if truthy v then v
             else FormManipulator.initialState (manipulator (me w))
         | None => FormManipulator.initialState (manipulator (me w))
         end
    /\ loading state = false
    /\ isSubmitted state = false
    /\ existsChanges state = false
    /\ isValid state = no_truthy_leaf (errors state).
Proof.
  apply (reset_with_override
           (Some (FormManipulator.Transform
                    (fun v => Lodash.set v "age" (VNum 21))))
           stale_world).
  vm_compute. reflexivity.
Defined.

(** X16.  The state [reset] validates holds the manager's
    [initialTouches] object itself, so what [reset] writes as touched is
    what the manager holds as initial touches afterwards: the next
    [reset], whatever its override, starts from the touched tree this one
    wrote, not from the one the manager was constructed with. *)
Theorem reset_keeps_written_touches
  (getState : option FormManipulator.override) (w w' : world) :
  reset getState w = (Returned tt, w') ->
  initialTouches (me w') = touches (stored w')
  /\ (forall getState',
        touches (reset_state (manipulator (me w')) getState' (stored w'))
        = touches (stored w'))
  /\ (or_false (validateOnMount (me w)) = false ->
      initialTouches (me w') = initialTouches (me w)).
Proof.
  intros Hreset.
  pose proof (HistoryFacts.perform_same_settings (History.Reset getState) w)
    as Hsame.
  cbn [History.perform] in Hsame. rewrite Hreset in Hsame.
  destruct Hsame as (_ & _ & _ & _ & _ & _ & _ & _ & _ & Hoff).
  rewrite reset_spec in Hreset.
  destruct (FormManipulator.validate _ _ _) as [[[] | e] s1];
    [| discriminate].
  injection Hreset as <-.
  split; [reflexivity | split; [| exact Hoff]].
  intros getState'. unfold reset_state, FormManipulator.reset, modify. simpl.
  destruct getState' as [[v | f] |]; [destruct (truthy v) | |]; reflexivity.
Qed.

Lemma reset_keeps_written_touches_witness :
  let w' := snd (reset None stale_world) in
  initialTouches (me w') = touches (stored w')
  /\ (forall getState',
        touches (reset_state (manipulator (me w')) getState' (stored w'))
        = touches (stored w'))
  /\ (or_false (validateOnMount (me stale_world)) = false ->
      initialTouches (me w') = initialTouches (me stale_world)).
Proof.
  apply (reset_keeps_written_touches None stale_world).
  vm_compute. reflexivity.
Defined.

(** X17.  When the constructor returns, the manager has no field
    validator and the cache holds a validated record.  On a cache that
    held a record of the form the record is kept: its values, [loading],
    [existsChanges] and [isSubmitted] are as they were, the initial values
    are not used, and the one write is that of the validated record.  On a
    cache that held none, the initial record is written first, and the
    values are the initial ones. *)
Theorem constructor_keeps_cached_record
  (props : FormManagerParams) (cache0 : option ApolloFormState) (w' : world) :
  constructor props cache0 = (Returned tt, w') ->
  let initial :=
    defaultState (p_initialState props) (or_empty (p_initialErrors props))
      (or_empty (p_initialTouches props)) in
  let found := match cache0 with Some data => data | None => initial end in
  exists state,
    cache w' = Some state
    /\ customValidators (me w') = []
    /\ log w'
       = match cache0 with
         | Some _ => [Wrote state]
         | None => [Wrote initial; Wrote state]
         end
    /\ values state = values found
    /\ loading state = loading found
    /\ existsChanges state = existsChanges found
    /\ isSubmitted state = isSubmitted found
    /\ isValid state = no_truthy_leaf (errors state).
Proof.
  rewrite constructor_spec. cbv zeta.
  set (w0 := mkWorld (fields_of props) cache0 []).
  pose proof (validate_keeps (manipulator (fields_of props))
                (or_false (p_validateOnMount props)) (stored w0))
    as (Hv & Hl & He & Hs).
  destruct (FormManipulator.validate _ _ _) as [[[] | e] s1] eqn:E;
    [| discriminate].
  apply validate_isValid in E. simpl in Hv, Hl, He, Hs.
  intros H. injection H as <-. exists s1.
  assert (Hfound : stored w0
                   = match cache0 with
                     | Some data => data
                     | None =>
                         defaultState (p_initialState props)
                           (or_empty (p_initialErrors props))
                           (or_empty (p_initialTouches props))
                     end).
  { unfold stored, w0. simpl. destruct cache0; reflexivity. }
  rewrite <- Hfound.
  split; [reflexivity | split; [| split]].
  - simpl. rewrite me_fetched. reflexivity.
  - unfold written, fetched, w0. simpl. destruct cache0; reflexivity.
  - repeat split; assumption.
Qed.

Lemma constructor_keeps_cached_record_witness :
  let props := accepting_props in
  let cache0 := Some (mkState (VObj Plain [("age", VNum 44)]) (VObj Plain [])
                        (VObj Plain []) true false true true) in
  let w' := snd (constructor props cache0) in
  let initial :=
    defaultState (p_initialState props) (or_empty (p_initialErrors props))
      (or_empty (p_initialTouches props)) in
  let found := match cache0 with Some data => data | None => initial end in
  exists state,
    cache w' = Some state
    /\ customValidators (me w') = []
    /\ log w'
       = match cache0 with
         | Some _ => [Wrote state]
         | None => [Wrote initial; Wrote state]
         end
    /\ values state = values found
    /\ loading state = loading found
    /\ existsChanges state = existsChanges found
    /\ isSubmitted state = isSubmitted found
    /\ isValid state = no_truthy_leaf (errors state).
Proof.
  apply (constructor_keeps_cached_record accepting_props
           (Some (mkState (VObj Plain [("age", VNum 44)]) (VObj Plain [])
                    (VObj Plain []) true false true true))).
  vm_compute. reflexivity.
Defined.

(** ** The [isValid] flag of a written state *)

(** X18.  When a call of the manager returns, the [isValid] of the
    record in the cache depends on the kind of the call.  After the calls
    that validate before they write ([setFieldValue], [validate], [reset],
    and [submit] up to its return) it is computed from the errors of that
    record: true exactly when none of their leaves is truthy.  After
    [setValues], [setErrors], [setTouches], [setFieldTouched],
    [setIsSubmitted], [setExistsChanges] and [setLoading] it is the
    [isValid] of the record that was there, whatever the errors
    written. *)
Theorem isValid_after_each_call (a : History.action) (w w' : world) :
  History.perform a w = (Returned tt, w') ->
  (History.revalidates a = true ->
   isValid (cached w') = no_truthy_leaf (errors (cached w')))
  /\ (History.copies_isValid a = true ->
      isValid (cached w') = isValid (cached w)).
Proof.
  intros Hrun.
  destruct (isValid_of_written_state a w w' Hrun) as [Hre Hcopy].
  split; intros Hkind.
  - destruct (Hre Hkind) as (state & Hcache & Hiff).
    unfold cached, stored. rewrite Hcache.
    apply Bool.eq_iff_eq_true. rewrite Hiff. symmetry.
    apply no_truthy_leaf_iff.
  - destruct (Hcopy Hkind) as (state & Hcache & Hsame).
    unfold cached at 1. unfold stored at 1. rewrite Hcache. exact Hsame.
Qed.

Lemma isValid_after_each_call_witness :
  let a := History.Validate None in
  let w := stale_world in
  let w' := snd (History.perform a w) in
  (History.revalidates a = true ->
   isValid (cached w') = no_truthy_leaf (errors (cached w')))
  /\ (History.copies_isValid a = true ->
      isValid (cached w') = isValid (cached w)).
Proof.
  apply (isValid_after_each_call (History.Validate None) stale_world).
  vm_compute. reflexivity.
Defined.

(** ** The paths of the schema violations, again *)

Module BracketFacts.
Import FormManipulator Notions.

Lemma replace_first_absent c by_ s :
  occurrences c s = 0 -> replace_first c by_ s = s.
Proof.
  induction s as [| d r IH]; [reflexivity |].
  cbn [occurrences replace_first].
  destruct (Ascii.eqb c d); intros H; [lia |].
  rewrite IH by lia. reflexivity.
Qed.

Lemma as_specified_absent s :
  occurrences "["%char s = 0 -> occurrences "]"%char s = 0 ->
  normalize_path_as_specified s = s.
Proof.
  induction s as [| d r IH]; [reflexivity |].
  cbn [occurrences normalize_path_as_specified].
  rewrite (Ascii.eqb_sym d "["%char), (Ascii.eqb_sym d "]"%char).
  destruct (Ascii.eqb "["%char d); intros H1; [lia |].
  destruct (Ascii.eqb "]"%char d); intros H2; [lia |].
  rewrite IH by lia. reflexivity.
Qed.

(** With no opening bracket and at most one closing bracket. *)
Lemma as_specified_closing s :
  occurrences "["%char s = 0 -> occurrences "]"%char s <= 1 ->
  normalize_path_as_specified s = replace_first "]"%char "" s.
Proof.
  induction s as [| d r IH]; [reflexivity |].
  cbn [occurrences normalize_path_as_specified replace_first].
  rewrite (Ascii.eqb_sym d "["%char), (Ascii.eqb_sym d "]"%char).
  destruct (Ascii.eqb "["%char d); intros H1; [lia |].
  destruct (Ascii.eqb "]"%char d); intros H2.
  - change ("" ++ r) with r. apply as_specified_absent; lia.
  - rewrite IH by lia. reflexivity.
Qed.

(** With no closing bracket and at most one opening bracket. *)
Lemma as_specified_opening s :
  occurrences "["%char s <= 1 -> occurrences "]"%char s = 0 ->
  normalize_path_as_specified s = replace_first "["%char "." s.
Proof.
  induction s as [| d r IH]; [reflexivity |].
  cbn [occurrences normalize_path_as_specified replace_first].
  rewrite (Ascii.eqb_sym d "["%char), (Ascii.eqb_sym d "]"%char).
  destruct (Ascii.eqb "["%char d) eqn:E; intros H1.
  - destruct (Ascii.eqb "]"%char d); intros H2; [lia |].
    change ("." ++ r) with (String "."%char r).
    rewrite as_specified_absent by lia. reflexivity.
  - destruct (Ascii.eqb "]"%char d); intros H2; [lia |].
    rewrite IH by lia. reflexivity.
Qed.

End BracketFacts.

(** X19.  On a path with at most one ['['] and at most one [']'], which
    is a path with at most one array index, the two [replace] calls of
    [validate] turn every ['['] into a dot and drop every [']']; a path
    with no bracket is left as it is. *)
Theorem normalize_path_single_index (path : string) :
  Notions.occurrences "["%char path <= 1 ->
  Notions.occurrences "]"%char path <= 1 ->
  FormManipulator.normalize_path path = normalize_path_as_specified path
  /\ (Notions.occurrences "["%char path = 0 ->
      Notions.occurrences "]"%char path = 0 ->
      FormManipulator.normalize_path path = path).
Proof.
  intros Hopen Hclose. split.
  - unfold FormManipulator.normalize_path.
    revert Hopen Hclose. induction path as [| d r IH]; [reflexivity |].
    cbn [Notions.occurrences FormManipulator.replace_first
         normalize_path_as_specified].
    rewrite (Ascii.eqb_sym d "["%char), (Ascii.eqb_sym d "]"%char).
    destruct (Ascii.eqb "["%char d) eqn:Eo.
    + assert (Ec : Ascii.eqb "]"%char d = false).
      { apply Ascii.eqb_eq in Eo. subst d. reflexivity. }
      rewrite Ec. intros Hopen Hclose.
      change ("." ++ r) with (String "."%char r).
      cbn [FormManipulator.replace_first].
      change (Ascii.eqb "]"%char "."%char) with false. cbv iota.
      rewrite BracketFacts.as_specified_closing by lia. reflexivity.
    + destruct (Ascii.eqb "]"%char d) eqn:Ec; intros Hopen Hclose.
      * cbn [FormManipulator.replace_first]. rewrite Ec.
        change ("" ++ FormManipulator.replace_first "["%char "." r)
          with (FormManipulator.replace_first "["%char "." r).
        symmetry. apply BracketFacts.as_specified_opening; lia.
      * cbn [FormManipulator.replace_first]. rewrite Ec.
        rewrite IH by lia. reflexivity.
  - intros Ho Hc. unfold FormManipulator.normalize_path.
    rewrite (BracketFacts.replace_first_absent _ _ _ Ho).
    apply BracketFacts.replace_first_absent, Hc.
Qed.

Lemma normalize_path_single_index_witness :
  FormManipulator.normalize_path "friends[0].name"
  = normalize_path_as_specified "friends[0].name"
  /\ (Notions.occurrences "["%char "friends[0].name" = 0 ->
      Notions.occurrences "]"%char "friends[0].name" = 0 ->
      FormManipulator.normalize_path "friends[0].name" = "friends[0].name").
Proof.
  apply (normalize_path_single_index "friends[0].name"); simpl; lia.
Defined.

(** ** Setting the error of a field *)

(** X20.  When [setFieldError] returns it has written the record it read
    with the error set at the key and nothing else changed but [isValid],
    which it computes from the errors it leaves: [isValid] is true
    exactly when some leaf of these errors is truthy.  Neither callback is
    called. *)
Theorem setFieldError_isValid
  (key : string) (error : value) (w w' : world) :
  setFieldError key error w = (Returned tt, w') ->
  exists state,
    w' = written state (fetched w)
    /\ errors state = Notions.status_set (errors (stored w)) key error
    /\ isValid state = negb (no_truthy_leaf (errors state))
    /\ same_but_errors (stored w) state.
Proof.
  unfold setFieldError. after_get w.
  unfold bind at 1, on_state. rewrite SetterFacts.setError_spec.
  destruct (String.eqb key ""); [discriminate |].
  intros H. injection H as <-. eexists. split; [reflexivity |].
  unfold no_truthy_leaf. rewrite negb_involutive.
  repeat split.
Qed.

Lemma setFieldError_isValid_witness :
  let w := accepting_world in
  exists state,
    snd (setFieldError "age" (VStr "too young") w) = written state (fetched w)
    /\ errors state
       = Notions.status_set (errors (stored w)) "age" (VStr "too young")
    /\ isValid state = negb (no_truthy_leaf (errors state))
    /\ same_but_errors (stored w) state.
Proof.
  apply (setFieldError_isValid "age" (VStr "too young") accepting_world).
  vm_compute. reflexivity.
Defined.
